(** * CodeRabbit PR analyzer: a shallow embedding of the extension's core

    The development follows the JavaScript sources of the extension:
    - [extension/github-api.js]: [fetchAllPages], [parseActionableIssue],
      [fetchPRComments], [fetchGraphQLThreads], [analyzePRs];
    - the shared filtering utilities: [extractTitles],
      [calculateSimilarity], [groupSimilarTitles], [applyCombinedFilters],
      [toggleManualAcceptance], [applyManualAcceptanceState].

    JavaScript strings are sequences of UTF-16 code units and are modelled
    as such; regular expressions are interpreted by a backtracking matcher
    that follows the ECMAScript semantics of the constructs the sources
    use (no [u] flag: a pattern character is one code unit).  An object
    literal used as a dictionary is modelled with the properties it
    inherits from [Object.prototype]: a call that throws returns the
    exception ([inl]) in place of a value ([inr]). *)

From Stdlib Require Import QArith Ascii String Sorted.
From stdpp Require Import gmap list strings.
Close Scope Q_scope.
Open Scope N_scope.

(** ** JavaScript strings *)

Module JS.

(** A string is a list of UTF-16 code units. *)
Abbreviation jsstring := (list N).

(** Source literals are written in UTF-8 in this file; [js] decodes them to
    UTF-16 code units, as the JavaScript engine does when it reads the
    script. *)
Definition units (cp : N) : jsstring :=
  if cp <? 0x10000 then [cp]
  else let c := cp - 0x10000 in [0xD800 + c / 0x400; 0xDC00 + c mod 0x400].

Definition utf8_step (st : N * nat * jsstring) (b : N) : N * nat * jsstring :=
  let '(acc, need, out) := st in
  match need with
  | O =>
      if b <? 0x80 then (0, O, out ++ units b)
      else if b <? 0xE0 then (N.land b 0x1F, 1%nat, out)
      else if b <? 0xF0 then (N.land b 0x0F, 2%nat, out)
      else (N.land b 0x07, 3%nat, out)
  | S n =>
      let acc' := acc * 64 + N.land b 0x3F in
      match n with
      | O => (0, O, out ++ units acc')
      | S _ => (acc', n, out)
      end
  end.

Definition js (s : string) : jsstring :=
  snd (fold_left utf8_step (map N_of_ascii (list_ascii_of_string s)) (0, O, [])).

Definition LF : N := 10.

(** WhiteSpace and LineTerminator code units: what [\s] matches and what
    [String.prototype.trim] strips. *)
Definition is_space (c : N) : bool :=
  (9 <=? c) && (c <=? 13) || (c =? 32) || (c =? 0xA0) || (c =? 0x1680)
  || (0x2000 <=? c) && (c <=? 0x200A) || (c =? 0x2028) || (c =? 0x2029)
  || (c =? 0x202F) || (c =? 0x205F) || (c =? 0x3000) || (c =? 0xFEFF).

(** [\w] without the [u] and [i] flags: [A-Za-z0-9_]. *)
Definition is_word (c : N) : bool :=
  (65 <=? c) && (c <=? 90) || (97 <=? c) && (c <=? 122)
  || (48 <=? c) && (c <=? 57) || (c =? 95).

Definition mem (c : N) (l : jsstring) : bool := existsb (N.eqb c) l.

Definition str_eqb (a b : jsstring) : bool := bool_decide (a = b).

(** Truthiness of a string: the empty string is falsy. *)
Definition truthy (s : jsstring) : bool :=
  match s with [] => false | _ :: _ => true end.

Fixpoint trimStart (s : jsstring) : jsstring :=
  match s with
  | c :: s' => if is_space c then trimStart s' else s
  | [] => []
  end.

Definition trim (s : jsstring) : jsstring :=
  rev (trimStart (rev (trimStart s))).

Fixpoint is_prefix (p s : jsstring) : bool :=
  match p, s with
  | [], _ => true
  | c :: p', d :: s' => (c =? d) && is_prefix p' s'
  | _ :: _, [] => false
  end.

(** [s.indexOf(t)]: the first index at which [t] occurs, or -1. *)
Fixpoint indexOf_from (t s : jsstring) (i : Z) : Z :=
  if is_prefix t s then i
  else match s with
       | [] => (-1)%Z
       | _ :: s' => indexOf_from t s' (i + 1)%Z
       end.

Definition indexOf (s t : jsstring) : Z := indexOf_from t s 0%Z.

Definition strlen (s : jsstring) : Z := Z.of_nat (length s).

(** [s.substring(start)] and [s.substring(0, n)]: indices are clamped to
    the string. *)
Definition substring (s : jsstring) (start : Z) : jsstring :=
  drop (Z.to_nat (Z.max 0 start)) s.

Definition substring0 (s : jsstring) (n : nat) : jsstring := take n s.

(** [s.split(sep)] for a separator of one code unit; the result is never
    empty: the empty string splits into one empty piece. *)
Fixpoint split (sep : N) (s : jsstring) : list jsstring :=
  match s with
  | [] => [[]]
  | c :: s' =>
      if c =? sep then [] :: split sep s'
      else match split sep s' with
           | w :: ws => (c :: w) :: ws
           | [] => [[c]]
           end
  end.

(** [String.prototype.toLowerCase], code unit by code unit: Basic Latin,
    Latin-1, and the two characters outside them whose lower case reaches
    Basic Latin: the Kelvin sign U+212A gives [k], and U+0130 gives [i]
    followed by U+0307.  Every other character that has a lower case is
    outside [\w] and [\s] and so is its lower case: such code units are
    left as they are, and [normalize], the only caller, turns them into
    spaces in both forms. *)
Definition lower_unit (c : N) : jsstring :=
  if (65 <=? c) && (c <=? 90) then [c + 32]
  else if (0xC0 <=? c) && (c <=? 0xDE) && negb (c =? 0xD7) then [c + 32]
  else if c =? 0x212A then [107]
  else if c =? 0x130 then [105; 0x307]
  else [c].

Definition toLowerCase (s : jsstring) : jsstring := s ≫= lower_unit.

End JS.
Import JS.

(** ** Regular expressions *)

Module RegExp.

Inductive regex : Type :=
| Eps : regex
| Chr (c : N)
| Class (p : N -> bool)
| Seq (r1 r2 : regex)
| Alt (r1 r2 : regex)
| Star (greedy : bool) (r : regex)
| Group (n : nat) (r : regex)
| Bol.

(** Matcher state: the index of the current position, the input that is
    left, and the captures made so far (index 0 is group 1). *)
Record mstate := MState {
  pos : nat;
  rest : jsstring;
  caps : list (option jsstring)
}.

Definition set_cap (n : nat) (v : jsstring) (st : mstate) (st' : mstate) : mstate :=
  MState (pos st') (rest st')
         (<[pred n := Some (take (pos st' - pos st) v)]> (caps st')).

(** The matcher is in continuation-passing style, as in the ECMAScript
    specification: [m r st k] tries the ways [r] can match at [st] in
    priority order and returns the first one the continuation accepts.
    A repetition rejects an iteration that consumes nothing. *)
Fixpoint m (r : regex) (st : mstate) (k : mstate -> option mstate) : option mstate :=
  match r with
  | Eps => k st
  | Chr c =>
      match rest st with
      | d :: s' => if c =? d then k (MState (S (pos st)) s' (caps st)) else None
      | [] => None
      end
  | Class p =>
      match rest st with
      | d :: s' => if p d then k (MState (S (pos st)) s' (caps st)) else None
      | [] => None
      end
  | Seq r1 r2 => m r1 st (fun st1 => m r2 st1 k)
  | Alt r1 r2 =>
      match m r1 st k with
      | Some res => Some res
      | None => m r2 st k
      end
  | Star true r1 =>
      (fix loop (n : nat) (st0 : mstate) : option mstate :=
         match n with
         | O => k st0
         | S n' =>
             match m r1 st0 (fun st1 =>
                     if (pos st0 <? pos st1)%nat then loop n' st1 else None) with
             | Some res => Some res
             | None => k st0
             end
         end) (length (rest st)) st
  | Star false r1 =>
      (fix loop (n : nat) (st0 : mstate) : option mstate :=
         match k st0 with
         | Some res => Some res
         | None =>
             match n with
             | O => None
             | S n' =>
                 m r1 st0 (fun st1 =>
                   if (pos st0 <? pos st1)%nat then loop n' st1 else None)
             end
         end) (length (rest st)) st
  | Group n r1 => m r1 st (fun st1 => k (set_cap n (rest st) st st1))
  | Bol => if (pos st =? 0)%nat then k st else None
  end.

(** Number of capture groups of a pattern. *)
Fixpoint ngroups (r : regex) : nat :=
  match r with
  | Seq r1 r2 | Alt r1 r2 => (ngroups r1 `max` ngroups r2)%nat
  | Star _ r1 => ngroups r1
  | Group n r1 => (n `max` ngroups r1)%nat
  | _ => O
  end.

(** The array a successful [match] or [exec] returns: the index of the
    match, the matched text (element 0) and the groups. *)
Record match_result := MatchResult {
  index : nat;
  whole : jsstring;
  groups : list (option jsstring)
}.

(** Element [n] of the match array, for [n >= 1]; a group that did not
    take part is [undefined], which never happens for the groups the
    sources read (each lies on every path of its pattern). *)
Definition grp (mr : match_result) (n : nat) : jsstring :=
  match groups mr !! pred n with
  | Some (Some s) => s
  | _ => []
  end.

(** Try the pattern at index [i] of [s], where [suffix] is [s] from [i]. *)
Definition match_at (r : regex) (i : nat) (suffix : jsstring) : option match_result :=
  match m r (MState i suffix (replicate (ngroups r) None)) Some with
  | Some st => Some (MatchResult i (take (pos st - i) suffix) (caps st))
  | None => None
  end.

(** Leftmost match at an index [>= i]. *)
Fixpoint exec_from (r : regex) (i : nat) (suffix : jsstring) : option match_result :=
  match match_at r i suffix with
  | Some mr => Some mr
  | None =>
      match suffix with
      | [] => None
      | _ :: s' => exec_from r (S i) s'
      end
  end.

(** [s.match(r)] for a pattern without the [g] flag. *)
Definition str_match (s : jsstring) (r : regex) : option match_result :=
  exec_from r 0 s.

(** [s.replace(r, by)] for a pattern with the [g] flag and a replacement
    without [$]: every match, left to right, without overlap; after an
    empty match the scan moves on by one code unit. *)
Fixpoint replace_from (fuel : nat) (r : regex) (by_ : jsstring) (i : nat)
    (suffix : jsstring) : jsstring :=
  match fuel with
  | O => suffix
  | S fuel' =>
      match exec_from r i suffix with
      | None => suffix
      | Some mr =>
          let before := take (index mr - i) suffix in
          let after := drop (index mr - i + length (whole mr)) suffix in
          match whole mr with
          | [] =>
              match drop (index mr - i) suffix with
              | [] => before ++ by_
              | c :: s' => before ++ by_ ++ c :: replace_from fuel' r by_ (S (index mr)) s'
              end
          | _ :: _ =>
              before ++ by_ ++
              replace_from fuel' r by_ (index mr + length (whole mr)) after
          end
      end
  end.

Definition replaceAll (s : jsstring) (r : regex) (by_ : jsstring) : jsstring :=
  replace_from (S (length s)) r by_ 0 s.

(** Pattern syntax. *)
Definition lit (s : string) : regex :=
  fold_right (fun c r => Seq (Chr c) r) Eps (js s).
Definition chr (s : string) : regex := lit s.
Definition one_of (l : jsstring) : regex := Class (fun c => mem c l).
Definition none_of (l : jsstring) : regex := Class (fun c => negb (mem c l)).
Definition any : regex := Class (fun _ => true).
Definition space : regex := Class is_space.
Definition star (r : regex) : regex := Star true r.
Definition lazy_star (r : regex) : regex := Star false r.
Definition plus (r : regex) : regex := Seq r (Star true r).
Definition at_least3 (r : regex) : regex := Seq r (Seq r (Seq r (Star true r))).
Definition cat (l : list regex) : regex := fold_right Seq Eps l.
Fixpoint alt (l : list regex) : regex :=
  match l with
  | [] => Class (fun _ => false)
  | [r] => r
  | r :: l' => Alt r (alt l')
  end.

End RegExp.
Import RegExp.

(** ** Data model *)

(** An actionable issue, as [parseActionableIssue] builds it and
    [analyzePRs] completes it.  [acceptanceMethod] is [null] ([None]) or a
    string. *)
Record Issue := mkIssue {
  severity : jsstring;
  priority : jsstring;
  title : jsstring;
  description : jsstring;
  url : jsstring;
  timestamp : jsstring;
  accepted : bool;
  acceptanceMethod : option jsstring
}.

(** ** IssueExtractor: [parseActionableIssue] *)

Module Patterns.

(** [/_(⚠️|🧹|💡|🔍)\s*([^_]+)_\s*\|\s*_([🔵🟠🟡🔴🟣])\s*([^_]+)_/]:
    the alternatives of group 1 are sequences of code units, the class of
    group 3 is a set of code units. *)
Definition severityRe : regex :=
  cat [ chr "_";
        Group 1 (alt [lit "⚠️"; lit "🧹"; lit "💡"; lit "🔍"]);
        star space;
        Group 2 (plus (none_of (js "_")));
        chr "_"; star space; chr "|"; star space; chr "_";
        Group 3 (one_of (js "🔵🟠🟡🔴🟣"));
        star space;
        Group 4 (plus (none_of (js "_")));
        chr "_" ].

(** [/<\/details>\s*\n\s*\*\*([^*]+)\*\*/] *)
Definition issueRe : regex :=
  cat [ lit "</details>"; star space; Chr LF; star space; lit "**";
        Group 1 (plus (none_of (js "*"))); lit "**" ].

(** [/^([\s\S]*?)(?:<details>|<!--)/] *)
Definition detailsDescRe : regex :=
  cat [ Bol; Group 1 (lazy_star any); Alt (lit "<details>") (lit "<!--") ].

(** [/\n{3,}/g] *)
Definition blankLinesRe : regex := at_least3 (Chr LF).

(** [/\*\*([^*]+)\*\*/] *)
Definition boldRe : regex :=
  cat [ lit "**"; Group 1 (plus (none_of (js "*"))); lit "**" ].

(** [/^\s*\n\s*([^\n<]+)/] *)
Definition textRe : regex :=
  cat [ Bol; star space; Chr LF; star space;
        Group 1 (plus (none_of (LF :: js "<"))) ].

(** [/^\s*\n\s*([^\n<`]+)/] *)
Definition descRe : regex :=
  cat [ Bol; star space; Chr LF; star space;
        Group 1 (plus (none_of (LF :: js "<`"))) ].

(** [/<[^>]+>/g] and [/[_*`]/g] *)
Definition tagRe : regex := cat [ chr "<"; plus (none_of (js ">")); chr ">" ].
Definition markupRe : regex := one_of (js "_*`").

End Patterns.

(** The title and description of a body whose marker matched, before the
    fallback: the first branch is the bold heading after [</details>], the
    second tries the first bold span and then the line after the marker. *)
Definition extractTitle (body : jsstring) (severityMatch : match_result)
    : jsstring * jsstring :=
  match str_match body Patterns.issueRe with
  | Some issueMatch =>
      let title := trim (grp issueMatch 1) in
      let afterTitle :=
        substring body (indexOf body (whole issueMatch) + strlen (whole issueMatch)) in
      let description :=
        match str_match afterTitle Patterns.detailsDescRe with
        | Some descMatch =>
            replaceAll (trim (grp descMatch 1)) Patterns.blankLinesRe [LF; LF]
        | None => []
        end in
      (title, description)
  | None =>
      let afterSeverity :=
        substring body (indexOf body (whole severityMatch) + strlen (whole severityMatch)) in
      let title :=
        match str_match afterSeverity Patterns.boldRe with
        | Some boldMatch => trim (grp boldMatch 1)
        | None => []
        end in
      let title :=
        match str_match afterSeverity Patterns.textRe with
        | Some textMatch => if truthy title then title else trim (grp textMatch 1)
        | None => title
        end in
      let descStart :=
        if truthy title then (indexOf afterSeverity title + strlen title)%Z else 0%Z in
      let descText := substring afterSeverity descStart in
      let description :=
        match str_match descText Patterns.descRe with
        | Some descMatch => trim (grp descMatch 1)
        | None => []
        end in
      (title, description)
  end.

(** The fallback title: the first non-blank line of the body without tags
    and emphasis characters, cut to 100 code units. *)
Definition fallbackTitle (body : jsstring) : jsstring :=
  let cleanBody :=
    trim (replaceAll (replaceAll body Patterns.tagRe []) Patterns.markupRe []) in
  let lines := filter (fun line => truthy (trim line) = true) (split LF cleanBody) in
  match lines with
  | line0 :: _ =>
      substring0 line0 100 ++ (if (100 <? length line0)%nat then js "..." else [])
  | [] => []
  end.

(** [parseActionableIssue(body)]; a [null], [undefined] or empty body is
    falsy. *)
Definition parseActionableIssue (body : option jsstring) : option Issue :=
  match body with
  | None => None
  | Some body =>
      if negb (truthy body) then None
      else
        match str_match body Patterns.severityRe with
        | None => None
        | Some severityMatch =>
            let severity := trim (grp severityMatch 2) in
            let priority := trim (grp severityMatch 4) in
            let '(title, description) := extractTitle body severityMatch in
            let title := if truthy title then title else fallbackTitle body in
            Some {| severity := severity;
                    priority := priority;
                    title := title;
                    description := description;
                    url := [];
                    timestamp := [];
                    accepted := false;
                    acceptanceMethod := None |}
        end
  end.

(** ** SimilarityClusterer: [calculateSimilarity] *)

Module Similarity.

(** [/[^\w\s]/g] and [/\s+/g] *)
Definition nonWordRe : regex := Class (fun c => negb (is_word c || is_space c)).
Definition spacesRe : regex := plus space.

Definition SP : N := 32.

(** The local [normalize] of [calculateSimilarity]. *)
Definition normalize (str : jsstring) : jsstring :=
  trim (replaceAll (replaceAll (toLowerCase str) nonWordRe [SP]) spacesRe [SP]).

(** [new Set(normalize(title).split(' '))] *)
Definition words (title : jsstring) : gset jsstring :=
  list_to_set (split SP (normalize title)).

(** The two sizes whose quotient is returned. *)
Definition intersection (words1 words2 : gset jsstring) : gset jsstring :=
  filter (fun w => w ∈ words2) words1.

Definition union (words1 words2 : gset jsstring) : gset jsstring :=
  words1 ∪ words2.

(** [intersection.size / union.size].  The quotient of two set sizes is
    kept as a rational: the double JavaScript computes is its rounding,
    which is exact for 0 and 1 and order-preserving against the threshold
    0.6 for every size a title can have. *)
Definition ratio (i u : nat) : Q :=
  (inject_Z (Z.of_nat i) / inject_Z (Z.of_nat u))%Q.

Definition calculateSimilarity (title1 title2 : jsstring) : Q :=
  let words1 := words title1 in
  let words2 := words title2 in
  ratio (size (intersection words1 words2)) (size (union words1 words2)).

End Similarity.
Import Similarity.

(** ** Asynchronous calls and exceptions *)

Module Async.

Inductive error : Type :=
| NetworkError (message : jsstring)
| TypeError.

(** What awaiting a promise gives: a value, an exception, or nothing at
    all when the call never settles. *)
Inductive outcome (A : Type) : Type :=
| Return (a : A)
| Throw (e : error)
| Pending.
Arguments Return {A} a.
Arguments Throw {A} e.
Arguments Pending {A}.

Definition bind {A B} (c : outcome A) (f : A -> outcome B) : outcome B :=
  match c with
  | Return a => f a
  | Throw e => Throw e
  | Pending => Pending
  end.

Notation "'await' x <- c ; k" := (bind c (fun x => k))
  (at level 10, x name, c at level 100, k at level 200).

(** [try { c } catch (error) { h }]: a call that never settles is not
    caught. *)
Definition try_catch {A} (c : outcome A) (h : error -> outcome A) : outcome A :=
  match c with
  | Throw e => h e
  | _ => c
  end.

(** [Promise.all]: rejected as soon as one member is rejected, fulfilled
    when all are. *)
Fixpoint first_throw {A} (l : list (outcome A)) : option error :=
  match l with
  | [] => None
  | Throw e :: _ => Some e
  | _ :: l' => first_throw l'
  end.

Fixpoint all_values {A} (l : list (outcome A)) : outcome (list A) :=
  match l with
  | [] => Return []
  | c :: l' => await a <- c; await v <- all_values l'; Return (a :: v)
  end.

Definition promise_all {A} (l : list (outcome A)) : outcome (list A) :=
  match first_throw l with
  | Some e => Throw e
  | None => all_values l
  end.

(** [Promise.all] of two and of three promises of different types. *)
Definition promise_all2 {A B} (a : outcome A) (b : outcome B) : outcome (A * B) :=
  match a, b with
  | Throw e, _ => Throw e
  | _, Throw e => Throw e
  | Return x, Return y => Return (x, y)
  | _, _ => Pending
  end.

Definition promise_all3 {A B C} (a : outcome A) (b : outcome B) (c : outcome C)
    : outcome (A * B * C) :=
  promise_all2 (promise_all2 a b) c.

End Async.
Import Async.

(** ** Objects used as dictionaries *)

Module Prototype.

(** The properties an object literal inherits from [Object.prototype]. *)
Definition Object_prototype : list jsstring :=
  map js ["constructor"; "__proto__"; "hasOwnProperty"; "isPrototypeOf";
          "propertyIsEnumerable"; "toLocaleString"; "toString"; "valueOf";
          "__defineGetter__"; "__defineSetter__"; "__lookupGetter__";
          "__lookupSetter__"]%string.

Definition inherited (key : jsstring) : bool :=
  existsb (str_eqb key) Object_prototype.

(** The accessor [__proto__]: an assignment of a number or a string to
    it is ignored, and creates no own property. *)
Definition PROTO : jsstring := js "__proto__".

(** A synchronous call returns a value ([inr]) or throws ([inl]). *)
Definition and_then {A B} (r : error + A) (f : A -> error + B) : error + B :=
  match r with
  | inl e => inl e
  | inr a => f a
  end.

(** What a property used as a counter can hold: a number; the value
    inherited from [Object.prototype] under [key] ([ones] is 0) or the
    string made of its text followed by [ones] characters [1]; or NaN. *)
Inductive counter : Type :=
| Num (n : nat)
| Inherited (key : jsstring) (ones : nat)
| NaN.

(** [obj[key]], from the own property when there is one, and from
    [Object.prototype] otherwise; [None] is [undefined]. *)
Definition get (own : option counter) (key : jsstring) : option counter :=
  match own with
  | Some v => Some v
  | None => if inherited key then Some (Inherited key 0) else None
  end.

(** [(v || 0) + 1]: an inherited function or object, and a string that
    ends one, are truthy, and [+] appends [1] to their text. *)
Definition or0_plus1 (v : option counter) : counter :=
  match v with
  | Some (Num n) => Num (S n)
  | Some (Inherited key ones) => Inherited key (S ones)
  | Some NaN | None => Num 1
  end.

(** [v++] on a property: anything but a number gives NaN. *)
Definition plus_plus (v : option counter) : counter :=
  match v with
  | Some (Num n) => Num (S n)
  | _ => NaN
  end.

(** The number a counter is, 0 when it is none. *)
Definition number (c : counter) : nat :=
  match c with
  | Num n => n
  | _ => 0%nat
  end.

Definition is_number (c : counter) : bool :=
  match c with
  | Num _ => true
  | _ => false
  end.

(** [v || 0], as it is written to the page. *)
Definition or0 (v : option counter) : counter :=
  match v with
  | Some (Num n) => Num n
  | Some (Inherited key ones) => Inherited key ones
  | Some NaN | None => Num 0
  end.

End Prototype.
Import Prototype.

(** ** Title groups: [extractTitles] and [groupSimilarTitles] *)

(** A pull request of the analysis result, with its issues. *)
Record PullRequest := mkPR {
  pr_number : Z;
  pr_title : jsstring;
  pr_url : jsstring;
  pr_state : jsstring;
  pr_author : jsstring;
  pr_createdAt : jsstring;
  actionableIssues : list Issue
}.

Record Occurrence := mkOccurrence {
  occ_url : jsstring;
  occ_prNumber : Z;
  occ_prTitle : jsstring;
  occ_priority : jsstring;
  occ_accepted : bool;
  occ_acceptanceMethod : option jsstring
}.

(** An element of [titles]: a title, its count and its occurrences. *)
Record TitleEntry := mkTitleEntry {
  te_title : jsstring;
  te_count : nat;
  te_occurrences : list Occurrence
}.

Record TitleGroup := mkTitleGroup {
  mainTitle : jsstring;
  totalCount : nat;
  items : list TitleEntry;
  allOccurrences : list Occurrence
}.

Module Titles.

(** The object [titleGroups], used as a dictionary from titles to arrays
    of occurrences: its own properties in creation order. *)
Definition Dict := list (jsstring * list Occurrence).

Definition has_own {V} (key : jsstring) (d : list (jsstring * V)) : bool :=
  existsb (fun e => str_eqb (fst e) key) d.

(** [titleGroups[title].push(occ)] on the own property [title], which is
    created with an empty array when there is none. *)
Fixpoint append_to (title : jsstring) (occ : Occurrence) (d : Dict) : Dict :=
  match d with
  | [] => [(title, [occ])]
  | (k, v) :: d' =>
      if str_eqb k title then (k, v ++ [occ]) :: d'
      else (k, v) :: append_to title occ d'
  end.

(** [if (!titleGroups[title]) titleGroups[title] = [];
     titleGroups[title].push(occ)].
    When [title] is not an own property and names an inherited one,
    [titleGroups[title]] reads the inherited value: it is truthy, so no
    array is created, and it has no [push], so the call throws a
    TypeError. *)
Definition push (title : jsstring) (occ : Occurrence) (d : Dict) : error + Dict :=
  if negb (has_own title d) && inherited title then inl TypeError
  else inr (append_to title occ d).

(** A key is an array index when it is the canonical decimal numeral of
    an integer below [2^32 - 1]. *)
Definition is_digit (c : N) : bool := (48 <=? c) && (c <=? 57).

Definition array_index (k : jsstring) : option N :=
  match k with
  | [] => None
  | c :: k' =>
      if forallb is_digit k && negb ((c =? 48) && truthy k') then
        let n := fold_left (fun acc d => 10 * acc + (d - 48)) k 0 in
        if n <? 4294967295 then Some n else None
      else None
  end.

Fixpoint insert_index {V} (n : N) (e : jsstring * V) (l : list (N * (jsstring * V)))
    : list (N * (jsstring * V)) :=
  match l with
  | [] => [(n, e)]
  | (n', e') :: l' =>
      if n <? n' then (n, e) :: l else (n', e') :: insert_index n e l'
  end.

(** [Object.entries]: array-index keys in ascending numeric order, then
    the other keys in creation order. *)
Definition entries (d : Dict) : Dict :=
  let indexed :=
    fold_right (fun e acc =>
      match array_index (fst e) with
      | Some n => insert_index n e acc
      | None => acc
      end) [] d in
  map snd indexed ++
  List.filter (fun e => match array_index (fst e) with Some _ => false | None => true end) d.

(** [l.sort((a, b) => key(b) - key(a))]: descending, and stable. *)
Fixpoint insert_desc {A} (key : A -> nat) (x : A) (l : list A) : list A :=
  match l with
  | [] => [x]
  | y :: l' => if (key y <=? key x)%nat then x :: l else y :: insert_desc key x l'
  end.

Definition sort_desc {A} (key : A -> nat) (l : list A) : list A :=
  fold_right (insert_desc key) [] l.

(** [issue.acceptanceMethod || null]: the empty string is falsy. *)
Definition or_null (s : option jsstring) : option jsstring :=
  match s with
  | Some (c :: s') => Some (c :: s')
  | _ => None
  end.

Definition noTitle : jsstring := js "(No title)".

Definition occurrence_of (pr : PullRequest) (issue : Issue) : Occurrence :=
  {| occ_url := url issue;
     occ_prNumber := pr_number pr;
     occ_prTitle := pr_title pr;
     occ_priority := priority issue;
     occ_accepted := accepted issue || false;
     occ_acceptanceMethod := or_null (acceptanceMethod issue) |}.

(** [issue.title || '(No title)'] *)
Definition title_of (issue : Issue) : jsstring :=
  if truthy (title issue) then title issue else noTitle.

(** The two nested [forEach] loops that fill [titleGroups]; an exception
    ends them. *)
Definition collect (pullRequests : list PullRequest) : error + Dict :=
  fold_left (fun r pr =>
    fold_left (fun r issue =>
      and_then r (push (title_of issue) (occurrence_of pr issue)))
      (actionableIssues pr) r)
    pullRequests (inr []).

Definition values_nonempty (d : Dict) : Prop := Forall (fun e => snd e <> []) d.

Definition SIMILARITY_THRESHOLD : Q := (6 # 10)%Q.

Definition indexed {A} (l : list A) : list (nat * A) := imap pair l.

(** One turn of the inner [for] loop, at index [j]. *)
Definition absorb (title : TitleEntry) (st : TitleGroup * gset nat)
    (jt : nat * TitleEntry) : TitleGroup * gset nat :=
  let '(group, used) := st in
  let '(j, tj) := jt in
  if bool_decide (j ∈ used) then st
  else if Qle_bool SIMILARITY_THRESHOLD (calculateSimilarity (te_title title) (te_title tj))
  then ({| mainTitle := mainTitle group;
           totalCount := totalCount group + te_count tj;
           items := items group ++ [tj];
           allOccurrences := allOccurrences group ++ te_occurrences tj |},
        {[j]} ∪ used)
  else st.

(** One turn of the outer [forEach], at index [i]. *)
Definition open_group (titles : list (nat * TitleEntry))
    (st : list TitleGroup * gset nat) (it : nat * TitleEntry)
    : list TitleGroup * gset nat :=
  let '(groups, used) := st in
  let '(i, title) := it in
  if bool_decide (i ∈ used) then st
  else
    let group :=
      {| mainTitle := te_title title;
         totalCount := te_count title;
         items := [title];
         allOccurrences := te_occurrences title |} in
    let '(group, used) := fold_left (absorb title) (drop (S i) titles) (group, used) in
    (groups ++ [group], {[i]} ∪ used).

Definition groupSimilarTitles (titles : list TitleEntry) : list TitleGroup :=
  let groups := fst (fold_left (open_group (indexed titles)) (indexed titles) ([], ∅)) in
  sort_desc totalCount groups.

(** The statements of [extractTitles] after the loops: from the
    dictionary to the groups. *)
Definition titlesOf (titleGroups : Dict) : list TitleGroup :=
  let titles :=
    sort_desc te_count
      (map (fun e => {| te_title := fst e;
                        te_count := length (snd e);
                        te_occurrences := snd e |})
           (entries titleGroups)) in
  groupSimilarTitles titles.

Definition extractTitles (pullRequests : list PullRequest)
    : error + list TitleGroup :=
  and_then (collect pullRequests) (fun titleGroups => inr (titlesOf titleGroups)).

End Titles.
Import Titles.

(** ** FilterEngine: [applyCombinedFilters] *)

Module Filter.

Definition ALL : jsstring := js "all".
Definition ACCEPTED : jsstring := js "accepted".
Definition NOT_ACCEPTED : jsstring := js "not-accepted".

(** The predicate of the inner [filter]. *)
Definition matchesFilters (selectedPriorities : gset jsstring)
    (selectedAcceptanceStatus : jsstring) (occurrence : Occurrence) : bool :=
  let matchesPriority :=
    bool_decide (ALL ∈ selectedPriorities)
    || bool_decide (occ_priority occurrence ∈ selectedPriorities) in
  let matchesAcceptance :=
    if str_eqb selectedAcceptanceStatus ACCEPTED then occ_accepted occurrence
    else if str_eqb selectedAcceptanceStatus NOT_ACCEPTED
         then negb (occ_accepted occurrence)
         else true in
  matchesPriority && matchesAcceptance.

(** The function mapped over the groups: [null] when nothing is left. *)
Definition filterGroup (selectedPriorities : gset jsstring)
    (selectedAcceptanceStatus : jsstring) (group : TitleGroup) : option TitleGroup :=
  let filteredOccurrences :=
    List.filter (matchesFilters selectedPriorities selectedAcceptanceStatus)
                (allOccurrences group) in
  if (length filteredOccurrences =? 0)%nat then None
  else Some {| mainTitle := mainTitle group;
               totalCount := length filteredOccurrences;
               items := items group;
               allOccurrences := filteredOccurrences |}.

(** The [map] and the [filter] of [applyCombinedFilters], on the groups
    [titles] of [extractTitles]: the list [filteredTitles]. *)
Definition filterTitles (selectedPriorities : gset jsstring)
    (selectedAcceptanceStatus : jsstring) (titles : list TitleGroup)
    : list TitleGroup :=
  omap (filterGroup selectedPriorities selectedAcceptanceStatus) titles.

(** What [groupSimilarTitles] guarantees of a group, and what it needs of
    an element of [titles]. *)
Definition group_ok (g : TitleGroup) : Prop :=
  totalCount g = length (allOccurrences g) /\ allOccurrences g <> [].

Definition entry_ok (t : TitleEntry) : Prop :=
  te_count t = length (te_occurrences t) /\ te_occurrences t <> [].

End Filter.
Import Filter.

(** ** ManualOverrideStore *)

Module Manual.

(** A value of the stored map [manualAcceptance]. *)
Record Override := mkOverride {
  ov_accepted : bool;
  ov_acceptanceMethod : jsstring;
  ov_timestamp : jsstring
}.

#[global] Instance Override_eq_dec : EqDecision Override.
Proof. solve_decision. Defined.

Definition MANUAL : jsstring := js "manual".

(** The first half of [toggleManualAcceptance]: the map that is saved.
    [now] is the value of [new Date().toISOString()]. *)
Definition toggleState (url now : jsstring) (state : gmap jsstring Override)
    : gmap jsstring Override :=
  match state !! url with
  | Some _ => delete url state
  | None =>
      <[url := {| ov_accepted := true;
                  ov_acceptanceMethod := MANUAL;
                  ov_timestamp := now |}]> state
  end.

Definition set_acceptance (a : bool) (method : option jsstring) (issue : Issue) : Issue :=
  {| severity := severity issue;
     priority := priority issue;
     title := title issue;
     description := description issue;
     url := url issue;
     timestamp := timestamp issue;
     accepted := a;
     acceptanceMethod := method |}.

(** The second half: the update of the issues of [currentData], done on
    the map after the toggle. *)
Definition updateIssue (url0 : jsstring) (state : gmap jsstring Override)
    (issue : Issue) : Issue :=
  if str_eqb (url issue) url0 then
    match state !! url0 with
    | Some _ => set_acceptance true (Some MANUAL) issue
    | None => set_acceptance false None issue
    end
  else issue.

Definition map_issues (f : Issue -> Issue) (pr : PullRequest) : PullRequest :=
  {| pr_number := pr_number pr;
     pr_title := pr_title pr;
     pr_url := pr_url pr;
     pr_state := pr_state pr;
     pr_author := pr_author pr;
     pr_createdAt := pr_createdAt pr;
     actionableIssues := map f (actionableIssues pr) |}.

(** [toggleManualAcceptance(url, currentData)]: the stored map and the
    data are passed in and returned. *)
Definition toggleManualAcceptance (url0 now : jsstring)
    (st : gmap jsstring Override * list PullRequest)
    : gmap jsstring Override * list PullRequest :=
  let state := toggleState url0 now (fst st) in
  (state, map (map_issues (updateIssue url0 state)) (snd st)).





End Manual.
Import Manual.

(** ** RateLimitedFetcher: [fetchAllPages] *)

Module Fetcher.

(** The body [fetchWithRetry] returns: a bare array, a search envelope
    with [items] and possibly [total_count], or anything else. *)
Inductive response (A : Type) : Type :=
| Items (data : list A)
| Envelope (items : list A) (total_count : option Z)
| Other.
Arguments Items {A} data.
Arguments Envelope {A} items total_count.
Arguments Other {A}.

Definition per_page : Z := 100.

(** [Math.ceil(Math.min(total_count, 1000) / per_page)], on integers. *)
Definition maxPagesOf (total_count : Z) : Z :=
  ((Z.min total_count 1000 + (per_page - 1)) / per_page)%Z.

(** The [while (hasMore)] loop.  [fetchWithRetry page] is the outcome of
    the request for page [page] of the base URL.  The loop returns
    [results] together with the pages it has requested, in order; it is
    [Pending] when [fuel] turns are not enough.  No caller passes a
    progress callback. *)
Fixpoint fetchLoop {A} (fuel : nat) (fetchWithRetry : Z -> outcome (response A))
    (page : Z) (results : list A) (requested : list Z) : outcome (list A * list Z) :=
  match fuel with
  | O => Pending
  | S fuel' =>
      await data <- fetchWithRetry page;
      let requested := requested ++ [page] in
      let '(items, maxPages) :=
        match data with
        | Items d => (d, None)
        | Envelope its (Some total_count) => (its, Some (maxPagesOf total_count))
        | Envelope its None => (its, None)
        | Other => ([], None)
        end in
      if (0 <? length items)%nat then
        let results := results ++ items in
        let page := (page + 1)%Z in
        let hasMore :=
          match maxPages with
          | Some maxPages => (page <=? maxPages)%Z
          | None => (Z.of_nat (length items) =? per_page)%Z
          end in
        if hasMore then fetchLoop fuel' fetchWithRetry page results requested
        else Return (results, requested)
      else Return (results, requested)
  end.

Definition fetchAllPagesTrace {A} (fuel : nat) (fetchWithRetry : Z -> outcome (response A))
    : outcome (list A * list Z) :=
  fetchLoop fuel fetchWithRetry 1%Z [] [].

Definition fetchAllPages {A} (fuel : nat) (fetchWithRetry : Z -> outcome (response A))
    : outcome (list A) :=
  await r <- fetchAllPagesTrace fuel fetchWithRetry; Return (fst r).

(** A server that answers every page from 1 to [last] with a search
    envelope reporting [total_count] and holding at least one item. *)
Definition serves_search {A} (fetchWithRetry : Z -> outcome (response A))
    (total_count last : Z) : Prop :=
  forall p : Z, (1 <= p <= last)%Z ->
    exists its : list A,
      its <> [] /\ fetchWithRetry p = Return (Envelope its (Some total_count)).

(** A server whose every answer is a search envelope with a total. *)
Definition always_envelope {A} (fetchWithRetry : Z -> outcome (response A)) : Prop :=
  forall p : Z, exists (its : list A) (total_count : Z),
    fetchWithRetry p = Return (Envelope its (Some total_count)).

End Fetcher.
Import Fetcher.

(** ** CommentCollector, ThreadResolver and BatchOrchestrator *)

Module Orchestrator.

Definition CODERABBIT_USERNAME : jsstring := js "coderabbitai[bot]".

(** A comment or review as the REST API returns it.  [user] is [null]
    ([None]) or an object with a [login]; [body] may be [null]. *)
Record Comment := mkComment {
  c_user : option jsstring;
  c_body : option jsstring;
  c_html_url : jsstring;
  c_created_at : jsstring;
  c_id : Z
}.

(** An item of the search result. *)
Record SearchItem := mkSearchItem {
  si_number : Z;
  si_title : jsstring;
  si_state : jsstring;
  si_created_at : jsstring;
  si_closed_at : jsstring;
  si_html_url : jsstring;
  si_user : option jsstring
}.

Record ThreadComment := mkThreadComment {
  tc_url : jsstring;
  tc_databaseId : option Z
}.

Record Thread := mkThread {
  isResolved : bool;
  thread_comments : list ThreadComment
}.

(** What the GraphQL request comes to. *)
Inductive GraphQLReply : Type :=
| FetchFailed
| NotOk (status : Z)
| WithErrors
| Data (nodes : option (list Thread)).

(** The outside world: the outcome of [fetchWithRetry] for each page of
    each endpoint, and of the GraphQL request for each pull request. *)
Record Network := mkNetwork {
  searchIssues : Z -> outcome (response SearchItem);
  pullReviews : Z -> Z -> outcome (response Comment);
  pullComments : Z -> Z -> outcome (response Comment);
  issueComments : Z -> Z -> outcome (response Comment);
  graphql : Z -> GraphQLReply
}.

(** An object given to the progress callback. *)
Inductive Status : Type :=
| Fetching
| Found (n : nat)
| Analyzing (first last n : nat)
| Processing.

Record Progress := mkProgress {
  status : Status;
  current : option nat;
  total : option nat
}.

Record Summary := mkSummary {
  totalPRs : nat;
  totalPRsWithActionableIssues : nat;
  totalActionableIssues : nat;
  avgIssuesPerPR : Q
}.

Record Analysis := mkAnalysis {
  repository : jsstring * jsstring;
  dateRange : jsstring * jsstring;
  summary : Summary;
  pullRequests : list PullRequest
}.

(** The instance: owner, repository and the two dates (as the day
    strings [toISOString().split('T')[0]] gives). *)
Record GitHubAPI := mkGitHubAPI {
  owner : jsstring;
  repo : jsstring;
  startDate : jsstring;
  endDate : jsstring
}.

Section WithNetwork.

Variable fuel : nat.
Variable net : Network.

(** [x.user.login === CODERABBIT_USERNAME]: reading [login] of [null]
    throws. *)
Definition byCodeRabbit (c : Comment) : outcome bool :=
  match c_user c with
  | Some login => Return (str_eqb login CODERABBIT_USERNAME)
  | None => Throw TypeError
  end.

(** [Array.prototype.filter] with a predicate that may throw. *)
Fixpoint filterM {A} (p : A -> outcome bool) (l : list A) : outcome (list A) :=
  match l with
  | [] => Return []
  | x :: l' =>
      await b <- p x;
      await r <- filterM p l';
      Return (if b then x :: r else r)
  end.

Definition hasBody (c : Comment) : bool :=
  match c_body c with
  | Some b => truthy b
  | None => false
  end.

(** The [try] block of [fetchPRComments]. *)
Definition fetchPRComments_body (prNumber : Z) : outcome (list Comment) :=
  await fetched <- promise_all3
    (fetchAllPages fuel (pullReviews net prNumber))
    (fetchAllPages fuel (pullComments net prNumber))
    (fetchAllPages fuel (issueComments net prNumber));
  let '(reviews, reviewComments, issueComments) := fetched in
  await r1 <- filterM (fun r => await b <- byCodeRabbit r; Return (b && hasBody r)) reviews;
  await r2 <- filterM byCodeRabbit reviewComments;
  await r3 <- filterM byCodeRabbit issueComments;
  Return (r1 ++ r2 ++ r3).

Definition fetchPRComments (prNumber : Z) : outcome (list Comment) :=
  try_catch (fetchPRComments_body prNumber) (fun _ => Return []).

(** [fetchGraphQLThreads]: every failure gives the empty list. *)
Definition fetchGraphQLThreads (prNumber : Z) : outcome (list Thread) :=
  match graphql net prNumber with
  | Data (Some nodes) => Return nodes
  | _ => Return []
  end.

Definition threadHas (comment : Comment) (thread : Thread) : bool :=
  existsb (fun threadComment =>
             str_eqb (tc_url threadComment) (c_html_url comment)
             || bool_decide (tc_databaseId threadComment = Some (c_id comment)))
          (thread_comments thread).

(** The body of the loop over the comments of one pull request. *)
Definition issueOfComment (threads : list Thread) (comment : Comment) : option Issue :=
  match parseActionableIssue (c_body comment) with
  | None => None
  | Some issue =>
      let matchingThread := List.find (threadHas comment) threads in
      let resolved :=
        match matchingThread with
        | Some thread => isResolved thread
        | None => false
        end in
      Some {| severity := severity issue;
              priority := priority issue;
              title := title issue;
              description := description issue;
              url := c_html_url comment;
              timestamp := c_created_at comment;
              accepted := if resolved then true else accepted issue;
              acceptanceMethod :=
                if resolved then Some (js "graphql") else acceptanceMethod issue |}
  end.

(** The [try] block of the function mapped over a batch. *)
Definition processPR_body (pr : SearchItem) : outcome (option PullRequest) :=
  await both <- promise_all2 (fetchPRComments (si_number pr))
                             (fetchGraphQLThreads (si_number pr));
  let '(comments, threads) := both in
  if (length comments =? 0)%nat then Return None
  else
    let actionableIssues := omap (issueOfComment threads) comments in
    if (0 <? length actionableIssues)%nat then
      match si_user pr with
      | Some login =>
          Return (Some {| pr_number := si_number pr;
                          pr_title := si_title pr;
                          pr_url := si_html_url pr;
                          pr_state := si_state pr;
                          pr_author := login;
                          pr_createdAt := si_created_at pr;
                          actionableIssues := actionableIssues |})
      | None => Throw TypeError
      end
    else Return None.

Definition processPR (pr : SearchItem) : outcome (option PullRequest) :=
  try_catch (processPR_body pr) (fun _ => Return None).

(** Every per-PR promise of the list settles. *)
Definition settles (prs : list SearchItem) : Prop :=
  forall pr, pr ∈ prs -> processPR pr <> Pending.

Definition BATCH_SIZE : nat := 20.

(** The variables of the batch loop; [batches] records the successive
    values of [batch]. *)
Record LoopState := mkLoopState {
  prsWithIssues : list PullRequest;
  totalIssues : nat;
  processedCount : nat;
  batches : list (list SearchItem)
}.

(** [batchResults.forEach(...)] *)
Definition collectResults (batchResults : list (option PullRequest)) (st : LoopState)
    (batch : list SearchItem) : LoopState :=
  let found := omap id batchResults in
  {| prsWithIssues := prsWithIssues st ++ found;
     totalIssues :=
       fold_left (fun n r => n + length (actionableIssues r))%nat found (totalIssues st);
     processedCount := (processedCount st + length batch)%nat;
     batches := batches st ++ [batch] |}.

(** [for (let i = 0; i < filteredPRs.length; i += BATCH_SIZE)]: the
    progress objects reported, and the outcome.  [turns] bounds the
    number of turns; [length filteredPRs] is enough. *)
Fixpoint batchLoop (turns : nat) (filteredPRs : list SearchItem) (i : nat)
    (st : LoopState) : list Progress * outcome LoopState :=
  if (i <? length filteredPRs)%nat then
    match turns with
    | O => ([], Pending)
    | S turns' =>
        let batch := take BATCH_SIZE (drop i filteredPRs) in
        let report :=
          {| status := Analyzing (i + 1) ((i + BATCH_SIZE) `min` length filteredPRs)
                                 (length filteredPRs);
             current := Some (i + length batch)%nat;
             total := Some (length filteredPRs) |} in
        match promise_all (map processPR batch) with
        | Return batchResults =>
            let '(reports, r) :=
              batchLoop turns' filteredPRs (i + BATCH_SIZE)
                        (collectResults batchResults st batch) in
            (report :: reports, r)
        | Throw e => ([report], Throw e)
        | Pending => ([report], Pending)
        end
    end
  else ([], Return st).

Definition initialState : LoopState :=
  {| prsWithIssues := []; totalIssues := 0; processedCount := 0; batches := [] |}.

Definition ratio_or_zero (issues prs : nat) : Q :=
  if (0 <? prs)%nat then ratio issues prs else 0%Q.

(** [analyzePRs(progressCallback)]: the calls of the callback, in order,
    and the outcome.  The average is kept as a rational, before
    [toFixed(1)]. *)
Definition analyzePRs (api : GitHubAPI) : list Progress * outcome Analysis :=
  let fetching := {| status := Fetching; current := None; total := None |} in
  match fetchAllPages fuel (searchIssues net) with
  | Throw e => ([fetching], Throw e)
  | Pending => ([fetching], Pending)
  | Return filteredPRs =>
      let found :=
        {| status := Found (length filteredPRs);
           current := None;
           total := Some (length filteredPRs) |} in
      let '(reports, r) :=
        batchLoop (length filteredPRs) filteredPRs 0 initialState in
      match r with
      | Return st =>
          (fetching :: found :: reports ++
             [{| status := Processing; current := None; total := None |}],
           Return
             {| repository := (owner api, repo api);
                dateRange := (startDate api, endDate api);
                summary :=
                  {| totalPRs := length filteredPRs;
                     totalPRsWithActionableIssues := length (prsWithIssues st);
                     totalActionableIssues := totalIssues st;
                     avgIssuesPerPR :=
                       ratio_or_zero (totalIssues st) (length (prsWithIssues st)) |};
                pullRequests := prsWithIssues st |})
      | Throw e => (fetching :: found :: reports, Throw e)
      | Pending => (fetching :: found :: reports, Pending)
      end
  end.

End WithNetwork.

(** The value a settled per-PR promise contributes: [null] unless it is
    fulfilled with a pull request. *)
Definition settled (o : outcome (option PullRequest)) : option PullRequest :=
  match o with
  | Return r => r
  | _ => None
  end.

(** The [current] fields of a sequence of progress objects, in order. *)
Definition currents (log : list Progress) : list nat := omap current log.

(** The successive slices [slice(i, i + BATCH_SIZE)] of a list, at most
    [turns] of them. *)
Fixpoint chunks {A} (turns : nat) (l : list A) : list (list A) :=
  match turns with
  | O => []
  | S turns' =>
      match l with
      | [] => []
      | _ :: _ => take BATCH_SIZE l :: chunks turns' (drop BATCH_SIZE l)
      end
  end.

(** The sizes of the slices of a list of [n] elements. *)
Fixpoint sizes (turns n : nat) : list nat :=
  match turns with
  | O => []
  | S turns' =>
      if (n =? 0)%nat then []
      else (BATCH_SIZE `min` n)%nat :: sizes turns' (n - BATCH_SIZE)
  end.

(** The progress objects of the batches of the given sizes, from index
    [i] on, out of [n] pull requests. *)
Fixpoint reports_of (i n : nat) (batch_sizes : list nat) : list Progress :=
  match batch_sizes with
  | [] => []
  | b :: bs =>
      {| status := Analyzing (i + 1) ((i + BATCH_SIZE) `min` n) n;
         current := Some (i + b)%nat;
         total := Some n |} :: reports_of (i + BATCH_SIZE) n bs
  end.

End Orchestrator.
Import Orchestrator.

(** ** Inputs of the examples *)

Module Inputs.

(** The body of the parsing example. *)
Definition body1 : jsstring :=
  js "_⚠️ Potential issue_ | _🟠 Major_" ++ [LF; LF] ++
  js "**Avoid using var**" ++ [LF] ++ js "Use let or const instead.".

(** A body with the marker and the acceptance phrase. *)
Definition body2 : jsstring :=
  js "_⚠️ Potential issue_ | _🟠 Major_" ++ [LF; LF] ++
  js "**Avoid using var**" ++ [LF; LF] ++
  js "✅ Addressed in commit 1a2b3c4; addressed in commit 1a2b3c4".

(** An issue that the thread query marked as resolved, in one pull
    request. *)
Definition url1 : jsstring := js "https://github.com/o/r/pull/7#discussion_r1".

Definition resolvedIssue : Issue :=
  {| severity := js "Potential issue";
     priority := js "Major";
     title := js "Avoid using var";
     description := [];
     url := url1;
     timestamp := js "2025-01-01T00:00:00Z";
     accepted := true;
     acceptanceMethod := Some (js "graphql") |}.

Definition data1 : list PullRequest :=
  [ {| pr_number := 7;
       pr_title := js "Add parser";
       pr_url := js "https://github.com/o/r/pull/7";
       pr_state := js "closed";
       pr_author := js "dev";
       pr_createdAt := js "2025-01-01T00:00:00Z";
       actionableIssues := [resolvedIssue] |} ].

Definition now1 : jsstring := js "2025-02-01T10:00:00.000Z".
Definition now2 : jsstring := js "2025-02-01T10:00:05.000Z".

Definition api1 : GitHubAPI :=
  {| owner := js "o"; repo := js "r";
     startDate := js "2025-01-01"; endDate := js "2025-02-01" |}.

Definition item (n : Z) : SearchItem :=
  {| si_number := n;
     si_title := js "Add parser";
     si_state := js "closed";
     si_created_at := js "2025-01-01T00:00:00Z";
     si_closed_at := js "2025-01-02T00:00:00Z";
     si_html_url := js "https://github.com/o/r/pull/7";
     si_user := Some (js "dev") |}.

Definition comment1 : Comment :=
  {| c_user := Some CODERABBIT_USERNAME;
     c_body := Some body1;
     c_html_url := url1;
     c_created_at := js "2025-01-01T00:00:00Z";
     c_id := 1 |}.

(** Two pull requests are found; the reviews of number 7 cannot be
    fetched, number 8 has one comment of the bot. *)
Definition net1 : Network :=
  {| searchIssues := fun _ => Return (Envelope [item 7; item 8] (Some 2%Z));
     pullReviews := fun n _ =>
       if (n =? 7)%Z then Throw (NetworkError (js "GitHub API error: 502"))
       else Return (Items []);
     pullComments := fun n _ =>
       if (n =? 8)%Z then Return (Items [comment1]) else Return (Items []);
     issueComments := fun _ _ => Return (Items []);
     graphql := fun _ => Data None |}.

(** Forty-five pull requests are found, none with comments. *)
Definition net45 : Network :=
  {| searchIssues := fun _ =>
       Return (Envelope (map (fun i => item (Z.of_nat i)) (seq 1 45)) (Some 45%Z));
     pullReviews := fun _ _ => Return (Items []);
     pullComments := fun _ _ => Return (Items []);
     issueComments := fun _ _ => Return (Items []);
     graphql := fun _ => Data None |}.

End Inputs.
Import Inputs.

(** ** RateLimitedFetcher: [fetchWithRetry] *)

Module Retry.

(** What the code reads of a response: the status, the two rate-limit
    headers ([null] when absent) and the value [response.json()] gives
    ([None] when it rejects). *)
Record HttpResponse (A : Type) := mkHttpResponse {
  http_status : Z;
  rl_remaining : option jsstring;
  rl_reset : option jsstring;
  http_json : option A
}.
Arguments mkHttpResponse {A} _ _ _ _.
Arguments http_status {A} _.
Arguments rl_remaining {A} _.
Arguments rl_reset {A} _.
Arguments http_json {A} _.

(** One call of [fetch]: it rejects, or it gives a response. *)
Inductive attempt (A : Type) : Type :=
| Rejects
| Responds (r : HttpResponse A).
Arguments Rejects {A}.
Arguments Responds {A} r.

(** The errors thrown inside the [try] block.  The text of the
    rate-limit message depends on the clock; the error keeps the reset
    header and whether a token was sent. *)
Inductive failure : Type :=
| RateLimitExceeded (reset : jsstring) (authenticated : bool)
| Forbidden
| NotAuthenticated
| RepositoryNotFound
| HttpError (status : Z)
| FetchRejected
| JsonRejected.

(** [response.ok] *)
Definition http_ok {A} (r : HttpResponse A) : bool :=
  ((200 <=? http_status r) && (http_status r <=? 299))%Z.

(** The body of the [try] block, once [fetch] has settled. *)
Definition tryOnce {A} (authenticated : bool) (a : attempt A) : failure + A :=
  match a with
  | Rejects => inl FetchRejected
  | Responds r =>
      if (http_status r =? 403)%Z then
        match rl_remaining r, rl_reset r with
        | Some remaining, Some reset =>
            if str_eqb remaining (js "0") && truthy reset
            then inl (RateLimitExceeded reset authenticated)
            else inl Forbidden
        | _, _ => inl Forbidden
        end
      else if (http_status r =? 401)%Z then inl NotAuthenticated
      else if (http_status r =? 404)%Z then inl RepositoryNotFound
      else if negb (http_ok r) then inl (HttpError (http_status r))
      else match http_json r with
           | Some body => inr body
           | None => inl JsonRejected
           end
  end.

(** What a call comes to: a body, an exception, or [undefined] when the
    loop body never runs ([retries = 0]). *)
Inductive fetched (A : Type) : Type :=
| Body (a : A)
| Fails (e : failure)
| Undefined.
Arguments Body {A} a.
Arguments Fails {A} e.
Arguments Undefined {A}.

(** The state a call leaves: the number of [fetch] calls made, the
    pauses taken in milliseconds, and [this.rateLimitRemaining]. *)
Record RetryTrace := mkRetryTrace {
  requests : nat;
  pauses : list Z;
  rateLimitRemaining : option jsstring
}.

(** [for (let i = 0; i < retries; i++)], with [left = retries - i].
    [attempts i] is what the [fetch] of turn [i] does. *)
Fixpoint retryLoop {A} (authenticated : bool) (attempts : nat -> attempt A)
    (left : nat) (i : nat) (tr : RetryTrace) : fetched A * RetryTrace :=
  match left with
  | O => (Undefined, tr)
  | S left' =>
      let a := attempts i in
      let remaining :=
        match a with
        | Responds r => rl_remaining r
        | Rejects => rateLimitRemaining tr
        end in
      let tr1 := {| requests := S (requests tr);
                    pauses := pauses tr;
                    rateLimitRemaining := remaining |} in
      match tryOnce authenticated a with
      | inr body => (Body body, tr1)
      | inl e =>
          match left' with
          | O => (Fails e, tr1)
          | S _ =>
              retryLoop authenticated attempts left' (S i)
                {| requests := requests tr1;
                   pauses := pauses tr1 ++ [1000 * (Z.of_nat i + 1)]%Z;
                   rateLimitRemaining := rateLimitRemaining tr1 |}
          end
      end
  end.

(** [fetchWithRetry(url, retries = 3)], from an instance whose
    [rateLimitRemaining] is [remaining0]. *)
Definition fetchWithRetry {A} (authenticated : bool) (attempts : nat -> attempt A)
    (retries : nat) (remaining0 : option jsstring) : fetched A * RetryTrace :=
  retryLoop authenticated attempts retries 0
    {| requests := 0; pauses := []; rateLimitRemaining := remaining0 |}.

Definition DEFAULT_RETRIES : nat := 3.

(** The turns before [k] all end in an exception. *)
Definition fail_before {A} (authenticated : bool) (attempts : nat -> attempt A)
    (k : nat) : Prop :=
  forall i, (i < k)%nat -> exists e, tryOnce authenticated (attempts i) = inl e.

(** The pauses taken before turn [k]: 1000 ms, 2000 ms, ... *)
Definition pauses_before (k : nat) : list Z :=
  map (fun i => (1000 * (Z.of_nat i + 1))%Z) (seq 0 k).

(** The trace after a failed turn that is not the last. *)
Definition after_failure {A} (attempts : nat -> attempt A) (i : nat) (tr : RetryTrace)
    : RetryTrace :=
  {| requests := S (requests tr);
     pauses := pauses tr ++ [1000 * (Z.of_nat i + 1)]%Z;
     rateLimitRemaining :=
       match attempts i with
       | Responds r => rl_remaining r
       | Rejects => rateLimitRemaining tr
       end |}.

End Retry.
Import Retry.

(** ** The click handlers of the priority and acceptance buttons *)

Module Clicks.

(** The handler that [initializePriorityFilter(data, selectedPriorities,
    onFilterChange)] puts on a button with [data-priority = priority]:
    the new content of the set [selectedPriorities]. *)
Definition priorityClick (priority : jsstring) (selectedPriorities : gset jsstring)
    : gset jsstring :=
  if str_eqb priority Filter.ALL then {[ Filter.ALL ]}
  else
    let s1 : gset jsstring :=
      if bool_decide (Filter.ALL ∈ selectedPriorities) then ∅ else selectedPriorities in
    let s2 : gset jsstring :=
      if bool_decide (priority ∈ s1) then s1 ∖ {[ priority ]} else s1 ∪ {[ priority ]} in
    if (size s2 =? 0)%nat then {[ Filter.ALL ]} else s2.

(** The calls the handlers of the combined filter make to their
    callbacks. *)
Inductive callback : Type :=
| AcceptanceChange (status : jsstring)
| PriorityChange.

(** The state the handlers of the combined filter read and write: the
    set [selectedPriorities] and the [data-acceptance] values of the
    acceptance buttons that carry the class [active]. *)
Record FilterUI := mkFilterUI {
  ui_priorities : gset jsstring;
  ui_active : gset jsstring
}.

(** The priority handler of the combined filter (with
    [onAcceptanceChange] and [onPriorityChange] given). *)
Definition combinedPriorityClick (priority : jsstring) (ui : FilterUI)
    : FilterUI * list callback :=
  if str_eqb priority Filter.ALL then
    ({| ui_priorities := {[ Filter.ALL ]}; ui_active := ∅ |},
     [AcceptanceChange Filter.ALL; PriorityChange])
  else
    let s1 : gset jsstring :=
      if bool_decide (Filter.ALL ∈ ui_priorities ui) then ∅ else ui_priorities ui in
    let s2 : gset jsstring :=
      if bool_decide (priority ∈ s1) then s1 ∖ {[ priority ]} else s1 ∪ {[ priority ]} in
    if (size s2 =? 0)%nat then
      ({| ui_priorities := {[ Filter.ALL ]}; ui_active := ∅ |},
       [AcceptanceChange Filter.ALL; PriorityChange])
    else
      ({| ui_priorities := s2; ui_active := ui_active ui |}, [PriorityChange]).

(** The acceptance handler of the combined filter, on the button with
    [data-acceptance = status], when the "All" button exists. *)
Definition combinedAcceptanceClick (status : jsstring) (ui : FilterUI)
    : FilterUI * list callback :=
  if bool_decide (status ∈ ui_active ui) then
    ({| ui_priorities := {[ Filter.ALL ]}; ui_active := ui_active ui ∖ {[ status ]} |},
     [AcceptanceChange Filter.ALL; PriorityChange])
  else
    ({| ui_priorities := ui_priorities ui; ui_active := {[ status ]} |},
     [AcceptanceChange status]).

(** The value of the caller's acceptance status after a sequence of
    callbacks, when [onAcceptanceChange] stores its argument. *)
Definition statusAfter (status : jsstring) (calls : list callback) : jsstring :=
  fold_left (fun s c => match c with AcceptanceChange s' => s' | PriorityChange => s end)
            calls status.

(** The selection is well formed: not empty, and "all" excludes the
    others. *)
Definition selection_ok (s : gset jsstring) : Prop :=
  s <> ∅ /\ (Filter.ALL ∈ s -> s = {[ Filter.ALL ]}).

End Clicks.
Import Clicks.

(** ** Counts and distributions *)

Module Counts.

(** [Object.entries] of an object used as a dictionary, for any type of
    values. *)
Definition entries_of {V} (d : list (jsstring * V)) : list (jsstring * V) :=
  let indexed :=
    fold_right (fun e acc =>
      match array_index (fst e) with
      | Some n => insert_index n e acc
      | None => acc
      end) [] d in
  map snd indexed ++
  List.filter (fun e => match array_index (fst e) with Some _ => false | None => true end) d.

(** The own property [key] of an object, and the assignment
    [obj[key] = v] of a number or a string: a new property comes last,
    and an assignment to [__proto__] is ignored. *)
Fixpoint own_value {V} (key : jsstring) (d : list (jsstring * V)) : option V :=
  match d with
  | [] => None
  | (k, v) :: d' => if str_eqb k key then Some v else own_value key d'
  end.

Fixpoint put {V} (key : jsstring) (v : V) (d : list (jsstring * V))
    : list (jsstring * V) :=
  match d with
  | [] => [(key, v)]
  | (k, v0) :: d' =>
      if str_eqb k key then (k, v) :: d' else (k, v0) :: put key v d'
  end.

Definition assign {V} (key : jsstring) (v : V) (d : list (jsstring * V))
    : list (jsstring * V) :=
  if str_eqb key PROTO then d else put key v d.

(** [distribution[value] = (distribution[value] || 0) + 1] *)
Definition bump (value : jsstring) (d : list (jsstring * counter))
    : list (jsstring * counter) :=
  assign value (or0_plus1 (get (own_value value d) value)) d.

(** The percentage is kept as a rational, before [toFixed(1)]; [None] is
    NaN. *)
Record DistributionItem := mkDistributionItem {
  label : jsstring;
  count : counter;
  percentage : option Q
}.

(** The two nested loops of [calculateDistribution]: the dictionary and
    [total].  [field] reads [issue[field]]. *)
Definition tally (field : Issue -> jsstring) (pullRequests : list PullRequest)
    : list (jsstring * counter) * nat :=
  fold_left (fun acc pr =>
    fold_left (fun acc issue =>
      let value := field issue in
      if truthy value then (bump value (fst acc), S (snd acc)) else acc)
      (actionableIssues pr) acc)
    pullRequests ([], 0%nat).

(** [total > 0 ? ((count / total) * 100).toFixed(1) : 0]: the quotient
    of a count that is not a number is NaN. *)
Definition percent (c : counter) (total : nat) : option Q :=
  if (0 <? total)%nat then
    match c with
    | Num n => Some (ratio n total * 100)%Q
    | _ => None
    end
  else Some 0%Q.

(** The number a count is, 0 when it is none. *)
Definition numberOf (item : DistributionItem) : nat := number (count item).

(** The result of [sort]: the elements in the order the comparator
    gives, or in an order that the language leaves to the engine. *)
Inductive arranged (A : Type) : Type :=
| InOrder (l : list A)
| AnyOrder (l : list A).
Arguments InOrder {A} l.
Arguments AnyOrder {A} l.

(** [items.sort((a, b) => b.count - a.count)].  Between numbers the
    order is descending, and stable.  With a count that is not a number
    the difference is NaN, which [sort] reads as 0: that element compares
    equal to all the others, the comparator is no longer consistent, and
    the result is some permutation of the elements. *)
Definition sort_by_count (items : list DistributionItem) : arranged DistributionItem :=
  if forallb (fun item => is_number (count item)) items
  then InOrder (sort_desc numberOf items)
  else AnyOrder items.

(** [calculateDistribution(data, field)] *)
Definition calculateDistribution (field : Issue -> jsstring)
    (pullRequests : list PullRequest) : arranged DistributionItem :=
  let '(distribution, total) := tally field pullRequests in
  sort_by_count
    (map (fun e => {| label := fst e;
                      count := snd e;
                      percentage := percent (snd e) total |})
         (entries_of distribution)).

(** All the issues of the data, in the order of the loops. *)
Definition allIssues (pullRequests : list PullRequest) : list Issue :=
  pullRequests ≫= actionableIssues.

(** The counters [updateFilterCounts] computes (the version that goes
    through the groups of [extractTitles]) before it writes them to the
    page.  [priorityCounts] is an object used as a dictionary: the map
    holds its own properties. *)
Record FilterCounts := mkFilterCounts {
  priorityCounts : gmap jsstring counter;
  allPriorities : gset jsstring;
  countAll : nat;
  countAccepted : nat;
  countNotAccepted : nat
}.

Definition matchesAcceptance (selectedAcceptanceStatus : jsstring)
    (occurrence : Occurrence) : bool :=
  if str_eqb selectedAcceptanceStatus Filter.ACCEPTED then occ_accepted occurrence
  else if str_eqb selectedAcceptanceStatus Filter.NOT_ACCEPTED
       then negb (occ_accepted occurrence)
       else true.

(** [priorityCounts[key] = v] for a number or a string [v]: an
    assignment to [__proto__] is ignored. *)
Definition store (key : jsstring) (v : counter) (counts : gmap jsstring counter)
    : gmap jsstring counter :=
  if str_eqb key PROTO then counts else <[key := v]> counts.

(** The body of the first pair of loops:
    [priorityCounts.all++;
     priorityCounts[p] = (priorityCounts[p] || 0) + 1]. *)
Definition countPriority (selectedAcceptanceStatus : jsstring)
    (st : gmap jsstring counter * gset jsstring) (occurrence : Occurrence)
    : gmap jsstring counter * gset jsstring :=
  let '(counts, seen) := st in
  let seen := seen ∪ {[ occ_priority occurrence ]} in
  if matchesAcceptance selectedAcceptanceStatus occurrence then
    let counts :=
      store Filter.ALL (plus_plus (get (counts !! Filter.ALL) Filter.ALL)) counts in
    let counts :=
      store (occ_priority occurrence)
            (or0_plus1 (get (counts !! occ_priority occurrence)
                            (occ_priority occurrence)))
            counts in
    (counts, seen)
  else (counts, seen).

(** The body of the second pair of loops. *)
Definition countAcceptance (selectedPriorities : gset jsstring)
    (st : nat * nat * nat) (occurrence : Occurrence) : nat * nat * nat :=
  let '(all, accepted, notAccepted) := st in
  let matchesPriority :=
    bool_decide (Filter.ALL ∈ selectedPriorities)
    || bool_decide (occ_priority occurrence ∈ selectedPriorities) in
  if matchesPriority then
    if occ_accepted occurrence then (S all, S accepted, notAccepted)
    else (S all, accepted, S notAccepted)
  else st.

(** The statements of [updateFilterCounts] after the call of
    [extractTitles]. *)
Definition countOccurrences (titles : list TitleGroup)
    (selectedPriorities : gset jsstring) (selectedAcceptanceStatus : jsstring)
    : FilterCounts :=
  let '(counts, seen) :=
    fold_left (fun st group =>
                 fold_left (countPriority selectedAcceptanceStatus)
                           (allOccurrences group) st)
              titles ({[ Filter.ALL := Num 0 ]}, ∅) in
  let '(all, accepted, notAccepted) :=
    fold_left (fun st group =>
                 fold_left (countAcceptance selectedPriorities)
                           (allOccurrences group) st)
              titles (0, 0, 0)%nat in
  {| priorityCounts := counts;
     allPriorities := seen;
     countAll := all;
     countAccepted := accepted;
     countNotAccepted := notAccepted |}.

Definition updateFilterCounts (pullRequests : list PullRequest)
    (selectedPriorities : gset jsstring) (selectedAcceptanceStatus : jsstring)
    : error + FilterCounts :=
  and_then (extractTitles pullRequests) (fun titles =>
    inr (countOccurrences titles selectedPriorities selectedAcceptanceStatus)).

(** What is written for a priority: [priorityCounts[priority] || 0]
    (for "all", [priorityCounts.all], which is a number). *)
Definition shownCount (c : FilterCounts) (priority : jsstring) : counter :=
  or0 (get (priorityCounts c !! priority) priority).

(** [applyCombinedFilters]: the call of [updateFilterCounts], then the
    groups of [extractTitles], filtered.  The value is [filteredTitles],
    the list handed to the display callback; when a call throws, the
    callback is not reached. *)
Definition applyCombinedFilters (pullRequests : list PullRequest)
    (selectedPriorities : gset jsstring) (selectedAcceptanceStatus : jsstring)
    : error + list TitleGroup :=
  and_then (updateFilterCounts pullRequests selectedPriorities selectedAcceptanceStatus)
    (fun _ =>
  and_then (extractTitles pullRequests) (fun titles =>
    inr (filterTitles selectedPriorities selectedAcceptanceStatus titles))).

(** The number of occurrences a list of groups shows. *)
Definition shown (groups : list TitleGroup) : nat :=
  sum_list (map totalCount groups).

(** The statements of [applyPriorityFilter] after the call of
    [extractTitles]: a group is kept whole when one of its occurrences
    has a selected priority. *)
Definition wholeGroups (selectedPriorities : gset jsstring)
    (titles : list TitleGroup) : list TitleGroup :=
  if bool_decide (Filter.ALL ∈ selectedPriorities) then titles
  else
    List.filter (fun group =>
      existsb (fun occurrence =>
                 bool_decide (occ_priority occurrence ∈ selectedPriorities))
              (allOccurrences group))
      titles.

(** [applyPriorityFilter]: the groups handed to the display callback. *)
Definition applyPriorityFilter (pullRequests : list PullRequest)
    (selectedPriorities : gset jsstring) : error + list TitleGroup :=
  and_then (extractTitles pullRequests) (fun titles =>
    inr (wholeGroups selectedPriorities titles)).

End Counts.
Import Counts.

(** ** What the groups are made of *)

Module Grouping.

(** A title is similar to a representative when their similarity reaches
    the threshold. *)
Definition similar_to (rep t : TitleEntry) : Prop :=
  (SIMILARITY_THRESHOLD <= calculateSimilarity (te_title rep) (te_title t))%Q.

(** A group as the clustering builds it around the representative
    [rep]: [rep] comes first and gives its title to the group, the other
    members are similar to it, and the count and the occurrences are
    those of the members. *)
Definition built_around (rep : TitleEntry) (g : TitleGroup) : Prop :=
  exists members : list TitleEntry,
    items g = rep :: members
    /\ mainTitle g = te_title rep
    /\ Forall (similar_to rep) members
    /\ totalCount g = sum_list_with te_count (items g)
    /\ allOccurrences g = items g ≫= te_occurrences.

Definition group_built (g : TitleGroup) : Prop := exists rep, built_around rep g.

(** The titles of an indexed list whose index is in [used]. *)
Definition chosen (used : gset nat) (l : list (nat * TitleEntry)) : list TitleEntry :=
  map snd (filter (fun it => fst it ∈ used) l).

(** The state of the outer loop is sound for the indexed titles [l]:
    the groups are well built and their members are the marked titles. *)
Definition outer_ok (l : list (nat * TitleEntry)) (st : list TitleGroup * gset nat)
    : Prop :=
  Forall group_built (fst st) /\ (fst st ≫= items) ≡ₚ chosen (snd st) l.

(** One occurrence per issue, in the order of the loops. *)
Definition occurrences_of (pullRequests : list PullRequest) : list Occurrence :=
  pullRequests ≫= fun pr => map (occurrence_of pr) (actionableIssues pr).

(** No title of the data names a property inherited from
    [Object.prototype]. *)
Definition ordinary_titles (pullRequests : list PullRequest) : Prop :=
  Forall (fun issue => inherited (title_of issue) = false) (allIssues pullRequests).

(** The dictionary the loops of [extractTitles] fill when no call of
    [push] throws. *)
Definition gathered (pullRequests : list PullRequest) : Dict :=
  fold_left (fun d pr =>
    fold_left (fun d issue =>
      append_to (title_of issue) (occurrence_of pr issue) d) (actionableIssues pr) d)
    pullRequests [].

(** No own property of the dictionary names an inherited one. *)
Definition own_keys_ok (d : Dict) : Prop :=
  Forall (fun e => inherited (fst e) = false) d.

(** The test that [ordinary_titles] holds. *)
Definition ordinaryb (issues : list Issue) : bool :=
  forallb (fun issue => negb (inherited (title_of issue))) issues.

(** Descending order of a key. *)
Definition descending {A} (key : A -> nat) (l : list A) : Prop :=
  StronglySorted (fun a b => (key b <= key a)%nat) l.

End Grouping.
Import Grouping.

(** ** Counting occurrences *)

Module Tallies.

(** The number of elements of a list that pass a test. *)
Definition countIf {A} (f : A -> bool) (l : list A) : nat := length (List.filter f l).

(** All the occurrences of a list of groups, group after group. *)
Definition occurrencesIn (groups : list TitleGroup) : list Occurrence :=
  groups ≫= allOccurrences.

(** The test "its priority is [p]". *)
Definition hasPriority (p : jsstring) (occurrence : Occurrence) : bool :=
  str_eqb (occ_priority occurrence) p.

(** The combined filter shows [n] occurrences of the data. *)
Definition shows (pullRequests : list PullRequest) (selectedPriorities : gset jsstring)
    (selectedAcceptanceStatus : jsstring) (n : nat) : Prop :=
  exists groups : list TitleGroup,
    applyCombinedFilters pullRequests selectedPriorities selectedAcceptanceStatus
      = inr groups
    /\ shown groups = n.

(** What a filtered group keeps of the group it comes from. *)
Definition filtered_from (selectedPriorities : gset jsstring)
    (selectedAcceptanceStatus : jsstring) (g0 g : TitleGroup) : Prop :=
  mainTitle g = mainTitle g0
  /\ items g = items g0
  /\ allOccurrences g =
       List.filter (matchesFilters selectedPriorities selectedAcceptanceStatus)
                   (allOccurrences g0).

End Tallies.
Import Tallies.

(** ** The filter buttons and the caller's status *)

Module Sync.

(** The active acceptance button shows the caller's status: none is
    active for "all", and only the button of the status otherwise. *)
Definition in_sync (ui : FilterUI) (status : jsstring) : Prop :=
  ui_active ui = if str_eqb status Filter.ALL then ∅ else {[ status ]}.


(** The dictionary of [calculateDistribution] holds numbers, counts
    every value at least once, and [total] is the sum of its counts. *)
Definition tally_ok (acc : list (jsstring * counter) * nat) : Prop :=
  sum_list_with (fun e => number (snd e)) (fst acc) = snd acc
  /\ Forall (fun e => exists n, snd e = Num n /\ (1 <= n)%nat) (fst acc).

(** The counters of the priorities are numbers where they should be:
    "all" holds one, and a key that names no inherited property holds a
    number or nothing. *)
Definition counts_ok (counts : gmap jsstring counter) : Prop :=
  (exists n, counts !! Filter.ALL = Some (Num n))
  /\ (forall p, inherited p = false ->
         counts !! p = None \/ exists n, counts !! p = Some (Num n)).

(** The two acceptance fields of an issue of the analysis go together:
    accepted with the method "graphql", or not accepted with no method. *)
Definition resolved_or_open (issue : Issue) : Prop :=
  (accepted issue = true /\ acceptanceMethod issue = Some (js "graphql"))
  \/ (accepted issue = false /\ acceptanceMethod issue = None).

(** A pull request of the result has issues, all of that form. *)
Definition pr_ok (pr : PullRequest) : Prop :=
  actionableIssues pr <> [] /\ Forall resolved_or_open (actionableIssues pr).

(** The counter of issues of the batch loop is the number of issues
    collected so far, in pull requests of that form. *)
Definition loop_ok (st : LoopState) : Prop :=
  totalIssues st = length (allIssues (prsWithIssues st))
  /\ Forall pr_ok (prsWithIssues st).

End Sync.
Import Sync.

(** ** Inputs of the further examples *)

Module MoreInputs.

(** A server that fails twice (a rejected [fetch], then a 502) and then
    answers. *)
Definition flaky : nat -> attempt nat :=
  fun i =>
    match i with
    | O => Rejects
    | S O => Responds (mkHttpResponse 502 (Some (js "4999")) None None)
    | _ => Responds (mkHttpResponse 200 (Some (js "4998")) None (Some 7%nat))
    end.

(** A comment of the bot whose bold title is [constructor], the issue
    the analysis makes of it, and the data with that issue alone. *)
Definition body3 : jsstring :=
  js "_⚠️ Potential issue_ | _🟠 Major_" ++ [LF; LF] ++
  js "**constructor**" ++ [LF] ++ js "Declare it before the methods.".

Definition comment3 : Comment :=
  {| c_user := Some CODERABBIT_USERNAME;
     c_body := Some body3;
     c_html_url := url1;
     c_created_at := js "2025-01-01T00:00:00Z";
     c_id := 1 |}.

Definition issue3 : Issue :=
  {| severity := js "Potential issue";
     priority := [0xDFE0] ++ js " Major";
     title := js "constructor";
     description := [];
     url := url1;
     timestamp := js "2025-01-01T00:00:00Z";
     accepted := false;
     acceptanceMethod := None |}.

Definition data3 : list PullRequest :=
  [ {| pr_number := 7;
       pr_title := js "Add parser";
       pr_url := js "https://github.com/o/r/pull/7";
       pr_state := js "closed";
       pr_author := js "dev";
       pr_createdAt := js "2025-01-01T00:00:00Z";
       actionableIssues := [issue3] |} ].

(** A server that always answers 401. *)
Definition unauthorized : nat -> attempt nat :=
  fun _ => Responds (mkHttpResponse 401 (Some (js "59")) None None).

End MoreInputs.
Import MoreInputs.

(** * Properties *)

Close Scope N_scope.

(** ** The parser *)

(** The value the parser builds never carries an acceptance: both fields
    are constants of the returned object. *)
Lemma parseActionableIssue_not_accepted (body : option jsstring) (issue : Issue) :
  parseActionableIssue body = Some issue ->
  accepted issue = false /\ acceptanceMethod issue = None.
Proof.
  unfold parseActionableIssue.
  destruct body as [b|]; [|discriminate].
  destruct (negb (truthy b)); [discriminate|].
  destruct (str_match b Patterns.severityRe) as [sm|]; [|discriminate].
  destruct (extractTitle b sm) as [t d].
  intros [= <-]. split; reflexivity.
Qed.

(** A body without the marker gives [null]. *)
Lemma parseActionableIssue_no_marker (b : jsstring) :
  str_match b Patterns.severityRe = None ->
  parseActionableIssue (Some b) = None.
Proof.
  intros H. unfold parseActionableIssue. rewrite H.
  destruct (negb (truthy b)); reflexivity.
Qed.

(** C1. On the example body the parser returns a record whose severity is
    "Potential issue" and whose title is "Avoid using var", but whose
    priority is the low surrogate of the orange circle followed by
    " Major" (the class of the pattern holds code units, and takes the high
    surrogate alone) and whose description is empty (the text after the
    title starts with the closing asterisks, which the description pattern
    does not accept). *)
Theorem parseActionableIssue_body1 :
  parseActionableIssue (Some body1) =
    Some {| severity := js "Potential issue";
            priority := 0xDFE0%N :: js " Major";
            title := js "Avoid using var";
            description := [];
            url := [];
            timestamp := [];
            accepted := false;
            acceptanceMethod := None |}
  /\ 0xDFE0%N :: js " Major" <> js "Major"
  /\ [] <> js "Use let or const instead.".
Proof.
  split; [vm_compute; reflexivity|].
  split; vm_compute; discriminate.
Qed.

(** C2. On a body that has the marker and the phrase "addressed in
    commit", the parser returns an issue that is not accepted and has no
    acceptance method: it does not look for the phrase. *)
Theorem parseActionableIssue_body2 :
  exists issue,
    parseActionableIssue (Some body2) = Some issue
    /\ accepted issue = false
    /\ acceptanceMethod issue = None.
Proof.
  eexists. split; [vm_compute; reflexivity|].
  split; reflexivity.
Qed.

(** ** The manual override store *)





(** C3. Starting from an issue that the thread query had accepted
    ([accepted = true], method "graphql") and an empty store, two toggles
    on the URL of the issue leave the store empty and the issue not
    accepted, without a method: the state before the first toggle is
    lost. *)
Theorem toggle_twice_resolved_issue :
  let st2 := toggleManualAcceptance url1 now2
               (toggleManualAcceptance url1 now1 (∅, data1)) in
  fst st2 = ∅
  /\ map (fun pr => map (fun i => (accepted i, acceptanceMethod i)) (actionableIssues pr))
         (snd st2) = [[(false, None)]]
  /\ map (fun pr => map (fun i => (accepted i, acceptanceMethod i)) (actionableIssues pr))
         data1 = [[(true, Some (js "graphql"))]].
Proof.
  split; [|split].
  - apply map_eq. intros u. vm_compute. reflexivity.
  - vm_compute. reflexivity.
  - vm_compute. reflexivity.
Qed.



(** ** Similarity *)

Lemma intersection_inter (A B : gset jsstring) : intersection A B = A ∩ B.
Proof.
  apply set_eq. intros w. unfold intersection.
  rewrite elem_of_filter, elem_of_intersection. tauto.
Qed.

Lemma split_nonempty (sep : N) (s : jsstring) : split sep s <> [].
Proof.
  destruct s as [|c s]; simpl; [discriminate|].
  destruct (c =? sep)%N; [discriminate|].
  destruct (split sep s); discriminate.
Qed.

(** The set of words is never empty: the empty normalized title splits
    into the empty word. *)
Lemma words_nonempty (t : jsstring) : (0 < size (words t))%nat.
Proof.
  unfold words.
  destruct (split SP (normalize t)) as [|w ws] eqn:E.
  - exfalso. exact (split_nonempty _ _ E).
  - assert (size (list_to_set (w :: ws) : gset jsstring) <> 0)%nat; [|lia].
    apply size_non_empty_iff. intros He.
    assert (Hw : w ∈ (list_to_set (w :: ws) : gset jsstring))
      by (apply elem_of_list_to_set; left).
    rewrite He in Hw. set_solver.
Qed.

Lemma ratio_same (n : nat) : (0 < n)%nat -> (ratio n n == 1)%Q.
Proof.
  intros Hn. unfold ratio, Qdiv. apply Qmult_inv_r.
  unfold Qeq. simpl. lia.
Qed.

Lemma calculateSimilarity_same (a : jsstring) : (calculateSimilarity a a == 1)%Q.
Proof.
  unfold calculateSimilarity. rewrite intersection_inter. unfold union.
  rewrite (idemp_L (∩)), (idemp_L (∪)).
  apply ratio_same, words_nonempty.
Qed.

(** C6. The similarity of two titles does not depend on their order, and
    a title whose set of words is not empty has similarity 1 with
    itself. *)
Theorem calculateSimilarity_sym_refl :
  (forall a b : jsstring, calculateSimilarity a b = calculateSimilarity b a)
  /\ (forall a : jsstring,
        (0 < size (words a))%nat -> (calculateSimilarity a a == 1)%Q).
Proof.
  split.
  - intros a b. unfold calculateSimilarity.
    rewrite !intersection_inter. unfold union.
    rewrite (comm_L (∩) (words a)), (comm_L (∪) (words a)). reflexivity.
  - intros a _. apply calculateSimilarity_same.
Qed.

Lemma calculateSimilarity_sym_refl_witness :
  calculateSimilarity (js "Avoid using var") (js "Avoid using let") =
    calculateSimilarity (js "Avoid using let") (js "Avoid using var")
  /\ (calculateSimilarity (js "Avoid using var") (js "Avoid using var") == 1)%Q.
Proof.
  destruct calculateSimilarity_sym_refl as [Hsym Hrefl].
  split.
  - apply Hsym.
  - apply Hrefl. vm_compute. lia.
Defined.

(** When a normalized title is empty its set of words is the singleton of
    the empty word. *)
Lemma words_of_empty (t : jsstring) : normalize t = [] -> words t = {[ [] ]}.
Proof.
  intros H. unfold words. rewrite H. simpl.
  apply set_eq. intros w. set_solver.
Qed.

(** C7, as the code has it. When both normalized titles are empty (titles
    made of punctuation or white space only) the similarity is 1: each set
    of words is the singleton of the empty word. *)
Theorem calculateSimilarity_both_empty (a b : jsstring) :
  normalize a = [] -> normalize b = [] ->
  (calculateSimilarity a b == 1)%Q.
Proof.
  intros Ha Hb. unfold calculateSimilarity.
  rewrite (words_of_empty a Ha), (words_of_empty b Hb).
  rewrite intersection_inter. unfold union.
  rewrite (idemp_L (∩)), (idemp_L (∪)), size_singleton.
  apply ratio_same. lia.
Qed.

Lemma calculateSimilarity_both_empty_witness :
  (calculateSimilarity (js "?!") (js " ... ") == 1)%Q.
Proof.
  apply (calculateSimilarity_both_empty (js "?!") (js " ... ")).
  - vm_compute. reflexivity.
  - vm_compute. reflexivity.
Defined.

(** C7, as stated, fails on two titles made of punctuation and of white
    space: both normalized titles are empty and the similarity is 1, not
    0. *)
Lemma punctuation_titles_similarity_not_zero :
  normalize (js "!!!") = [] /\ normalize (js "   ") = []
  /\ ~ (calculateSimilarity (js "!!!") (js "   ") == 0)%Q.
Proof.
  split; [vm_compute; reflexivity|].
  split; [vm_compute; reflexivity|].
  vm_compute. discriminate.
Qed.

(** ** Pagination *)

Section SearchPages.

Context {A : Type}.
Variable fetchWithRetry : Z -> outcome (response A).
Variable total_count : Z.

Hypothesis Hserved : serves_search fetchWithRetry total_count (maxPagesOf total_count).

(** With [k] pages left before the cap, the loop requests exactly those
    [k] pages and returns. *)
Lemma fetchLoop_search (k : nat) :
  forall (fuel : nat) (page : Z) (results : list A) (requested : list Z),
    (S k <= fuel)%nat ->
    (1 <= page)%Z ->
    (page + Z.of_nat k)%Z = maxPagesOf total_count ->
    exists results' : list A,
      fetchLoop fuel fetchWithRetry page results requested =
        Return (results', requested ++ map (fun i => (page + Z.of_nat i)%Z) (seq 0 (S k))).
Proof.
  induction k as [|k IH]; intros fuel page results requested Hfuel Hpage Hlast;
    (destruct fuel as [|fuel]; [lia|]);
    destruct (Hserved page) as (its & Hne & Hpage_eq); try lia;
    (destruct its as [|x its]; [congruence|]);
    cbn [fetchLoop bind]; rewrite Hpage_eq; cbn [bind length Nat.ltb Nat.leb].
  - replace (page + 1 <=? maxPagesOf total_count)%Z with false
      by (symmetry; apply Z.leb_gt; lia).
    cbn [seq map]. rewrite Z.add_0_r. eexists. reflexivity.
  - replace (page + 1 <=? maxPagesOf total_count)%Z with true
      by (symmetry; apply Z.leb_le; lia).
    destruct (IH fuel (page + 1)%Z (results ++ x :: its) (requested ++ [page]))
      as [results' Hr]; [lia|lia|lia|].
    exists results'. rewrite Hr. do 2 f_equal.
    rewrite <- app_assoc. f_equal. cbn [app].
    rewrite <- (cons_seq (S k) 0), <- seq_shift, map_cons, map_map.
    rewrite Z.add_0_r. f_equal.
    apply map_ext. intros i. lia.
Qed.

Lemma fetchAllPagesTrace_search (fuel : nat) :
  (1 <= maxPagesOf total_count)%Z ->
  (Z.to_nat (maxPagesOf total_count) <= fuel)%nat ->
  exists results : list A,
    fetchAllPagesTrace fuel fetchWithRetry =
      Return (results, map Z.of_nat (seq 1 (Z.to_nat (maxPagesOf total_count)))).
Proof.
  intros Hpos Hfuel. unfold fetchAllPagesTrace.
  destruct (fetchLoop_search (Z.to_nat (maxPagesOf total_count) - 1) fuel 1 [] [])
    as [results Hr]; [lia|lia|lia|].
  exists results. rewrite Hr. do 2 f_equal. cbn [app].
  replace (S (Z.to_nat (maxPagesOf total_count) - 1))
    with (Z.to_nat (maxPagesOf total_count)) by lia.
  generalize (Z.to_nat (maxPagesOf total_count)). intros n.
  rewrite <- seq_shift, map_map. apply map_ext. intros i. lia.
Qed.

End SearchPages.

(** C4. Against a search response that reports [total_count = 1500] on
    each of its pages, every page holding at least one item,
    [fetchAllPages] requests the pages 1 to 10, exactly ten requests, and
    returns; ten is [min(1500, 1000) / 100] rounded up.  In general, for a
    positive total the pages requested are 1 to
    [ceil(min(total_count, 1000) / 100)]. *)
Theorem fetchAllPages_search_1500 :
  (forall (A : Type) (fetchWithRetry : Z -> outcome (response A)) (fuel : nat),
      serves_search fetchWithRetry 1500 10 ->
      (10 <= fuel)%nat ->
      exists results : list A,
        fetchAllPagesTrace fuel fetchWithRetry =
          Return (results, [1; 2; 3; 4; 5; 6; 7; 8; 9; 10]%Z)
        /\ fetchAllPages fuel fetchWithRetry = Return results)
  /\ maxPagesOf 1500 = 10%Z
  /\ (forall (A : Type) (fetchWithRetry : Z -> outcome (response A))
             (total_count : Z) (fuel : nat),
      (0 < total_count)%Z ->
      serves_search fetchWithRetry total_count (maxPagesOf total_count) ->
      (Z.to_nat (maxPagesOf total_count) <= fuel)%nat ->
      exists results : list A,
        fetchAllPagesTrace fuel fetchWithRetry =
          Return (results, map Z.of_nat (seq 1 (Z.to_nat (maxPagesOf total_count))))).
Proof.
  split; [|split].
  - intros A f fuel Hs Hfuel.
    destruct (fetchAllPagesTrace_search f 1500 Hs fuel) as [results Hr].
    + vm_compute. discriminate.
    + vm_compute. apply Nat.leb_le. apply Nat.leb_le in Hfuel. exact Hfuel.
    + exists results. split; [exact Hr|].
      unfold fetchAllPages. rewrite Hr. reflexivity.
  - reflexivity.
  - intros A f T fuel HT Hs Hfuel.
    apply (fetchAllPagesTrace_search f T Hs fuel); [|exact Hfuel].
    unfold maxPagesOf, per_page.
    apply Z.div_le_lower_bound; lia.
Qed.

Lemma fetchAllPages_search_1500_witness :
  exists results : list nat,
    fetchAllPagesTrace 12
      (fun _ => Return (Envelope (replicate 100 0%nat) (Some 1500%Z))) =
      Return (results, [1; 2; 3; 4; 5; 6; 7; 8; 9; 10]%Z).
Proof.
  destruct fetchAllPages_search_1500 as [H _].
  destruct (H nat (fun _ => Return (Envelope (replicate 100 0%nat) (Some 1500%Z))) 12%nat)
    as (results & Hr & _).
  - intros p _. exists (replicate 100 0%nat). split; [discriminate|reflexivity].
  - lia.
  - exists results. exact Hr.
Defined.

(** ** Title groups and the combined filter *)

Section Sorting.

Context {A : Type} (key : A -> nat) (P : A -> Prop).

Lemma insert_desc_Forall (x : A) (l : list A) :
  P x -> Forall P l -> Forall P (insert_desc key x l).
Proof.
  intros Hx Hl. induction Hl as [|y l Hy Hl IH]; simpl.
  - constructor; [exact Hx|constructor].
  - destruct (key y <=? key x)%nat; repeat constructor; assumption.
Qed.

Lemma sort_desc_Forall (l : list A) : Forall P l -> Forall P (sort_desc key l).
Proof.
  unfold sort_desc. induction 1 as [|x l Hx Hl IH]; simpl.
  - constructor.
  - apply insert_desc_Forall; assumption.
Qed.

End Sorting.

Lemma append_to_nonempty (t : jsstring) (occ : Occurrence) (d : Dict) :
  values_nonempty d -> values_nonempty (append_to t occ d).
Proof.
  unfold values_nonempty. induction 1 as [|[k v] d Hv Hd IH]; simpl.
  - constructor; [discriminate|constructor].
  - destruct (str_eqb k t).
    + constructor; [|exact Hd]. simpl. destruct v; discriminate.
    + constructor; assumption.
Qed.

Lemma gathered_nonempty (pullRequests : list PullRequest) :
  values_nonempty (gathered pullRequests).
Proof.
  unfold gathered.
  assert (H0 : values_nonempty []) by constructor.
  revert H0. generalize ([] : Dict).
  induction pullRequests as [|pr prs IH]; intros d Hd; simpl; [exact Hd|].
  apply IH. revert d Hd.
  induction (actionableIssues pr) as [|issue issues IHi]; intros d Hd; simpl;
    [exact Hd|].
  apply IHi, append_to_nonempty, Hd.
Qed.

Lemma insert_index_Forall {V} (P : jsstring * V -> Prop) (n : N) (e : jsstring * V)
    (l : list (N * (jsstring * V))) :
  P e -> Forall (fun ne => P (snd ne)) l ->
  Forall (fun ne => P (snd ne)) (insert_index n e l).
Proof.
  intros He Hl. induction Hl as [|[n' e'] l Hy Hl IH]; simpl.
  - constructor; [exact He|constructor].
  - destruct (n <? n')%N; repeat constructor; assumption.
Qed.

Lemma entries_Forall (P : jsstring * list Occurrence -> Prop) (d : Dict) :
  Forall P d -> Forall P (entries d).
Proof.
  intros Hd. unfold entries. apply Forall_app. split.
  - apply Forall_fmap.
    induction Hd as [|e d He Hd IH]; simpl; [constructor|].
    destruct (array_index (fst e)); [|exact IH].
    apply (insert_index_Forall P); assumption.
  - induction Hd as [|e d He Hd IH]; simpl; [constructor|].
    destruct (array_index (fst e)); [exact IH|]. constructor; assumption.
Qed.

Lemma absorb_ok (rep : TitleEntry) (st : TitleGroup * gset nat) (jt : nat * TitleEntry) :
  entry_ok (snd jt) -> group_ok (fst st) -> group_ok (fst (absorb rep st jt)).
Proof.
  destruct st as [g used], jt as [j tj]. simpl. intros [Hc Hne] [Hg Hgne].
  unfold absorb. destruct (bool_decide (j ∈ used)); [split; assumption|].
  destruct (Qle_bool _ _); [|split; assumption].
  split; simpl.
  - rewrite length_app. lia.
  - destruct (allOccurrences g); [congruence|discriminate].
Qed.

Lemma absorb_all_ok (rep : TitleEntry) (l : list (nat * TitleEntry)) :
  Forall (fun it => entry_ok (snd it)) l ->
  forall st, group_ok (fst st) -> group_ok (fst (fold_left (absorb rep) l st)).
Proof.
  induction 1 as [|jt l Hj Hl IH]; intros st Hst; simpl; [exact Hst|].
  apply IH, absorb_ok; assumption.
Qed.

Lemma open_group_ok (titles : list (nat * TitleEntry))
    (st : list TitleGroup * gset nat) (it : nat * TitleEntry) :
  Forall (fun it => entry_ok (snd it)) titles ->
  entry_ok (snd it) ->
  Forall group_ok (fst st) -> Forall group_ok (fst (open_group titles st it)).
Proof.
  destruct st as [groups used], it as [i t]. simpl. intros Ht Hi Hg.
  unfold open_group. destruct (bool_decide (i ∈ used)); [exact Hg|].
  pose proof (absorb_all_ok t (drop (S i) titles) (Forall_drop _ _ _ Ht)
    ({| mainTitle := te_title t; totalCount := te_count t;
        items := [t]; allOccurrences := te_occurrences t |}, used) Hi) as Hok.
  destruct (fold_left _ _ _) as [g used']. simpl in *.
  apply Forall_app. split; [exact Hg|]. constructor; [exact Hok|constructor].
Qed.

Lemma indexed_Forall {A} (P : A -> Prop) (l : list A) :
  Forall P l -> Forall (fun it => P (snd it)) (indexed l).
Proof.
  intros Hl. apply Forall_forall. intros [i x] Hx.
  apply elem_of_lookup_imap in Hx as (j & y & [= -> ->] & Hy).
  simpl. rewrite Forall_forall in Hl. apply Hl.
  apply list_elem_of_lookup. exists j. exact Hy.
Qed.

Lemma groupSimilarTitles_ok (titles : list TitleEntry) :
  Forall entry_ok titles -> Forall group_ok (groupSimilarTitles titles).
Proof.
  intros Ht. unfold groupSimilarTitles. apply sort_desc_Forall.
  pose proof (indexed_Forall _ _ Ht) as Hi.
  assert (Hgen : forall l st,
            Forall (fun it => entry_ok (snd it)) l ->
            Forall group_ok (fst st) ->
            Forall group_ok (fst (fold_left (open_group (indexed titles)) l st))).
  { induction l as [|it l IH]; intros st Hl Hst; simpl; [exact Hst|].
    inversion Hl; subst. apply IH; [assumption|].
    apply open_group_ok; assumption. }
  apply Hgen; [exact Hi|constructor].
Qed.

(** Every group made of a dictionary without empty arrays has at least
    one occurrence, and its [totalCount] is the number of its
    occurrences. *)
Lemma titlesOf_ok (d : Dict) :
  values_nonempty d -> Forall group_ok (titlesOf d).
Proof.
  intros Hd. unfold titlesOf. apply groupSimilarTitles_ok, sort_desc_Forall.
  apply Forall_fmap.
  pose proof (entries_Forall _ _ Hd) as H.
  eapply Forall_impl; [exact H|].
  intros e He. split; [reflexivity|exact He].
Qed.

Lemma filter_all {A} (f : A -> bool) (l : list A) :
  (forall x, f x = true) -> List.filter f l = l.
Proof.
  intros Hf. induction l as [|x l IH]; simpl; [reflexivity|].
  rewrite Hf, IH. reflexivity.
Qed.

Lemma matchesFilters_all (selectedPriorities : gset jsstring) (occ : Occurrence) :
  ALL ∈ selectedPriorities -> matchesFilters selectedPriorities ALL occ = true.
Proof.
  intros Hall. unfold matchesFilters.
  rewrite (bool_decide_eq_true_2 _ Hall). reflexivity.
Qed.

Lemma filterGroup_all (selectedPriorities : gset jsstring) (g : TitleGroup) :
  ALL ∈ selectedPriorities -> group_ok g ->
  filterGroup selectedPriorities ALL g = Some g.
Proof.
  intros Hall [Hc Hne]. unfold filterGroup.
  rewrite (filter_all _ _ (fun occ => matchesFilters_all _ occ Hall)).
  destruct g as [mt tc its occs]. simpl in *. subst tc.
  destruct occs; [congruence|]. reflexivity.
Qed.

Lemma omap_all_Some {A} (f : A -> option A) (l : list A) :
  Forall (fun x => f x = Some x) l -> omap f l = l.
Proof.
  induction 1 as [|x l Hx Hl IH]; simpl; [reflexivity|].
  rewrite Hx. simpl. f_equal. exact IH.
Qed.

(** With "all" among the priorities and the acceptance "all", groups
    that have occurrences pass the filter as they are. *)
Lemma filterTitles_all (selectedPriorities : gset jsstring) (titles : list TitleGroup) :
  ALL ∈ selectedPriorities -> Forall group_ok titles ->
  filterTitles selectedPriorities ALL titles = titles.
Proof.
  intros Hall Hok. unfold filterTitles. apply omap_all_Some.
  eapply Forall_impl; [exact Hok|].
  intros g Hg. apply filterGroup_all; assumption.
Qed.

(** C8. A comment of the bot whose bold title is [constructor] gives an
    issue with that title.  On the data that holds this one issue,
    [extractTitles] throws a TypeError: [titleGroups[title]] reads the
    function inherited from [Object.prototype], which has no [push].
    So does [applyCombinedFilters] with the priorities [{"all"}] and the
    acceptance ["all"]: the occurrence of the issue is not returned, and
    the display callback is not called. *)
Theorem applyCombinedFilters_constructor_title :
  issueOfComment [] comment3 = Some issue3
  /\ title issue3 = js "constructor"
  /\ length (occurrences_of data3) = 1%nat
  /\ extractTitles data3 = inl TypeError
  /\ applyCombinedFilters data3 {[ ALL ]} ALL = inl TypeError.
Proof.
  split; [vm_compute; reflexivity|].
  split; [reflexivity|].
  split; [reflexivity|].
  assert (H : extractTitles data3 = inl TypeError) by (vm_compute; reflexivity).
  split; [exact H|].
  unfold applyCombinedFilters, updateFilterCounts. rewrite H. reflexivity.
Qed.

(** ** Collecting comments and running the batches *)

Section Run.

Variable fuel : nat.
Variable net : Network.

Lemma promise_all3_throws {A B C} (a : outcome A) (b : outcome B) (c : outcome C) :
  (exists e, a = Throw e) \/ (exists e, b = Throw e) \/ (exists e, c = Throw e) ->
  exists e, promise_all3 a b c = Throw e.
Proof.
  unfold promise_all3, promise_all2.
  intros [[e ->]|[[e ->]|[e ->]]].
  - eexists. reflexivity.
  - destruct a; eexists; reflexivity.
  - destruct a, b; eexists; reflexivity.
Qed.

(** A failing fetch empties the comments of the pull request. *)
Lemma fetchPRComments_fetch_fails (prNumber : Z) :
  (exists e, fetchAllPages fuel (pullReviews net prNumber) = Throw e)
  \/ (exists e, fetchAllPages fuel (pullComments net prNumber) = Throw e)
  \/ (exists e, fetchAllPages fuel (issueComments net prNumber) = Throw e) ->
  fetchPRComments fuel net prNumber = Return [].
Proof.
  intros H. apply promise_all3_throws in H as [e He].
  unfold fetchPRComments, fetchPRComments_body. rewrite He. reflexivity.
Qed.

Lemma try_catch_no_throw {A} (c : outcome A) (v : A) (e : error) :
  try_catch c (fun _ => Return v) <> Throw e.
Proof. destruct c; discriminate. Qed.

Lemma fetchPRComments_no_throw (prNumber : Z) (e : error) :
  fetchPRComments fuel net prNumber <> Throw e.
Proof. apply try_catch_no_throw. Qed.

Lemma processPR_no_throw (pr : SearchItem) (e : error) :
  processPR fuel net pr <> Throw e.
Proof. apply try_catch_no_throw. Qed.

Lemma processPR_failure (pr : SearchItem) (e : error) :
  processPR_body fuel net pr = Throw e -> processPR fuel net pr = Return None.
Proof. intros H. unfold processPR. rewrite H. reflexivity. Qed.

Lemma first_throw_processPR (batch : list SearchItem) :
  first_throw (map (processPR fuel net) batch) = None.
Proof.
  induction batch as [|pr batch IH]; simpl; [reflexivity|].
  pose proof (processPR_no_throw pr) as Hn.
  destruct (processPR fuel net pr); [exact IH| |exact IH].
  exfalso. exact (Hn e eq_refl).
Qed.

Lemma promise_all_processPR (batch : list SearchItem) :
  settles fuel net batch ->
  promise_all (map (processPR fuel net) batch) =
    Return (map (processPR fuel net) batch ≫= fun o => [settled o]).
Proof.
  intros Hs. unfold promise_all. rewrite first_throw_processPR.
  induction batch as [|pr batch IH]; simpl; [reflexivity|].
  pose proof (processPR_no_throw pr) as Hn.
  assert (Hp : processPR fuel net pr <> Pending) by (apply Hs; left).
  destruct (processPR fuel net pr) as [r|e|]; [|exfalso; exact (Hn e eq_refl)|congruence].
  simpl. rewrite IH; [reflexivity|].
  intros pr' Hpr'. apply Hs. right. exact Hpr'.
Qed.

Lemma omap_settled (batch : list SearchItem) :
  omap id (map (processPR fuel net) batch ≫= fun o => [settled o]) =
    omap (fun pr => settled (processPR fuel net pr)) batch.
Proof.
  induction batch as [|pr batch IH]; simpl; [reflexivity|].
  destruct (settled (processPR fuel net pr)); simpl; f_equal; exact IH.
Qed.

Lemma chunks_nil {A} (turns : nat) : chunks turns ([] : list A) = [].
Proof. destruct turns; reflexivity. Qed.

Lemma chunks_sizes {A} (turns : nat) :
  forall l : list A, map length (chunks turns l) = sizes turns (length l).
Proof.
  induction turns as [|t IH]; intros l; simpl; [reflexivity|].
  destruct l as [|x l]; [reflexivity|].
  change (length (x :: l) =? 0)%nat with false. cbn [map]. f_equal.
  - rewrite length_take. reflexivity.
  - rewrite IH, length_drop. reflexivity.
Qed.

(** When every per-PR promise settles the loop returns: it has gone
    through the slices of the list in order, reported each of them, and
    kept the pull requests whose promise gave one. *)
Lemma batchLoop_returns (filteredPRs : list SearchItem) :
  settles fuel net filteredPRs ->
  forall (turns i : nat) (st : LoopState),
    length filteredPRs <= i + BATCH_SIZE * turns ->
    exists st' : LoopState,
      batchLoop fuel net turns filteredPRs i st =
        (reports_of i (length filteredPRs)
                    (map length (chunks turns (drop i filteredPRs))), Return st')
      /\ prsWithIssues st' =
           prsWithIssues st ++
           omap (fun pr => settled (processPR fuel net pr)) (drop i filteredPRs)
      /\ batches st' = batches st ++ chunks turns (drop i filteredPRs).
Proof.
  intros Hs turns. induction turns as [|t IH]; intros i st Hlen.
  - assert (Hi : (i <? length filteredPRs) = false) by (apply Nat.ltb_ge; lia).
    simpl. rewrite Hi. rewrite drop_ge by lia.
    exists st. simpl. rewrite !app_nil_r. auto.
  - cbn [batchLoop]. destruct (i <? length filteredPRs) eqn:Hi.
    + apply Nat.ltb_lt in Hi.
      assert (Hb : settles fuel net (take BATCH_SIZE (drop i filteredPRs))).
      { intros pr Hpr. apply Hs.
        apply (subseteq_drop i), (subseteq_take BATCH_SIZE), Hpr. }
      rewrite (promise_all_processPR _ Hb).
      destruct (IH (i + BATCH_SIZE)
                   (collectResults
                      (map (processPR fuel net) (take BATCH_SIZE (drop i filteredPRs))
                         ≫= fun o => [settled o])
                      st (take BATCH_SIZE (drop i filteredPRs))))
        as (st' & Hrun & Hprs & Hbatches); [lia|].
      exists st'. rewrite Hrun.
      assert (Hne : exists x l, drop i filteredPRs = x :: l).
      { destruct (drop i filteredPRs) as [|x l] eqn:E; [|eauto].
        apply (f_equal length) in E. rewrite length_drop in E. simpl in E. lia. }
      destruct Hne as (x & l & Hxl).
      assert (Hch : chunks (S t) (drop i filteredPRs) =
                      take BATCH_SIZE (drop i filteredPRs)
                      :: chunks t (drop (i + BATCH_SIZE) filteredPRs)).
      { rewrite <- drop_drop. cbn [chunks]. rewrite Hxl. reflexivity. }
      rewrite Hch. split; [reflexivity|]. split.
      * rewrite Hprs. cbn [collectResults prsWithIssues].
        rewrite omap_settled, <- app_assoc. f_equal.
        rewrite <- omap_app. rewrite <- drop_drop, take_drop. reflexivity.
      * rewrite Hbatches. cbn [collectResults batches].
        rewrite <- app_assoc. reflexivity.
    + apply Nat.ltb_ge in Hi. rewrite drop_ge by lia.
      exists st. rewrite chunks_nil. simpl. rewrite !app_nil_r. auto.
Qed.

Lemma all_values_no_throw {A} (l : list (outcome A)) (e : error) :
  first_throw l = None -> all_values l <> Throw e.
Proof.
  induction l as [|c l IH]; simpl; [discriminate|].
  destruct c as [a|e'|]; simpl; try discriminate.
  intros Hf. specialize (IH Hf).
  destruct (all_values l); simpl; congruence.
Qed.

Lemma batchLoop_no_throw (filteredPRs : list SearchItem) (turns : nat) :
  forall (i : nat) (st : LoopState) (e : error),
    snd (batchLoop fuel net turns filteredPRs i st) <> Throw e.
Proof.
  induction turns as [|t IH]; intros i st e; cbn [batchLoop];
    destruct (i <? length filteredPRs); cbn [snd]; try discriminate.
  unfold promise_all. rewrite first_throw_processPR.
  pose proof (all_values_no_throw _ e (first_throw_processPR
                (take BATCH_SIZE (drop i filteredPRs)))) as Hv.
  destruct (all_values _) as [v|e0|]; cbn [snd]; try discriminate.
  2: { intros [= ->]. exact (Hv eq_refl). }
  specialize (IH (i + BATCH_SIZE)
                 (collectResults v st (take BATCH_SIZE (drop i filteredPRs))) e).
  destruct (batchLoop fuel net t filteredPRs _ _) as [reports r]. exact IH.
Qed.

(** The reported values of [current] never go down, and none is below
    the index of the batch. *)
Lemma batchLoop_currents_sorted (filteredPRs : list SearchItem) (turns : nat) :
  forall (i : nat) (st : LoopState),
    StronglySorted le (currents (fst (batchLoop fuel net turns filteredPRs i st)))
    /\ Forall (le i) (currents (fst (batchLoop fuel net turns filteredPRs i st))).
Proof.
  induction turns as [|t IH]; intros i st; cbn [batchLoop];
    destruct (i <? length filteredPRs);
    try (split; constructor).
  assert (Hlen : length (take BATCH_SIZE (drop i filteredPRs)) <= BATCH_SIZE)
    by (rewrite length_take; lia).
  assert (Hone : forall c, i <= c -> c <= i + BATCH_SIZE ->
            StronglySorted le [c] /\ Forall (le i) [c]).
  { intros c H1 H2. split; repeat constructor. exact H1. }
  destruct (promise_all _) as [v|e|]; cbn [fst currents omap];
    try (apply Hone; lia).
  destruct (IH (i + BATCH_SIZE)
               (collectResults v st (take BATCH_SIZE (drop i filteredPRs))))
    as [Hsorted Hge].
  destruct (batchLoop fuel net t filteredPRs _ _) as [reports r].
  cbn [fst currents omap] in *. cbn [current option_bind mbind]. split.
  - constructor; [exact Hsorted|].
    eapply Forall_impl; [exact Hge|]. intros c Hc. simpl in Hc. lia.
  - constructor; [lia|].
    eapply Forall_impl; [exact Hge|]. intros c Hc. simpl in Hc. lia.
Qed.

End Run.

Lemma sorted_lookup_le (l : list nat) :
  StronglySorted le l ->
  forall (j k a b : nat), j <= k -> l !! j = Some a -> l !! k = Some b -> a <= b.
Proof.
  induction 1 as [|x l Hs IH Hall]; intros j k a b Hjk Hj Hk.
  - rewrite lookup_nil in Hj. discriminate.
  - destruct j as [|j], k as [|k]; simpl in Hj, Hk.
    + assert (a = b) by congruence. lia.
    + injection Hj as <-. rewrite Forall_forall in Hall. apply Hall.
      apply list_elem_of_lookup. exists k. exact Hk.
    + lia.
    + apply (IH j k); [lia|exact Hj|exact Hk].
Qed.

Lemma currents_skip (p : Progress) (log : list Progress) :
  current p = None -> currents (p :: log) = currents log.
Proof. intros H. unfold currents. simpl. rewrite H. reflexivity. Qed.

Lemma currents_end (p : Progress) (log : list Progress) :
  current p = None -> currents (log ++ [p]) = currents log.
Proof.
  intros H. unfold currents. rewrite omap_app. simpl. rewrite H. simpl.
  apply app_nil_r.
Qed.

Lemma analyzePRs_currents (fuel : nat) (net : Network) (api : GitHubAPI) :
  StronglySorted le (currents (fst (analyzePRs fuel net api))).
Proof.
  unfold analyzePRs.
  destruct (fetchAllPages fuel (searchIssues net)) as [prs|e|];
    try (simpl; constructor).
  destruct (batchLoop_currents_sorted fuel net prs (length prs) 0 initialState)
    as [Hs _].
  destruct (batchLoop fuel net (length prs) prs 0 initialState) as [reports r].
  cbn [fst] in Hs.
  destruct r; cbn [fst]; rewrite !currents_skip by reflexivity;
    try rewrite currents_end by reflexivity; exact Hs.
Qed.

Lemma concat_chunks {A} (turns : nat) :
  forall l : list A, length l <= BATCH_SIZE * turns -> concat (chunks turns l) = l.
Proof.
  induction turns as [|t IH]; intros l Hl.
  - destruct l; [reflexivity|simpl in Hl; lia].
  - destruct l as [|x l]; [reflexivity|].
    cbn [chunks concat]. rewrite IH; [apply take_drop|].
    rewrite length_drop. lia.
Qed.

(** C5. If one of the three fetches of a pull request fails,
    [fetchPRComments] returns the empty list; an exception in the
    processing of a pull request gives [null] for it; and when the search
    has returned, the run returns too (as soon as every per-PR promise
    settles), with the pull requests of the promises that gave one, each
    computed on its own: the run throws only when the search does. *)
Theorem per_pr_failures_do_not_abort :
  (forall (fuel : nat) (net : Network) (prNumber : Z),
      (exists e, fetchAllPages fuel (pullReviews net prNumber) = Throw e)
      \/ (exists e, fetchAllPages fuel (pullComments net prNumber) = Throw e)
      \/ (exists e, fetchAllPages fuel (issueComments net prNumber) = Throw e) ->
      fetchPRComments fuel net prNumber = Return [])
  /\ (forall (fuel : nat) (net : Network) (pr : SearchItem) (e : error),
      processPR_body fuel net pr = Throw e -> processPR fuel net pr = Return None)
  /\ (forall (fuel : nat) (net : Network) (api : GitHubAPI) (filteredPRs : list SearchItem),
      fetchAllPages fuel (searchIssues net) = Return filteredPRs ->
      settles fuel net filteredPRs ->
      exists a : Analysis,
        snd (analyzePRs fuel net api) = Return a
        /\ pullRequests a =
             omap (fun pr => settled (processPR fuel net pr)) filteredPRs)
  /\ (forall (fuel : nat) (net : Network) (api : GitHubAPI) (e : error),
      snd (analyzePRs fuel net api) = Throw e ->
      fetchAllPages fuel (searchIssues net) = Throw e).
Proof.
  split; [|split; [|split]].
  - apply fetchPRComments_fetch_fails.
  - apply processPR_failure.
  - intros fuel net api prs Hsearch Hs. unfold analyzePRs. rewrite Hsearch.
    destruct (batchLoop_returns fuel net prs Hs (length prs) 0 initialState)
      as (st & Hrun & Hprs & _); [unfold BATCH_SIZE; lia|].
    rewrite Hrun. eexists. split; [reflexivity|]. exact Hprs.
  - intros fuel net api e. unfold analyzePRs.
    destruct (fetchAllPages fuel (searchIssues net)) as [prs|e'|];
      cbn [snd]; try congruence.
    pose proof (batchLoop_no_throw fuel net prs (length prs) 0 initialState e) as Hn.
    destruct (batchLoop fuel net (length prs) prs 0 initialState) as [reports r].
    destruct r; cbn [snd] in *; congruence.
Qed.

Lemma per_pr_failures_do_not_abort_witness :
  fetchPRComments 5 net1 7 = Return []
  /\ exists a : Analysis,
       snd (analyzePRs 5 net1 api1) = Return a
       /\ pullRequests a =
            omap (fun pr => settled (processPR 5 net1 pr)) [item 7; item 8].
Proof.
  destruct per_pr_failures_do_not_abort as (H1 & _ & H3 & _).
  split.
  - apply (H1 5 net1 7%Z). left. eexists. vm_compute. reflexivity.
  - apply (H3 5 net1 api1 [item 7; item 8]).
    + vm_compute. reflexivity.
    + intros pr Hpr. apply elem_of_cons in Hpr as [->|Hpr];
        [vm_compute; discriminate|].
      apply elem_of_cons in Hpr as [->|Hpr]; [vm_compute; discriminate|].
      apply elem_of_nil in Hpr. destruct Hpr.
Defined.

(** C9. With 45 pull requests the batch loop makes three turns, on the
    slices of 20, 20 and 5 pull requests that make up the list, and
    reports 20, 40 and 45 as [current]; and in every run of [analyzePRs]
    the values of [current] reported one after the other never
    decrease. *)
Theorem analyzePRs_45_in_three_batches :
  (forall (fuel : nat) (net : Network) (api : GitHubAPI) (filteredPRs : list SearchItem),
      length filteredPRs = 45 ->
      fetchAllPages fuel (searchIssues net) = Return filteredPRs ->
      settles fuel net filteredPRs ->
      (exists st : LoopState,
          batchLoop fuel net 45 filteredPRs 0 initialState =
            (reports_of 0 45 [20; 20; 5], Return st)
          /\ map length (batches st) = [20; 20; 5]
          /\ concat (batches st) = filteredPRs)
      /\ currents (fst (analyzePRs fuel net api)) = [20; 40; 45])
  /\ (forall (fuel : nat) (net : Network) (api : GitHubAPI) (j k cj ck : nat),
      j <= k ->
      currents (fst (analyzePRs fuel net api)) !! j = Some cj ->
      currents (fst (analyzePRs fuel net api)) !! k = Some ck ->
      cj <= ck).
Proof.
  split.
  - intros fuel net api prs Hlen Hsearch Hs.
    destruct (batchLoop_returns fuel net prs Hs 45 0 initialState)
      as (st & Hrun & _ & Hbatches); [rewrite Hlen; unfold BATCH_SIZE; lia|].
    cbn [initialState batches app] in Hbatches.
    rewrite drop_0 in Hrun, Hbatches.
    rewrite chunks_sizes, Hlen in Hrun.
    change (sizes 45 45) with [20; 20; 5] in Hrun.
    split.
    + exists st. split; [exact Hrun|]. rewrite Hbatches. split.
      * rewrite chunks_sizes, Hlen. reflexivity.
      * apply concat_chunks. rewrite Hlen. unfold BATCH_SIZE. lia.
    + unfold analyzePRs. rewrite Hsearch, Hlen, Hrun. reflexivity.
  - intros fuel net api j k cj ck.
    apply sorted_lookup_le, analyzePRs_currents.
Qed.

Lemma analyzePRs_45_in_three_batches_witness :
  currents (fst (analyzePRs 5 net45 api1)) = [20; 40; 45]
  /\ 20 <= 45.
Proof.
  destruct analyzePRs_45_in_three_batches as [H1 H2].
  split.
  - apply (H1 5 net45 api1 (map (fun i => item (Z.of_nat i)) (seq 1 45))).
    + reflexivity.
    + vm_compute. reflexivity.
    + intros pr _. vm_compute. discriminate.
  - apply (H2 5 net45 api1 0 2 20 45).
    + lia.
    + vm_compute. reflexivity.
    + vm_compute. reflexivity.
Defined.

(** * Further properties *)

(** ** Retrying a request *)

Section RetryProps.

Context {A : Type}.
Variable authenticated : bool.
Variable attempts : nat -> attempt A.

Lemma retryLoop_failed_turn (left i : nat) (tr : RetryTrace) (e : failure) :
  tryOnce authenticated (attempts i) = inl e ->
  retryLoop authenticated attempts (S (S left)) i tr =
    retryLoop authenticated attempts (S left) (S i) (after_failure attempts i tr).
Proof.
  intros He. change (retryLoop authenticated attempts (S (S left)) i tr)
    with (match tryOnce authenticated (attempts i) with
          | inr body =>
              (Body body,
               {| requests := S (requests tr); pauses := pauses tr;
                  rateLimitRemaining :=
                    match attempts i with
                    | Responds r => rl_remaining r
                    | Rejects => rateLimitRemaining tr
                    end |})
          | inl _ =>
              retryLoop authenticated attempts (S left) (S i) (after_failure attempts i tr)
          end).
  rewrite He. reflexivity.
Qed.

Lemma retryLoop_success (k : nat) :
  forall (left i : nat) (tr : RetryTrace) (body : A),
    (k < left)%nat ->
    (forall j, (j < k)%nat -> exists e, tryOnce authenticated (attempts (i + j)) = inl e) ->
    tryOnce authenticated (attempts (i + k)) = inr body ->
    let res := retryLoop authenticated attempts left i tr in
    fst res = Body body
    /\ requests (snd res) = (requests tr + S k)%nat
    /\ pauses (snd res) =
         pauses tr ++ map (fun j => (1000 * (Z.of_nat j + 1))%Z) (seq i k)
    /\ exists r, attempts (i + k) = Responds r
                 /\ rateLimitRemaining (snd res) = rl_remaining r.
Proof.
  induction k as [|k IH]; intros left i tr body Hk Hfail Hok; cbn zeta.
  - destruct left as [|left]; [lia|]. rewrite Nat.add_0_r in Hok.
    cbn [retryLoop]. rewrite Hok. cbn [fst snd requests pauses rateLimitRemaining seq map].
    rewrite app_nil_r. repeat split; [lia|].
    destruct (attempts i) as [|r] eqn:Ha; [discriminate|].
    exists r. rewrite Nat.add_0_r. split; [exact Ha|reflexivity].
  - destruct left as [|[|left]]; [lia|lia|].
    destruct (Hfail 0%nat) as [e He]; [lia|]. rewrite Nat.add_0_r in He.
    rewrite (retryLoop_failed_turn left i tr e He).
    destruct (IH (S left) (S i) (after_failure attempts i tr) body) as (H1 & H2 & H3 & r & H4 & H5).
    + lia.
    + intros j Hj. replace (S i + j)%nat with (i + S j)%nat by lia.
      apply Hfail. lia.
    + replace (S i + k)%nat with (i + S k)%nat by lia. exact Hok.
    + split; [exact H1|]. split; [rewrite H2; simpl; lia|].
      split.
      * rewrite H3. cbn [pauses after_failure seq map]. rewrite <- app_assoc. reflexivity.
      * exists r. split; [|exact H5].
        rewrite <- H4. f_equal. lia.
Qed.

Lemma retryLoop_exhausted (left : nat) :
  forall (i : nat) (tr : RetryTrace),
    (forall j, (j <= left)%nat -> exists e, tryOnce authenticated (attempts (i + j)) = inl e) ->
    let res := retryLoop authenticated attempts (S left) i tr in
    (exists e, tryOnce authenticated (attempts (i + left)) = inl e /\ fst res = Fails e)
    /\ requests (snd res) = (requests tr + S left)%nat
    /\ pauses (snd res) =
         pauses tr ++ map (fun j => (1000 * (Z.of_nat j + 1))%Z) (seq i left).
Proof.
  induction left as [|left IH]; intros i tr Hfail; cbn zeta.
  - destruct (Hfail 0%nat) as [e He]; [lia|]. rewrite Nat.add_0_r in He |- *.
    cbn [retryLoop]. rewrite He. cbn [fst snd requests pauses seq map].
    rewrite app_nil_r. split; [exists e; auto|]. split; [lia|reflexivity].
  - destruct (Hfail 0%nat) as [e He]; [lia|]. rewrite Nat.add_0_r in He.
    rewrite (retryLoop_failed_turn left i tr e He).
    destruct (IH (S i) (after_failure attempts i tr)) as ((e' & He' & H1) & H2 & H3).
    + intros j Hj. replace (S i + j)%nat with (i + S j)%nat by lia.
      apply Hfail. lia.
    + split; [|split].
      * exists e'. split; [|exact H1].
        replace (i + S left)%nat with (S i + left)%nat by lia. exact He'.
      * rewrite H2. simpl. lia.
      * rewrite H3. cbn [pauses after_failure seq map]. rewrite <- app_assoc. reflexivity.
Qed.

End RetryProps.

(** X1. [fetchWithRetry] returns the body of the first turn that does
    not throw: when the turns before [k] fail and turn [k] (below
    [retries]) gives a body, the call returns that body after exactly
    [k + 1] requests and pauses of 1000, 2000, ... ms before each retry,
    no request is made after it, and [rateLimitRemaining] is the header of
    that last response. *)
Theorem fetchWithRetry_first_success {A} (authenticated : bool)
    (attempts : nat -> attempt A) (retries : nat) (remaining0 : option jsstring)
    (k : nat) (body : A) :
  (k < retries)%nat ->
  fail_before authenticated attempts k ->
  tryOnce authenticated (attempts k) = inr body ->
  fst (fetchWithRetry authenticated attempts retries remaining0) = Body body
  /\ requests (snd (fetchWithRetry authenticated attempts retries remaining0)) = S k
  /\ pauses (snd (fetchWithRetry authenticated attempts retries remaining0)) =
       pauses_before k
  /\ exists r, attempts k = Responds r
       /\ rateLimitRemaining (snd (fetchWithRetry authenticated attempts retries remaining0))
          = rl_remaining r.
Proof.
  intros Hk Hfail Hok. unfold fetchWithRetry.
  apply (retryLoop_success authenticated attempts k retries 0
           {| requests := 0; pauses := []; rateLimitRemaining := remaining0 |} body Hk).
  - intros j Hj. apply Hfail, Hj.
  - exact Hok.
Qed.

(** X2. When every turn fails, [fetchWithRetry] throws the error of the
    last turn after exactly [retries] requests and [retries - 1] pauses of
    1000, 2000, ... ms.  Every kind of failure is retried alike: a 401, a
    403 or a 404 is thrown inside the [try] block and caught by the same
    [catch]. *)
Theorem fetchWithRetry_exhausted {A} (authenticated : bool)
    (attempts : nat -> attempt A) (retries : nat) (remaining0 : option jsstring) :
  (0 < retries)%nat ->
  fail_before authenticated attempts retries ->
  (exists e, tryOnce authenticated (attempts (retries - 1)) = inl e
             /\ fst (fetchWithRetry authenticated attempts retries remaining0) = Fails e)
  /\ requests (snd (fetchWithRetry authenticated attempts retries remaining0)) = retries
  /\ pauses (snd (fetchWithRetry authenticated attempts retries remaining0)) =
       pauses_before (retries - 1).
Proof.
  intros Hpos Hfail. unfold fetchWithRetry.
  destruct retries as [|left]; [lia|].
  replace (S left - 1)%nat with left by lia.
  apply (retryLoop_exhausted authenticated attempts left 0
           {| requests := 0; pauses := []; rateLimitRemaining := remaining0 |}).
  intros j Hj. apply Hfail. lia.
Qed.

Lemma fetchWithRetry_first_success_witness :
  fst (fetchWithRetry true flaky DEFAULT_RETRIES None) = Body 7%nat
  /\ requests (snd (fetchWithRetry true flaky DEFAULT_RETRIES None)) = 3%nat.
Proof.
  destruct (fetchWithRetry_first_success true flaky DEFAULT_RETRIES None 2 7%nat)
    as (H1 & H2 & _).
  - vm_compute. lia.
  - intros i Hi. destruct i as [|[|i]]; [eexists; reflexivity|eexists; reflexivity|lia].
  - reflexivity.
  - split; assumption.
Defined.

Lemma fetchWithRetry_exhausted_witness :
  fst (fetchWithRetry false unauthorized DEFAULT_RETRIES None) = Fails NotAuthenticated
  /\ requests (snd (fetchWithRetry false unauthorized DEFAULT_RETRIES None)) = 3%nat.
Proof.
  destruct (fetchWithRetry_exhausted false unauthorized DEFAULT_RETRIES None)
    as ((e & He & H1) & H2 & _).
  - vm_compute. lia.
  - intros i _. eexists. reflexivity.
  - split; [|exact H2]. rewrite H1. f_equal.
    vm_compute in He. injection He as <-. reflexivity.
Defined.

(** ** More on pagination *)

Section ArrayPages.

Context {A : Type}.
Variable fetchPage : Z -> outcome (response A).

(** Full pages of a bare array are gone through one after the other. *)
Lemma fetchLoop_full_pages (pages : list (list A)) :
  forall (fuel : nat) (page : Z) (results : list A) (requested : list Z),
    Forall (fun p => length p = 100%nat) pages ->
    (forall (i : nat) (p : list A),
        pages !! i = Some p -> fetchPage (page + Z.of_nat i)%Z = Return (Items p)) ->
    fetchLoop (length pages + fuel) fetchPage page results requested =
      fetchLoop fuel fetchPage (page + Z.of_nat (length pages))%Z
                (results ++ concat pages)
                (requested ++ map (fun i => (page + Z.of_nat i)%Z) (seq 0 (length pages))).
Proof.
  induction pages as [|p pages IH]; intros fuel page results requested Hfull Hserve.
  - cbn [length concat seq map Nat.add]. rewrite !app_nil_r, Z.add_0_r. reflexivity.
  - inversion Hfull as [|? ? Hp Hrest]; subst.
    cbn [length Nat.add fetchLoop].
    pose proof (Hserve 0%nat p eq_refl) as H0.
    change (Z.of_nat 0) with 0%Z in H0. rewrite Z.add_0_r in H0.
    rewrite H0. cbn [bind].
    rewrite Hp. cbn [Nat.ltb Nat.leb].
    change (Z.of_nat 100 =? per_page)%Z with true. cbn iota.
    rewrite (IH fuel (page + 1)%Z (results ++ p) (requested ++ [page])); [|exact Hrest|].
    + f_equal; [lia| |].
      * cbn [concat]. rewrite app_assoc. reflexivity.
      * rewrite <- app_assoc. f_equal. cbn [app].
        rewrite <- cons_seq, <- seq_shift, map_cons, map_map.
        rewrite Z.add_0_r. f_equal.
        apply map_ext. intros i. lia.
    + intros i q Hq. replace (page + 1 + Z.of_nat i)%Z with (page + Z.of_nat (S i))%Z by lia.
      apply Hserve. exact Hq.
Qed.

End ArrayPages.

Lemma seq_pages (n : nat) :
  map (fun i => (1 + Z.of_nat i)%Z) (seq 0 n) = map Z.of_nat (seq 1 n).
Proof.
  rewrite <- seq_shift, map_map. apply map_ext. intros i. lia.
Qed.

(** X3. On an endpoint that returns bare arrays, [fetchAllPages] stops
    at the first page with fewer than 100 items: when the pages before it
    hold exactly 100 items each, the call requests those pages and that
    one, once each and in order, and returns all their items in the order
    of the server. *)
Theorem fetchAllPages_bare_arrays {A} (fetchPage : Z -> outcome (response A))
    (pages : list (list A)) (last : list A) (fuel : nat) :
  Forall (fun p => length p = 100%nat) pages ->
  (length last < 100)%nat ->
  (forall (i : nat) (p : list A),
      pages !! i = Some p -> fetchPage (Z.of_nat (S i)) = Return (Items p)) ->
  fetchPage (Z.of_nat (S (length pages))) = Return (Items last) ->
  (length pages < fuel)%nat ->
  fetchAllPagesTrace fuel fetchPage =
    Return (concat pages ++ last, map Z.of_nat (seq 1 (S (length pages)))).
Proof.
  intros Hfull Hshort Hserve Hlast Hfuel. unfold fetchAllPagesTrace.
  replace fuel with (length pages + S (fuel - length pages - 1))%nat by lia.
  rewrite (fetchLoop_full_pages fetchPage pages); [|exact Hfull|].
  - cbn [fetchLoop app].
    replace (1 + Z.of_nat (length pages))%Z with (Z.of_nat (S (length pages))) by lia.
    rewrite Hlast. cbn [bind].
    rewrite seq_pages, seq_S, map_app. cbn [map Nat.add].
    destruct last as [|x last]; cbn [length Nat.ltb Nat.leb].
    + rewrite app_nil_r. reflexivity.
    + destruct (Z.of_nat (S (length last)) =? per_page)%Z eqn:E; [|reflexivity].
      apply Z.eqb_eq in E. unfold per_page in E. cbn [length] in Hshort. lia.
  - intros i p Hp. replace (1 + Z.of_nat i)%Z with (Z.of_nat (S i)) by lia.
    apply Hserve, Hp.
Qed.

Lemma fetchAllPages_bare_arrays_witness :
  fetchAllPagesTrace 5
    (fun p => if (p =? 1)%Z then Return (Items (replicate 100 0%nat))
              else Return (Items [1; 2; 3]%nat)) =
    Return (replicate 100 0%nat ++ [1; 2; 3]%nat, [1; 2]%Z).
Proof.
  apply (fetchAllPages_bare_arrays
           (fun p => if (p =? 1)%Z then Return (Items (replicate 100 0%nat))
                     else Return (Items [1; 2; 3]%nat))
           [replicate 100 0%nat] [1; 2; 3]%nat 5).
  - repeat constructor.
  - simpl. lia.
  - intros i p Hp. destruct i as [|i]; [|destruct i; discriminate].
    injection Hp as <-. reflexivity.
  - reflexivity.
  - simpl. lia.
Defined.

(** X4. When a page cannot be fetched, [fetchAllPages] throws the error
    of that page and the items of the full pages before it are not
    returned. *)
Theorem fetchAllPages_page_throws {A} (fetchPage : Z -> outcome (response A))
    (pages : list (list A)) (e : error) (fuel : nat) :
  Forall (fun p => length p = 100%nat) pages ->
  (forall (i : nat) (p : list A),
      pages !! i = Some p -> fetchPage (Z.of_nat (S i)) = Return (Items p)) ->
  fetchPage (Z.of_nat (S (length pages))) = Throw e ->
  (length pages < fuel)%nat ->
  fetchAllPages fuel fetchPage = Throw e.
Proof.
  intros Hfull Hserve Hlast Hfuel. unfold fetchAllPages, fetchAllPagesTrace.
  replace fuel with (length pages + S (fuel - length pages - 1))%nat by lia.
  rewrite (fetchLoop_full_pages fetchPage pages); [|exact Hfull|].
  - cbn [fetchLoop app].
    replace (1 + Z.of_nat (length pages))%Z with (Z.of_nat (S (length pages))) by lia.
    rewrite Hlast. reflexivity.
  - intros i p Hp. replace (1 + Z.of_nat i)%Z with (Z.of_nat (S i)) by lia.
    apply Hserve, Hp.
Qed.

Lemma fetchAllPages_page_throws_witness :
  fetchAllPages 5
    (fun p => if (p =? 1)%Z then Return (Items (replicate 100 0%nat))
              else Throw (NetworkError (js "GitHub API error: 502"))) =
    Throw (NetworkError (js "GitHub API error: 502")).
Proof.
  apply (fetchAllPages_page_throws
           (fun p => if (p =? 1)%Z then Return (Items (replicate 100 0%nat))
                     else Throw (NetworkError (js "GitHub API error: 502")))
           [replicate 100 0%nat] (NetworkError (js "GitHub API error: 502")) 5).
  - repeat constructor.
  - intros i p Hp. destruct i as [|i]; [|destruct i; discriminate].
    injection Hp as <-. reflexivity.
  - reflexivity.
  - simpl. lia.
Defined.

Lemma maxPagesOf_le_10 (total_count : Z) : (maxPagesOf total_count <= 10)%Z.
Proof.
  unfold maxPagesOf, per_page.
  assert (H : ((Z.min total_count 1000 + (100 - 1)) / 100 < 11)%Z); [|lia].
  apply Z.div_lt_upper_bound; lia.
Qed.

Section CappedPages.

Context {A : Type}.
Variable fetchPage : Z -> outcome (response A).

Hypothesis Henvelope : always_envelope fetchPage.

Lemma fetchLoop_capped (k : nat) :
  forall (fuel : nat) (page : Z) (results : list A) (requested : list Z),
    (S k <= fuel)%nat ->
    (1 <= page)%Z ->
    (page + Z.of_nat k)%Z = 10%Z ->
    exists (results' : list A) (more : list Z),
      fetchLoop fuel fetchPage page results requested =
        Return (results', requested ++ more)
      /\ (length more <= S k)%nat
      /\ Forall (fun p => (page <= p <= 10)%Z) more.
Proof.
  induction k as [|k IH]; intros fuel page results requested Hfuel Hpage Hlast;
    (destruct fuel as [|fuel]; [lia|]);
    destruct (Henvelope page) as (its & T & Hp);
    cbn [fetchLoop]; rewrite Hp; cbn [bind];
    pose proof (maxPagesOf_le_10 T) as Hcap;
    (destruct its as [|x its]; cbn [length Nat.ltb Nat.leb];
     [exists results, [page]; split; [reflexivity|];
      split; [simpl; lia|repeat constructor; lia]|]).
  - replace (page + 1 <=? maxPagesOf T)%Z with false
      by (symmetry; apply Z.leb_gt; lia).
    exists (results ++ x :: its), [page]. split; [reflexivity|].
    split; [simpl; lia|repeat constructor; lia].
  - destruct (page + 1 <=? maxPagesOf T)%Z.
    + destruct (IH fuel (page + 1)%Z (results ++ x :: its) (requested ++ [page]))
        as (results' & more & Hr & Hlen & Hall); [lia|lia|lia|].
      exists results', (page :: more). rewrite Hr. split.
      * rewrite <- app_assoc. reflexivity.
      * split; [simpl; lia|]. constructor; [lia|].
        eapply Forall_impl; [exact Hall|]. intros p Hp'. simpl in Hp'. lia.
    + exists (results ++ x :: its), [page]. split; [reflexivity|].
      split; [simpl; lia|repeat constructor; lia].
Qed.

End CappedPages.

(** X5. Against a server whose every answer is a search envelope with a
    [total_count], [fetchAllPages] returns after at most ten requests,
    all for pages between 1 and 10, whatever the totals and however many
    items the pages hold: page 11 is never requested. *)
Theorem fetchAllPages_never_page_11 {A} (fetchPage : Z -> outcome (response A))
    (fuel : nat) :
  always_envelope fetchPage ->
  (10 <= fuel)%nat ->
  exists (results : list A) (requested : list Z),
    fetchAllPagesTrace fuel fetchPage = Return (results, requested)
    /\ (length requested <= 10)%nat
    /\ Forall (fun p => (1 <= p <= 10)%Z) requested.
Proof.
  intros Henv Hfuel. unfold fetchAllPagesTrace.
  destruct (fetchLoop_capped fetchPage Henv 9 fuel 1 [] [])
    as (results & more & Hr & Hlen & Hall); [lia|lia|lia|].
  exists results, more. split; [exact Hr|]. split; [exact Hlen|exact Hall].
Qed.

Lemma fetchAllPages_never_page_11_witness :
  exists (results : list nat) (requested : list Z),
    fetchAllPagesTrace 20
      (fun _ => Return (Envelope (replicate 100 0%nat) (Some 250000%Z))) =
      Return (results, requested)
    /\ (length requested <= 10)%nat.
Proof.
  destruct (fetchAllPages_never_page_11
              (fun _ : Z => Return (Envelope (replicate 100 0%nat) (Some 250000%Z))) 20)
    as (results & requested & Hr & Hlen & _).
  - intros p. exists (replicate 100 0%nat), 250000%Z. reflexivity.
  - lia.
  - exists results, requested. split; assumption.
Defined.

(** ** What the collector and the orchestrator return *)

Lemma filterM_Forall {A} (p : A -> outcome bool) (l : list A) :
  forall r, filterM p l = Return r -> Forall (fun x => p x = Return true) r.
Proof.
  induction l as [|x l IH]; intros r; cbn [filterM].
  - intros [= <-]. constructor.
  - destruct (p x) as [b| |] eqn:Hp; cbn [bind]; try discriminate.
    destruct (filterM p l) as [r'| |]; cbn [bind]; try discriminate.
    intros [= <-]. specialize (IH r' eq_refl).
    destruct b; [constructor; assumption|exact IH].
Qed.

Lemma byCodeRabbit_true (c : Comment) :
  byCodeRabbit c = Return true -> c_user c = Some CODERABBIT_USERNAME.
Proof.
  unfold byCodeRabbit. destruct (c_user c) as [login|]; [|discriminate].
  intros [= H]. unfold str_eqb in H. apply bool_decide_eq_true in H. congruence.
Qed.

(** X6. Every comment [fetchPRComments] returns is authored by the
    exact login [coderabbitai[bot]]: each of the three sources is filtered
    on the login before they are merged. *)
Theorem fetchPRComments_only_bot (fuel : nat) (net : Network) (prNumber : Z)
    (comments : list Comment) :
  fetchPRComments fuel net prNumber = Return comments ->
  Forall (fun c => c_user c = Some CODERABBIT_USERNAME) comments.
Proof.
  unfold fetchPRComments, fetchPRComments_body.
  destruct (promise_all3 _ _ _) as [[[reviews reviewComments] issueComments]|e|];
    cbn [bind try_catch]; [|intros [= <-]; constructor|discriminate].
  destruct (filterM _ reviews) as [r1|e|] eqn:H1; cbn [bind try_catch];
    [|intros [= <-]; constructor|discriminate].
  destruct (filterM byCodeRabbit reviewComments) as [r2|e|] eqn:H2;
    cbn [bind try_catch]; [|intros [= <-]; constructor|discriminate].
  destruct (filterM byCodeRabbit issueComments) as [r3|e|] eqn:H3;
    cbn [bind try_catch]; [|intros [= <-]; constructor|discriminate].
  intros [= <-].
  apply filterM_Forall in H1, H2, H3.
  rewrite !Forall_app. repeat split.
  - eapply Forall_impl; [exact H1|]. intros c Hc. cbn beta in Hc.
    apply byCodeRabbit_true.
    destruct (byCodeRabbit c) as [b| |]; cbn [bind] in Hc; try discriminate.
    injection Hc as Hc. apply andb_true_iff in Hc as [-> _]. reflexivity.
  - eapply Forall_impl; [exact H2|]. intros c. apply byCodeRabbit_true.
  - eapply Forall_impl; [exact H3|]. intros c. apply byCodeRabbit_true.
Qed.

Lemma fetchPRComments_only_bot_witness :
  Forall (fun c => c_user c = Some CODERABBIT_USERNAME) [comment1].
Proof.
  apply (fetchPRComments_only_bot 5 net1 8 [comment1]).
  vm_compute. reflexivity.
Defined.

Lemma issueOfComment_acceptance (threads : list Thread) (comment : Comment)
    (issue : Issue) :
  issueOfComment threads comment = Some issue ->
  resolved_or_open issue /\ url issue = c_html_url comment.
Proof.
  unfold issueOfComment.
  destruct (parseActionableIssue (c_body comment)) as [parsed|] eqn:Hp; [|discriminate].
  destruct (parseActionableIssue_not_accepted _ _ Hp) as [Ha Hm].
  intros [= <-]. split; [|reflexivity]. unfold resolved_or_open. cbn.
  destruct (List.find _ threads) as [thread|]; [destruct (isResolved thread)|]; auto.
Qed.

Lemma processPR_ok (fuel : nat) (net : Network) (item : SearchItem) (pr : PullRequest) :
  processPR fuel net item = Return (Some pr) ->
  pr_ok pr /\ pr_number pr = si_number item.
Proof.
  unfold processPR, processPR_body.
  destruct (promise_all2 _ _) as [[comments threads]|e|]; cbn [bind try_catch];
    try discriminate.
  destruct (length comments =? 0)%nat; cbn [try_catch]; [discriminate|].
  destruct (omap (issueOfComment threads) comments) as [|i0 issues] eqn:Hi;
    cbn [length Nat.ltb Nat.leb try_catch]; [discriminate|].
  destruct (si_user item); cbn [try_catch]; [|discriminate].
  intros [= <-]. split; [|reflexivity]. split; cbn; [discriminate|].
  rewrite <- Hi. apply Forall_forall. intros issue Hin.
  apply list_elem_of_omap in Hin as (c & _ & Hc).
  apply (issueOfComment_acceptance threads c issue Hc).
Qed.

Lemma all_values_Forall2 {A} (l : list (outcome A)) :
  forall v, all_values l = Return v -> Forall2 (fun o x => o = Return x) l v.
Proof.
  induction l as [|o l IH]; intros v; cbn [all_values].
  - intros [= <-]. constructor.
  - destruct o as [a| |]; cbn [bind]; try discriminate.
    destruct (all_values l) as [v'| |]; cbn [bind]; try discriminate.
    intros [= <-]. constructor; [reflexivity|apply IH; reflexivity].
Qed.

Lemma promise_all_Forall2 {A} (l : list (outcome A)) (v : list A) :
  promise_all l = Return v -> Forall2 (fun o x => o = Return x) l v.
Proof.
  unfold promise_all. destruct (first_throw l); [discriminate|].
  apply all_values_Forall2.
Qed.

Lemma allIssues_app (l1 l2 : list PullRequest) :
  allIssues (l1 ++ l2) = allIssues l1 ++ allIssues l2.
Proof. unfold allIssues. apply bind_app. Qed.

Lemma totalIssues_fold (found : list PullRequest) :
  forall n : nat,
    fold_left (fun n r => (n + length (actionableIssues r))%nat) found n =
      (n + length (allIssues found))%nat.
Proof.
  induction found as [|r found IH]; intros n; cbn [fold_left].
  - simpl. lia.
  - rewrite IH. change (r :: found) with ([r] ++ found).
    rewrite allIssues_app, length_app. unfold allIssues at 2. simpl.
    rewrite app_nil_r. lia.
Qed.

Lemma batchLoop_ok (fuel : nat) (net : Network) (filteredPRs : list SearchItem)
    (turns : nat) :
  forall (i : nat) (st st' : LoopState) (reports : list Progress),
    batchLoop fuel net turns filteredPRs i st = (reports, Return st') ->
    loop_ok st ->
    loop_ok st'
    /\ (length (prsWithIssues st') <=
          length (prsWithIssues st) + (length filteredPRs - i))%nat.
Proof.
  induction turns as [|t IH]; intros i st st' reports; cbn [batchLoop];
    destruct (i <? length filteredPRs)%nat eqn:Hi;
    try (intros [= _ <-]; intros Hok; split; [exact Hok|lia]);
    try discriminate.
  apply Nat.ltb_lt in Hi.
  destruct (promise_all _) as [v|e|] eqn:Hall; try discriminate.
  destruct (batchLoop fuel net t filteredPRs _ _) as [reports' r] eqn:Hrun.
  intros [= _ ->] [Htotal Hprs].
  apply promise_all_Forall2 in Hall.
  assert (Hv : Forall (fun o => forall pr, o = Some pr -> pr_ok pr) v
               /\ length v = length (take BATCH_SIZE (drop i filteredPRs))).
  { split.
    - apply Forall2_fmap_l in Hall.
      clear -Hall. induction Hall as [|item o items v Ho Hrest IHv]; constructor.
      + intros pr ->. apply (processPR_ok fuel net item pr Ho).
      + exact IHv.
    - apply Forall2_length in Hall. rewrite length_fmap in Hall. lia. }
  destruct Hv as [Hv Hlen].
  assert (Hfound : Forall pr_ok (omap id v) /\ (length (omap id v) <= length v)%nat).
  { clear -Hv. induction Hv as [|o v Ho Hrest IHv]; [split; [constructor|simpl; lia]|].
    destruct IHv as [IH1 IH2]. destruct o as [pr|]; cbn.
    - split; [constructor; [apply Ho; reflexivity|exact IH1]|lia].
    - split; [exact IH1|lia]. }
  destruct Hfound as [Hfound Hflen].
  destruct (IH _ _ _ _ Hrun) as [Hok' Hbound].
  - split; cbn [collectResults totalIssues prsWithIssues].
    + rewrite totalIssues_fold, allIssues_app, length_app. lia.
    + apply Forall_app. split; assumption.
  - split; [exact Hok'|].
    cbn [collectResults prsWithIssues] in Hbound. rewrite length_app in Hbound.
    rewrite length_take, length_drop in Hlen. unfold BATCH_SIZE in *. lia.
Qed.

(** X7. Whenever [analyzePRs] returns, its summary agrees with its
    list: the number of pull requests with issues is the length of the
    list and is at most the number of pull requests found, the number of
    issues is the number of issues in the list, every pull request listed
    has at least one issue, and every issue is either accepted with method
    "graphql" or not accepted with no method. *)
Theorem analyzePRs_summary_consistent (fuel : nat) (net : Network) (api : GitHubAPI)
    (a : Analysis) :
  snd (analyzePRs fuel net api) = Return a ->
  totalPRsWithActionableIssues (summary a) = length (pullRequests a)
  /\ totalActionableIssues (summary a) = length (allIssues (pullRequests a))
  /\ (length (pullRequests a) <= totalPRs (summary a))%nat
  /\ Forall (fun pr => actionableIssues pr <> []) (pullRequests a)
  /\ Forall resolved_or_open (allIssues (pullRequests a)).
Proof.
  unfold analyzePRs.
  destruct (fetchAllPages fuel (searchIssues net)) as [prs|e|]; cbn [snd];
    try discriminate.
  destruct (batchLoop fuel net (length prs) prs 0 initialState) as [reports r] eqn:Hrun.
  destruct r as [st|e|]; cbn [snd]; try discriminate.
  intros [= <-]. cbn [summary pullRequests totalPRsWithActionableIssues
                      totalActionableIssues totalPRs].
  destruct (batchLoop_ok fuel net prs (length prs) 0 initialState st reports Hrun)
    as [[Htotal Hprs] Hbound].
  { split; [reflexivity|constructor]. }
  split; [reflexivity|]. split; [exact Htotal|].
  split; [cbn in Hbound; lia|]. split.
  - eapply Forall_impl; [exact Hprs|]. intros pr [Hne _]. exact Hne.
  - unfold allIssues. apply Forall_bind.
    eapply Forall_impl; [exact Hprs|]. intros pr [_ Hall]. exact Hall.
Qed.

Lemma analyzePRs_summary_consistent_witness :
  exists a : Analysis,
    snd (analyzePRs 5 net1 api1) = Return a
    /\ totalPRsWithActionableIssues (summary a) = length (pullRequests a)
    /\ totalActionableIssues (summary a) = 1%nat.
Proof.
  eexists. split; [vm_compute; reflexivity|].
  match goal with |- context [summary ?a] =>
    destruct (analyzePRs_summary_consistent 5 net1 api1 a) as (H1 & H2 & _)
  end.
  - vm_compute. reflexivity.
  - split; [exact H1|]. rewrite H2. reflexivity.
Defined.

(** ** The range of the similarity *)

Lemma ratio_range (i u : nat) :
  (i <= u)%nat -> (0 < u)%nat -> (0 <= ratio i u)%Q /\ (ratio i u <= 1)%Q.
Proof.
  intros Hiu Hu. unfold ratio. split.
  - apply Qle_shift_div_l.
    + unfold Qlt. simpl. lia.
    + unfold Qle. simpl. lia.
  - apply Qle_shift_div_r.
    + unfold Qlt. simpl. lia.
    + unfold Qle. simpl. lia.
Qed.

Lemma ratio_numerator (i u : nat) (q : Z) :
  (0 < u)%nat -> (ratio i u == inject_Z q)%Q -> Z.of_nat i = (q * Z.of_nat u)%Z.
Proof.
  intros Hu H. unfold ratio in H.
  assert (Hnz : ~ (inject_Z (Z.of_nat u) == 0)%Q) by (unfold Qeq; simpl; lia).
  pose proof (Qmult_div_r (inject_Z (Z.of_nat i)) _ Hnz) as Hm.
  rewrite H in Hm. rewrite <- inject_Z_mult in Hm.
  assert (Z.of_nat u * q = Z.of_nat i)%Z by (apply inject_Z_injective; exact Hm).
  lia.
Qed.

Lemma size_intersection_union (X Y : gset jsstring) :
  (size (X ∩ Y) <= size (X ∪ Y))%nat.
Proof.
  apply subseteq_size. intros w. rewrite elem_of_intersection, elem_of_union. tauto.
Qed.

Lemma size_union_pos_l (X Y : gset jsstring) :
  (0 < size X)%nat -> (0 < size (X ∪ Y))%nat.
Proof.
  intros H. assert (size X <= size (X ∪ Y))%nat; [|lia].
  apply subseteq_size. intros w. rewrite elem_of_union. tauto.
Qed.

(** X8. The similarity of two titles is a number between 0 and 1 (the
    union of the two sets of words is never empty, so the quotient is
    never 0/0); it is 1 exactly when the two titles have the same set of
    words, and 0 exactly when they have no word in common. *)
Theorem calculateSimilarity_range (a b : jsstring) :
  ((0 <= calculateSimilarity a b)%Q /\ (calculateSimilarity a b <= 1)%Q)
  /\ ((calculateSimilarity a b == 1)%Q <-> words a = words b)
  /\ ((calculateSimilarity a b == 0)%Q <-> words a ## words b).
Proof.
  unfold calculateSimilarity. rewrite intersection_inter. unfold union.
  pose proof (size_intersection_union (words a) (words b)) as Hle.
  pose proof (size_union_pos_l (words a) (words b) (words_nonempty a)) as Hpos.
  split; [apply ratio_range; assumption|]. split.
  - split.
    + intros H. apply (ratio_numerator _ _ 1 Hpos) in H.
      assert (Heq : words a ∩ words b = words a ∪ words b).
      { apply set_subseteq_size_eq; [|lia].
        intros w. rewrite elem_of_intersection, elem_of_union. tauto. }
      apply set_eq. intros w.
      assert (Hw : w ∈ words a ∩ words b <-> w ∈ words a ∪ words b)
        by (rewrite Heq; reflexivity).
      rewrite elem_of_intersection, elem_of_union in Hw. tauto.
    + intros ->. rewrite (idemp_L (∩)), (idemp_L (∪)).
      apply ratio_same, words_nonempty.
  - split.
    + intros H. apply (ratio_numerator _ _ 0 Hpos) in H.
      apply disjoint_intersection_L, leibniz_equiv, size_empty_iff. lia.
    + intros H. apply disjoint_intersection_L in H. rewrite H, size_empty.
      unfold ratio. simpl. unfold Qdiv. rewrite Qmult_0_l. reflexivity.
Qed.

(** ** What the clustering keeps *)

Section SortingMore.

Context {A : Type} (key : A -> nat).

Lemma insert_desc_perm (x : A) (l : list A) : insert_desc key x l ≡ₚ x :: l.
Proof.
  induction l as [|y l IH]; simpl; [reflexivity|].
  destruct (key y <=? key x)%nat; [reflexivity|].
  rewrite IH. apply perm_swap.
Qed.

Lemma sort_desc_perm (l : list A) : sort_desc key l ≡ₚ l.
Proof.
  unfold sort_desc. induction l as [|x l IH]; simpl; [reflexivity|].
  rewrite insert_desc_perm, IH. reflexivity.
Qed.

Lemma insert_desc_descending (x : A) (l : list A) :
  descending key l -> descending key (insert_desc key x l).
Proof.
  unfold descending. induction 1 as [|y l Hs IH Hall]; simpl.
  - repeat constructor.
  - destruct (key y <=? key x)%nat eqn:E.
    + apply Nat.leb_le in E. constructor; [constructor; assumption|].
      constructor; [exact E|].
      eapply Forall_impl; [exact Hall|]. intros z Hz. simpl in Hz. lia.
    + apply Nat.leb_gt in E. constructor; [exact IH|].
      apply insert_desc_Forall; [lia|exact Hall].
Qed.

Lemma sort_desc_descending (l : list A) : descending key (sort_desc key l).
Proof.
  unfold sort_desc. induction l as [|x l IH]; simpl.
  - constructor.
  - apply insert_desc_descending, IH.
Qed.

End SortingMore.

Lemma snd_imap {A} (l : list A) :
  forall f : nat -> nat, map snd (imap (fun i x => (f i, x)) l) = l.
Proof.
  induction l as [|x l IH]; intros f; [reflexivity|].
  rewrite imap_cons. cbn [map snd]. f_equal. apply (IH (f ∘ S)).
Qed.

Lemma snd_indexed {A} (l : list A) : map snd (indexed l) = l.
Proof. exact (snd_imap l id). Qed.

Lemma fst_imap {A} (l : list A) :
  forall n : nat, map fst (imap (fun i x => ((n + i)%nat, x)) l) = seq n (length l).
Proof.
  induction l as [|x l IH]; intros n; [reflexivity|].
  rewrite imap_cons. cbn [map fst length seq]. rewrite Nat.add_0_r. f_equal.
  rewrite <- (IH (S n)). f_equal. apply imap_ext. intros i y _. simpl.
  f_equal. lia.
Qed.

Lemma fst_indexed {A} (l : list A) : map fst (indexed l) = seq 0 (length l).
Proof. exact (fst_imap l 0%nat). Qed.

Lemma indexed_lookup {A} (l : list A) (k : nat) (it : nat * A) :
  indexed l !! k = Some it -> fst it = k.
Proof.
  unfold indexed. rewrite list_lookup_imap.
  destruct (l !! k); [|discriminate]. intros [= <-]. reflexivity.
Qed.

Lemma indexed_drop_gt {A} (l : list A) (i : nat) (it : nat * A) :
  it ∈ drop (S i) (indexed l) -> it ∈ indexed l /\ (i < fst it)%nat.
Proof.
  intros Hin. split; [exact (subseteq_drop _ _ _ Hin)|].
  apply list_elem_of_lookup in Hin as [k Hk]. rewrite lookup_drop in Hk.
  apply indexed_lookup in Hk. lia.
Qed.

Lemma chosen_all (used : gset nat) (l : list (nat * TitleEntry)) :
  Forall (fun it => fst it ∈ used) l -> chosen used l = map snd l.
Proof.
  unfold chosen. induction 1 as [|it l Hit Hl IH]; [reflexivity|].
  rewrite filter_cons_True by exact Hit. cbn [map]. f_equal. exact IH.
Qed.

Lemma chosen_same (used used' : gset nat) (l : list (nat * TitleEntry)) :
  Forall (fun it => fst it ∈ used <-> fst it ∈ used') l ->
  chosen used l = chosen used' l.
Proof.
  unfold chosen. induction 1 as [|it l Hit Hl IH]; [reflexivity|].
  destruct (decide (fst it ∈ used)) as [Hin|Hout].
  - rewrite !filter_cons_True by tauto. cbn [map]. f_equal. exact IH.
  - rewrite !filter_cons_False by tauto. exact IH.
Qed.

(** Marking one more index adds its title, once. *)
Lemma chosen_insert (used : gset nat) (l : list (nat * TitleEntry))
    (j : nat) (t : TitleEntry) :
  NoDup (map fst l) -> (j, t) ∈ l -> j ∉ used ->
  chosen ({[ j ]} ∪ used) l ≡ₚ t :: chosen used l.
Proof.
  induction l as [|[k x] l IH]; intros Hnd Hin Hj.
  - apply elem_of_nil in Hin. destruct Hin.
  - cbn [map fst] in Hnd. apply NoDup_cons in Hnd as [Hk Hnd].
    apply elem_of_cons in Hin as [Heq|Hin].
    + injection Heq as <- <-. unfold chosen.
      rewrite filter_cons_True
        by (cbn; apply elem_of_union; left; apply elem_of_singleton; reflexivity).
      rewrite (filter_cons_False _ (j, t)) by (cbn; exact Hj).
      cbn [map snd]. constructor.
      change (chosen ({[ j ]} ∪ used) l ≡ₚ chosen used l).
      rewrite (chosen_same ({[ j ]} ∪ used) used); [reflexivity|].
      apply Forall_forall. intros it Hit.
      assert (fst it <> j).
      { intros <-. apply Hk. apply list_elem_of_fmap. exists it. auto. }
      rewrite elem_of_union, elem_of_singleton. tauto.
    + assert (Hkj : k <> j).
      { intros ->. apply Hk. apply list_elem_of_fmap. exists (j, t). auto. }
      specialize (IH Hnd Hin Hj). unfold chosen in *.
      destruct (decide (k ∈ used)) as [Hku|Hku].
      * rewrite !filter_cons_True
          by (cbn; try (apply elem_of_union; right); exact Hku).
        cbn [map snd]. rewrite IH. apply perm_swap.
      * rewrite !filter_cons_False
          by (cbn; rewrite ?elem_of_union, ?elem_of_singleton; tauto).
        exact IH.
Qed.

(** A turn of the inner loop leaves the group as it is, or takes a
    similar title that was not marked. *)
Lemma absorb_cases (title : TitleEntry) (g : TitleGroup) (used : gset nat)
    (j : nat) (tj : TitleEntry) :
  absorb title (g, used) (j, tj) = (g, used)
  \/ ((j ∉ used) /\ similar_to title tj
      /\ absorb title (g, used) (j, tj) =
           ({| mainTitle := mainTitle g;
               totalCount := totalCount g + te_count tj;
               items := items g ++ [tj];
               allOccurrences := allOccurrences g ++ te_occurrences tj |},
            {[ j ]} ∪ used)).
Proof.
  unfold absorb.
  destruct (bool_decide (j ∈ used)) eqn:Hused; [left; reflexivity|].
  apply bool_decide_eq_false in Hused.
  destruct (Qle_bool _ _) eqn:Hsim; [|left; reflexivity].
  apply Qle_bool_iff in Hsim. right. auto.
Qed.

Section Clustering.

Variable titles : list TitleEntry.

Local Abbreviation L := (indexed titles).

Lemma indexed_NoDup : NoDup (map fst L).
Proof. rewrite fst_indexed. apply NoDup_seq. Qed.

(** The inner loop keeps the representative in front, takes only
    similar titles, and marks exactly the titles it takes. *)
Lemma absorb_fold (i : nat) (title : TitleEntry) (prev : list TitleEntry)
    (l : list (nat * TitleEntry)) :
  Forall (fun jt => jt ∈ L /\ (i < fst jt)%nat) l ->
  forall (g : TitleGroup) (used : gset nat),
    built_around title g ->
    prev ++ items g ≡ₚ chosen ({[ i ]} ∪ used) L ->
    let res := fold_left (absorb title) l (g, used) in
    built_around title (fst res)
    /\ prev ++ items (fst res) ≡ₚ chosen ({[ i ]} ∪ snd res) L
    /\ used ⊆ snd res.
Proof.
  induction 1 as [|[j tj] l [Hj Hij] Hl IH]; intros g used Hb Hperm; cbn zeta.
  - cbn [fold_left fst snd]. auto.
  - cbn [fold_left].
    destruct (absorb_cases title g used j tj) as [->|(Hused & Hsim & ->)];
      [apply IH; assumption|].
    match goal with |- context [fold_left _ l (?g', ?u')] =>
      destruct (IH g' u') as (H1 & H2 & H3) end.
    + destruct Hb as (members & Hitems & Hmain & Hsimilar & Hcount & Hoccs).
      exists (members ++ [tj]). cbn [items mainTitle totalCount allOccurrences].
      rewrite Hitems. split; [reflexivity|]. split; [exact Hmain|].
      split; [apply Forall_app; split; [exact Hsimilar|repeat constructor; exact Hsim]|].
      split.
      * rewrite Hcount, Hitems. change (title :: members ++ [tj])
          with ((title :: members) ++ [tj]).
        rewrite sum_list_with_app. simpl. lia.
      * rewrite Hoccs, Hitems. change (title :: members ++ [tj])
          with ((title :: members) ++ [tj]).
        rewrite bind_app. simpl. rewrite app_nil_r. reflexivity.
    + cbn [items].
      replace ({[ i ]} ∪ ({[ j ]} ∪ used)) with ({[ j ]} ∪ ({[ i ]} ∪ used))
        by (apply set_eq; intros w; rewrite !elem_of_union; tauto).
      rewrite chosen_insert; [|apply indexed_NoDup|exact Hj|].
      * rewrite app_assoc, <- Hperm. rewrite <- Permutation_cons_append. reflexivity.
      * cbn in Hij. rewrite elem_of_union, elem_of_singleton. intros [->|Hu]; [lia|tauto].
    + split; [exact H1|]. split; [exact H2|].
      intros w Hw. apply H3. apply elem_of_union. right. exact Hw.
Qed.

Lemma open_group_step (st : list TitleGroup * gset nat) (it : nat * TitleEntry) :
  it ∈ L -> outer_ok L st ->
  outer_ok L (open_group L st it)
  /\ snd st ⊆ snd (open_group L st it)
  /\ fst it ∈ snd (open_group L st it).
Proof.
  destruct st as [groups used], it as [i t]. unfold outer_ok. intros Hin [Hbuilt Hperm].
  cbn [fst snd] in *. unfold open_group.
  destruct (bool_decide (i ∈ used)) eqn:Hused.
  - apply bool_decide_eq_true in Hused. cbn [fst snd].
    split; [split; assumption|]. split; [reflexivity|exact Hused].
  - apply bool_decide_eq_false in Hused.
    pose (g0 := {| mainTitle := te_title t; totalCount := te_count t;
                   items := [t]; allOccurrences := te_occurrences t |}).
    destruct (absorb_fold i t (groups ≫= items) (drop (S i) L)) with (g := g0) (used := used)
      as (H1 & H2 & H3).
    + apply Forall_forall. intros jt Hjt. apply indexed_drop_gt. exact Hjt.
    + exists []. cbn. split; [reflexivity|]. split; [reflexivity|].
      split; [constructor|]. split; [lia|]. rewrite app_nil_r. reflexivity.
    + cbn [items g0]. rewrite chosen_insert;
        [|apply indexed_NoDup|exact Hin|exact Hused].
      rewrite <- Hperm. rewrite <- Permutation_cons_append. reflexivity.
    + fold g0. destruct (fold_left (absorb t) (drop (S i) L) (g0, used)) as [g used'].
      cbn [fst snd] in *. split; [split|split].
      * apply Forall_app. split; [exact Hbuilt|]. repeat constructor.
        exists t. exact H1.
      * rewrite bind_app. simpl. rewrite app_nil_r. exact H2.
      * intros w Hw. apply elem_of_union. right. apply H3, Hw.
      * apply elem_of_union. left. apply elem_of_singleton. reflexivity.
Qed.

Lemma open_group_fold (l : list (nat * TitleEntry)) :
  Forall (fun it => it ∈ L) l ->
  forall st, outer_ok L st ->
    let res := fold_left (open_group L) l st in
    outer_ok L res /\ snd st ⊆ snd res /\ Forall (fun it => fst it ∈ snd res) l.
Proof.
  induction 1 as [|it l Hit Hl IH]; intros st Hst; cbn zeta.
  - cbn [fold_left]. split; [exact Hst|]. split; [reflexivity|constructor].
  - cbn [fold_left].
    destruct (open_group_step st it Hit Hst) as (H1 & H2 & H3).
    destruct (IH _ H1) as (H4 & H5 & H6).
    split; [exact H4|]. split; [intros w Hw; apply H5, H2, Hw|].
    constructor; [apply H5, H3|exact H6].
Qed.

Lemma groups_before_sort :
  let groups := fst (fold_left (open_group L) L ([], ∅)) in
  Forall group_built groups /\ (groups ≫= items) ≡ₚ titles.
Proof.
  cbn zeta.
  destruct (open_group_fold L) with (st := (([] : list TitleGroup), (∅ : gset nat)))
    as ([Hbuilt Hperm] & _ & Hall).
  - apply Forall_forall. auto.
  - split; [constructor|]. cbn. unfold chosen.
    induction L as [|it l IHl]; [reflexivity|].
    rewrite filter_cons_False by apply not_elem_of_empty. exact IHl.
  - split; [exact Hbuilt|]. rewrite Hperm, (chosen_all _ _ Hall).
    rewrite snd_indexed. reflexivity.
Qed.

End Clustering.

Lemma sum_list_with_bind {A B} (f : B -> nat) (g : A -> list B) (l : list A) :
  sum_list_with f (l ≫= g) = sum_list_with (fun x => sum_list_with f (g x)) l.
Proof.
  induction l as [|x l IH]; [reflexivity|].
  cbn [mbind list_bind]. change ((x :: l) ≫= g) with (g x ++ (l ≫= g)).
  rewrite sum_list_with_app, IH. reflexivity.
Qed.

Lemma groupSimilarTitles_perm (titles : list TitleEntry) :
  (groupSimilarTitles titles ≫= items) ≡ₚ titles.
Proof.
  unfold groupSimilarTitles. rewrite sort_desc_perm.
  apply (groups_before_sort titles).
Qed.

Lemma groupSimilarTitles_built (titles : list TitleEntry) :
  Forall group_built (groupSimilarTitles titles).
Proof.
  unfold groupSimilarTitles. apply sort_desc_Forall.
  apply (groups_before_sort titles).
Qed.

(** X9. The clustering is a partition of the titles: the members of the
    groups [groupSimilarTitles] returns are the given titles, each one in
    exactly one group, and the [totalCount]s of the groups add up to the
    counts of the titles. *)
Theorem groupSimilarTitles_partition (titles : list TitleEntry) :
  (groupSimilarTitles titles ≫= items) ≡ₚ titles
  /\ sum_list_with totalCount (groupSimilarTitles titles) =
       sum_list_with te_count titles.
Proof.
  pose proof (groupSimilarTitles_perm titles) as Hperm.
  pose proof (groupSimilarTitles_built titles) as Hbuilt.
  split; [exact Hperm|].
  transitivity (sum_list_with te_count (groupSimilarTitles titles ≫= items)).
  - rewrite sum_list_with_bind. clear Hperm.
    induction Hbuilt as [|g gs Hg Hrest IH]; [reflexivity|].
    cbn [sum_list_with]. rewrite IH.
    destruct Hg as (rep & members & _ & _ & _ & Hcount & _).
    rewrite Hcount. reflexivity.
  - rewrite Hperm. reflexivity.
Qed.

(** X10. Every group [groupSimilarTitles] returns starts with its
    representative, whose title is the title of the group; every other
    member has a similarity of at least 0.6 with the representative
    (members are not compared with each other); and the count and the
    occurrences of the group are the sum of the counts and the
    occurrences of its members, in order. *)
Theorem groupSimilarTitles_representative (titles : list TitleEntry) :
  Forall (fun g =>
            exists (rep : TitleEntry) (members : list TitleEntry),
              items g = rep :: members
              /\ mainTitle g = te_title rep
              /\ Forall (fun t => (SIMILARITY_THRESHOLD <=
                                     calculateSimilarity (mainTitle g) (te_title t))%Q)
                        members
              /\ totalCount g = sum_list_with te_count (items g)
              /\ allOccurrences g = items g ≫= te_occurrences)
         (groupSimilarTitles titles).
Proof.
  eapply Forall_impl; [apply groupSimilarTitles_built|].
  intros g (rep & members & H1 & H2 & H3 & H4 & H5).
  exists rep, members. rewrite H2. auto.
Qed.

(** ** From the issues to the groups *)

Lemma append_to_perm (t : jsstring) (occ : Occurrence) (d : Dict) :
  (append_to t occ d ≫= snd) ≡ₚ occ :: (d ≫= snd).
Proof.
  induction d as [|[k v] d IH]; cbn [append_to].
  - reflexivity.
  - destruct (str_eqb k t).
    + change (((k, v ++ [occ]) :: d) ≫= snd) with ((v ++ [occ]) ++ (d ≫= snd)).
      change (((k, v) :: d) ≫= snd) with (v ++ (d ≫= snd)).
      rewrite <- app_assoc. cbn [app]. symmetry. apply Permutation_middle.
    + change (((k, v) :: append_to t occ d) ≫= snd)
        with (v ++ (append_to t occ d ≫= snd)).
      change (((k, v) :: d) ≫= snd) with (v ++ (d ≫= snd)).
      rewrite IH. symmetry. apply Permutation_middle.
Qed.

Lemma gathered_perm (pullRequests : list PullRequest) :
  (gathered pullRequests ≫= snd) ≡ₚ occurrences_of pullRequests.
Proof.
  unfold gathered, occurrences_of.
  assert (Hinner : forall (pr : PullRequest) (issues : list Issue) (d : Dict),
            (fold_left (fun d issue =>
               append_to (title_of issue) (occurrence_of pr issue) d) issues d ≫= snd)
            ≡ₚ (d ≫= snd) ++ map (occurrence_of pr) issues).
  { intros pr issues. induction issues as [|issue issues IH]; intros d; cbn [fold_left map].
    - rewrite app_nil_r. reflexivity.
    - rewrite IH, append_to_perm. cbn [app]. apply Permutation_middle. }
  assert (Houter : forall (prs : list PullRequest) (d : Dict),
            (fold_left (fun d pr =>
               fold_left (fun d issue =>
                 append_to (title_of issue) (occurrence_of pr issue) d)
                 (actionableIssues pr) d)
               prs d ≫= snd)
            ≡ₚ (d ≫= snd) ++ occurrences_of prs).
  { induction prs as [|pr prs IH]; intros d; cbn [fold_left].
    - unfold occurrences_of. simpl. rewrite app_nil_r. reflexivity.
    - rewrite IH, Hinner. unfold occurrences_of.
      change ((pr :: prs) ≫= fun pr0 => map (occurrence_of pr0) (actionableIssues pr0))
        with (map (occurrence_of pr) (actionableIssues pr) ++
              (prs ≫= fun pr0 => map (occurrence_of pr0) (actionableIssues pr0))).
      rewrite app_assoc. reflexivity. }
  apply (Houter pullRequests []).
Qed.

Lemma insert_index_perm {V} (n : N) (e : jsstring * V) (l : list (N * (jsstring * V))) :
  map snd (insert_index n e l) ≡ₚ e :: map snd l.
Proof.
  induction l as [|[n' e'] l IH]; cbn [insert_index map snd]; [reflexivity|].
  destruct (n <? n')%N; cbn [map snd]; [reflexivity|].
  rewrite IH. apply perm_swap.
Qed.

Lemma entries_of_perm {V} (d : list (jsstring * V)) : entries_of d ≡ₚ d.
Proof.
  unfold entries_of. induction d as [|e d IH]; [reflexivity|].
  cbn [fold_right List.filter].
  destruct (array_index (fst e)).
  - rewrite insert_index_perm. cbn [app]. constructor. exact IH.
  - rewrite <- Permutation_middle. constructor. exact IH.
Qed.

Lemma entries_perm (d : Dict) : entries d ≡ₚ d.
Proof. exact (entries_of_perm d). Qed.

Lemma built_occurrences (groups : list TitleGroup) :
  Forall group_built groups ->
  occurrencesIn groups = (groups ≫= items) ≫= te_occurrences.
Proof.
  unfold occurrencesIn. induction 1 as [|g groups Hg Hrest IH]; [reflexivity|].
  change ((g :: groups) ≫= allOccurrences)
    with (allOccurrences g ++ (groups ≫= allOccurrences)).
  change ((g :: groups) ≫= items) with (items g ++ (groups ≫= items)).
  rewrite bind_app, IH.
  destruct Hg as (rep & members & _ & _ & _ & _ & ->). reflexivity.
Qed.

Lemma shown_length (groups : list TitleGroup) :
  Forall group_ok groups -> shown groups = length (occurrencesIn groups).
Proof.
  unfold shown, occurrencesIn. induction 1 as [|g groups [Hg _] Hrest IH]; [reflexivity|].
  change ((g :: groups) ≫= allOccurrences)
    with (allOccurrences g ++ (groups ≫= allOccurrences)).
  rewrite length_app, <- IH, <- Hg. reflexivity.
Qed.

Lemma occurrences_of_length (pullRequests : list PullRequest) :
  length (occurrences_of pullRequests) = length (allIssues pullRequests).
Proof.
  unfold occurrences_of, allIssues.
  induction pullRequests as [|pr prs IH]; [reflexivity|].
  change (length (map (occurrence_of pr) (actionableIssues pr) ++
                  (prs ≫= fun pr0 => map (occurrence_of pr0) (actionableIssues pr0))) =
          length (actionableIssues pr ++ (prs ≫= actionableIssues))).
  rewrite !length_app, length_map, IH. reflexivity.
Qed.

(** The occurrences of the groups made of a dictionary are those of the
    dictionary. *)
Lemma titlesOf_occurrences (d : Dict) : occurrencesIn (titlesOf d) ≡ₚ d ≫= snd.
Proof.
  rewrite built_occurrences by apply groupSimilarTitles_built.
  unfold titlesOf.
  rewrite groupSimilarTitles_perm, sort_desc_perm, entries_perm.
  induction d as [|e d IH]; [reflexivity|].
  change (te_occurrences {| te_title := fst e; te_count := length (snd e);
                            te_occurrences := snd e |} ++
          (map (fun e0 => {| te_title := fst e0; te_count := length (snd e0);
                              te_occurrences := snd e0 |}) d ≫= te_occurrences)
          ≡ₚ snd e ++ (d ≫= snd)).
  cbn [te_occurrences]. rewrite IH. reflexivity.
Qed.

(** ** When [extractTitles] returns *)

Lemma ordinaryb_true (pullRequests : list PullRequest) :
  ordinaryb (allIssues pullRequests) = true <-> ordinary_titles pullRequests.
Proof.
  unfold ordinaryb, ordinary_titles.
  rewrite List.forallb_forall, List.Forall_forall.
  split; intros H issue Hin; specialize (H issue Hin);
    destruct (inherited (title_of issue)); cbn in *; congruence.
Qed.

Lemma ordinaryb_false (pullRequests : list PullRequest) :
  ordinaryb (allIssues pullRequests) = false <-> ~ ordinary_titles pullRequests.
Proof.
  rewrite <- ordinaryb_true. destruct (ordinaryb (allIssues pullRequests)); split;
    congruence.
Qed.

Lemma has_own_inherited (key : jsstring) (d : Dict) :
  own_keys_ok d -> inherited key = true -> has_own key d = false.
Proof.
  unfold has_own. induction 1 as [|[k v] d Hk Hd IH]; intros Hkey; [reflexivity|].
  cbn [existsb fst] in *. rewrite (IH Hkey), orb_false_r.
  unfold str_eqb. apply bool_decide_eq_false. intros ->. congruence.
Qed.

Lemma append_to_keys (key : jsstring) (occ : Occurrence) (d : Dict) :
  inherited key = false -> own_keys_ok d -> own_keys_ok (append_to key occ d).
Proof.
  intros Hkey. induction 1 as [|[k v] d Hk Hd IH]; cbn [append_to].
  - constructor; [exact Hkey|constructor].
  - destruct (str_eqb k key); constructor; assumption.
Qed.

(** On a dictionary that [extractTitles] has filled, [push] throws for
    the titles that name an inherited property, and for no other. *)
Lemma push_cases (key : jsstring) (occ : Occurrence) (d : Dict) :
  own_keys_ok d ->
  push key occ d = if inherited key then inl TypeError else inr (append_to key occ d).
Proof.
  intros Hd. unfold push. destruct (inherited key) eqn:Hkey.
  - rewrite (has_own_inherited _ _ Hd Hkey). reflexivity.
  - rewrite andb_false_r. reflexivity.
Qed.

Section Loops.

Variable pr : PullRequest.

Local Abbreviation step :=
  (fun (r : error + Dict) (issue : Issue) =>
     and_then r (push (title_of issue) (occurrence_of pr issue))).

Local Abbreviation pure_step :=
  (fun (d : Dict) (issue : Issue) =>
     append_to (title_of issue) (occurrence_of pr issue) d).

Lemma collect_issues_thrown (issues : list Issue) (e : error) :
  fold_left step issues (inl e) = inl e.
Proof. induction issues as [|issue issues IH]; [reflexivity|exact IH]. Qed.

Lemma collect_issues (issues : list Issue) :
  forall d : Dict,
    own_keys_ok d ->
    fold_left step issues (inr d) =
      (if ordinaryb issues then inr (fold_left pure_step issues d) else inl TypeError)
    /\ (ordinaryb issues = true -> own_keys_ok (fold_left pure_step issues d)).
Proof.
  induction issues as [|issue issues IH]; intros d Hd.
  - split; [reflexivity|]. intros _. exact Hd.
  - cbn [fold_left and_then]. unfold ordinaryb. cbn [forallb]. fold (ordinaryb issues).
    rewrite (push_cases _ _ _ Hd).
    destruct (inherited (title_of issue)) eqn:Hkey; cbn [negb andb].
    + rewrite collect_issues_thrown. split; [reflexivity|discriminate].
    + apply IH, append_to_keys; assumption.
Qed.

End Loops.

Lemma collect_thrown (pullRequests : list PullRequest) (e : error) :
  fold_left (fun r pr =>
    fold_left (fun r issue =>
      and_then r (push (title_of issue) (occurrence_of pr issue)))
      (actionableIssues pr) r) pullRequests (inl e) = inl e.
Proof.
  induction pullRequests as [|pr prs IH]; [reflexivity|].
  cbn [fold_left]. rewrite collect_issues_thrown. exact IH.
Qed.

Lemma ordinaryb_app (l1 l2 : list Issue) :
  ordinaryb (l1 ++ l2) = ordinaryb l1 && ordinaryb l2.
Proof. unfold ordinaryb. apply forallb_app. Qed.

(** [collect] returns the dictionary of all the occurrences when no
    title names an inherited property, and throws otherwise. *)
Lemma collect_cases (pullRequests : list PullRequest) :
  collect pullRequests =
    if ordinaryb (allIssues pullRequests) then inr (gathered pullRequests)
    else inl TypeError.
Proof.
  unfold collect, gathered.
  enough (Hgen : forall d : Dict,
            own_keys_ok d ->
            fold_left (fun r pr =>
              fold_left (fun r issue =>
                and_then r (push (title_of issue) (occurrence_of pr issue)))
                (actionableIssues pr) r) pullRequests (inr d) =
            if ordinaryb (allIssues pullRequests)
            then inr (fold_left (fun d pr =>
                        fold_left (fun d issue =>
                          append_to (title_of issue) (occurrence_of pr issue) d)
                          (actionableIssues pr) d) pullRequests d)
            else inl TypeError)
    by (apply Hgen; constructor).
  induction pullRequests as [|pr prs IH]; intros d Hd; [reflexivity|].
  cbn [fold_left]. change (pr :: prs) with ([pr] ++ prs).
  rewrite allIssues_app, ordinaryb_app.
  replace (allIssues [pr]) with (actionableIssues pr)
    by (unfold allIssues; simpl; rewrite app_nil_r; reflexivity).
  destruct (collect_issues pr (actionableIssues pr) d Hd) as [Hfold Hkeys].
  rewrite Hfold. destruct (ordinaryb (actionableIssues pr)); cbn [andb].
  - apply IH, Hkeys. reflexivity.
  - apply collect_thrown.
Qed.

Lemma extractTitles_cases (pullRequests : list PullRequest) :
  extractTitles pullRequests =
    if ordinaryb (allIssues pullRequests) then inr (titlesOf (gathered pullRequests))
    else inl TypeError.
Proof.
  unfold extractTitles. rewrite collect_cases.
  destruct (ordinaryb (allIssues pullRequests)); reflexivity.
Qed.

Lemma extractTitles_ordinary (pullRequests : list PullRequest) :
  ordinary_titles pullRequests ->
  extractTitles pullRequests = inr (titlesOf (gathered pullRequests)).
Proof.
  intros H. apply ordinaryb_true in H. rewrite extractTitles_cases, H. reflexivity.
Qed.

Lemma updateFilterCounts_ordinary (pullRequests : list PullRequest)
    (selectedPriorities : gset jsstring) (selectedAcceptanceStatus : jsstring) :
  ordinary_titles pullRequests ->
  updateFilterCounts pullRequests selectedPriorities selectedAcceptanceStatus =
    inr (countOccurrences (titlesOf (gathered pullRequests))
           selectedPriorities selectedAcceptanceStatus).
Proof.
  intros H. unfold updateFilterCounts. rewrite (extractTitles_ordinary _ H). reflexivity.
Qed.

Lemma applyCombinedFilters_ordinary (pullRequests : list PullRequest)
    (selectedPriorities : gset jsstring) (selectedAcceptanceStatus : jsstring) :
  ordinary_titles pullRequests ->
  applyCombinedFilters pullRequests selectedPriorities selectedAcceptanceStatus =
    inr (filterTitles selectedPriorities selectedAcceptanceStatus
           (titlesOf (gathered pullRequests))).
Proof.
  intros H. unfold applyCombinedFilters.
  rewrite (updateFilterCounts_ordinary _ _ _ H), (extractTitles_ordinary _ H).
  reflexivity.
Qed.

Lemma applyPriorityFilter_ordinary (pullRequests : list PullRequest)
    (selectedPriorities : gset jsstring) :
  ordinary_titles pullRequests ->
  applyPriorityFilter pullRequests selectedPriorities =
    inr (wholeGroups selectedPriorities (titlesOf (gathered pullRequests))).
Proof.
  intros H. unfold applyPriorityFilter. rewrite (extractTitles_ordinary _ H). reflexivity.
Qed.

(** X11. The groups [groupSimilarTitles] returns are in descending order
    of [totalCount], and so are those [extractTitles] returns. *)
Theorem groups_descending :
  (forall titles : list TitleEntry, descending totalCount (groupSimilarTitles titles))
  /\ (forall pullRequests : list PullRequest,
        ordinary_titles pullRequests ->
        exists titles : list TitleGroup,
          extractTitles pullRequests = inr titles /\ descending totalCount titles).
Proof.
  split.
  - intros titles. apply sort_desc_descending.
  - intros prs Hord. exists (titlesOf (gathered prs)).
    split; [apply extractTitles_ordinary, Hord|apply sort_desc_descending].
Qed.

(** X12. On data whose titles name no inherited property,
    [extractTitles] loses no issue and counts none twice: the occurrences
    of its groups are the issues of the data, one occurrence per issue (in
    some order), and the [totalCount]s of the groups add up to the number
    of issues. *)
Theorem extractTitles_occurrences (pullRequests : list PullRequest) :
  ordinary_titles pullRequests ->
  exists titles : list TitleGroup,
    extractTitles pullRequests = inr titles
    /\ occurrencesIn titles ≡ₚ occurrences_of pullRequests
    /\ shown titles = length (allIssues pullRequests).
Proof.
  intros Hord. exists (titlesOf (gathered pullRequests)).
  split; [apply extractTitles_ordinary, Hord|].
  assert (H : occurrencesIn (titlesOf (gathered pullRequests))
              ≡ₚ occurrences_of pullRequests).
  { rewrite titlesOf_occurrences. apply gathered_perm. }
  split; [exact H|].
  rewrite shown_length by apply titlesOf_ok, gathered_nonempty.
  rewrite H. apply occurrences_of_length.
Qed.

(** X24. With the priorities [{"all"}] and the acceptance ["all"] the
    combined filter does what [extractTitles] does: it throws when
    [extractTitles] throws, and returns the groups of [extractTitles] as
    they are otherwise.  On data whose titles name no inherited property
    it returns every group with all its occurrences, one per issue of the
    data, and a [totalCount] that is the number of occurrences of the
    group. *)
Theorem applyCombinedFilters_all_identity (pullRequests : list PullRequest) :
  applyCombinedFilters pullRequests {[ ALL ]} ALL = extractTitles pullRequests
  /\ (ordinary_titles pullRequests ->
      exists titles : list TitleGroup,
        applyCombinedFilters pullRequests {[ ALL ]} ALL = inr titles
        /\ Forall (fun g => totalCount g = length (allOccurrences g)
                            /\ allOccurrences g <> []) titles
        /\ occurrencesIn titles ≡ₚ occurrences_of pullRequests).
Proof.
  assert (Hid : filterTitles {[ ALL ]} ALL (titlesOf (gathered pullRequests)) =
                titlesOf (gathered pullRequests)).
  { apply filterTitles_all; [set_solver|apply titlesOf_ok, gathered_nonempty]. }
  split.
  - unfold applyCombinedFilters, updateFilterCounts.
    rewrite extractTitles_cases.
    destruct (ordinaryb (allIssues pullRequests)); cbn [and_then]; [|reflexivity].
    rewrite Hid. reflexivity.
  - intros Hord. exists (titlesOf (gathered pullRequests)).
    split; [rewrite (applyCombinedFilters_ordinary _ _ _ Hord), Hid; reflexivity|].
    split; [apply titlesOf_ok, gathered_nonempty|].
    rewrite titlesOf_occurrences. apply gathered_perm.
Qed.

(** X25. [extractTitles] returns exactly when no title of the data names
    a property inherited from [Object.prototype].  When one does,
    [extractTitles] throws a TypeError, and so do [updateFilterCounts],
    [applyCombinedFilters] and [applyPriorityFilter], whatever the
    filters. *)
Theorem inherited_title_throws (pullRequests : list PullRequest) :
  (ordinary_titles pullRequests <->
   exists titles : list TitleGroup, extractTitles pullRequests = inr titles)
  /\ (~ ordinary_titles pullRequests ->
      extractTitles pullRequests = inl TypeError
      /\ forall (selectedPriorities : gset jsstring) (selectedAcceptanceStatus : jsstring),
           updateFilterCounts pullRequests selectedPriorities selectedAcceptanceStatus
             = inl TypeError
           /\ applyCombinedFilters pullRequests selectedPriorities
                selectedAcceptanceStatus = inl TypeError
           /\ applyPriorityFilter pullRequests selectedPriorities = inl TypeError).
Proof.
  assert (Hthrow : ~ ordinary_titles pullRequests ->
                   extractTitles pullRequests = inl TypeError).
  { intros H. apply ordinaryb_false in H. rewrite extractTitles_cases, H. reflexivity. }
  split; [split|].
  - intros H. eexists. apply extractTitles_ordinary, H.
  - intros [titles H]. apply ordinaryb_true.
    rewrite extractTitles_cases in H.
    destruct (ordinaryb (allIssues pullRequests)); [reflexivity|discriminate].
  - intros H. split; [apply Hthrow, H|]. intros sel st.
    unfold applyCombinedFilters, updateFilterCounts, applyPriorityFilter.
    rewrite (Hthrow H). repeat split.
Qed.

(** ** What the combined filter shows *)

Lemma filterGroup_Some (selectedPriorities : gset jsstring)
    (selectedAcceptanceStatus : jsstring) (g0 g : TitleGroup) :
  filterGroup selectedPriorities selectedAcceptanceStatus g0 = Some g ->
  filtered_from selectedPriorities selectedAcceptanceStatus g0 g
  /\ allOccurrences g <> []
  /\ totalCount g = length (allOccurrences g).
Proof.
  unfold filterGroup.
  destruct (List.filter _ (allOccurrences g0)) as [|o occs] eqn:Hf;
    cbn [length Nat.eqb]; [discriminate|].
  intros [= <-]. unfold filtered_from. cbn. rewrite Hf. repeat split. discriminate.
Qed.

(** What the filter keeps of any list of groups. *)
Lemma filterTitles_sound (selectedPriorities : gset jsstring)
    (selectedAcceptanceStatus : jsstring) (titles : list TitleGroup) :
  Forall (fun g =>
            (exists g0, g0 ∈ titles
                        /\ filtered_from selectedPriorities selectedAcceptanceStatus g0 g)
            /\ Forall (fun o => matchesFilters selectedPriorities
                                  selectedAcceptanceStatus o = true)
                      (allOccurrences g)
            /\ allOccurrences g <> []
            /\ totalCount g = length (allOccurrences g))
         (filterTitles selectedPriorities selectedAcceptanceStatus titles).
Proof.
  unfold filterTitles. apply Forall_forall. intros g Hg.
  apply list_elem_of_omap in Hg as (g0 & Hg0 & Hsome).
  destruct (filterGroup_Some _ _ _ _ Hsome) as (Hfrom & Hne & Hcount).
  split; [exists g0; split; assumption|].
  split; [|split; assumption].
  destruct Hfrom as (_ & _ & ->).
  apply List.Forall_forall. intros o Ho. apply List.filter_In in Ho. tauto.
Qed.

(** X13. On data whose titles name no inherited property, every group
    the combined filter shows comes from a group of [extractTitles] and
    keeps its title and its members; its occurrences are those of that
    group that match both filters, in the same order; it has at least one
    occurrence; and its [totalCount] is the number of its occurrences. *)
Theorem applyCombinedFilters_sound (pullRequests : list PullRequest)
    (selectedPriorities : gset jsstring) (selectedAcceptanceStatus : jsstring) :
  ordinary_titles pullRequests ->
  exists titles filteredTitles : list TitleGroup,
    extractTitles pullRequests = inr titles
    /\ applyCombinedFilters pullRequests selectedPriorities selectedAcceptanceStatus
         = inr filteredTitles
    /\ Forall (fun g =>
                 (exists g0, g0 ∈ titles
                    /\ filtered_from selectedPriorities selectedAcceptanceStatus g0 g)
                 /\ Forall (fun o => matchesFilters selectedPriorities
                                       selectedAcceptanceStatus o = true)
                           (allOccurrences g)
                 /\ allOccurrences g <> []
                 /\ totalCount g = length (allOccurrences g))
              filteredTitles.
Proof.
  intros Hord. eexists. eexists.
  split; [apply extractTitles_ordinary, Hord|].
  split; [apply applyCombinedFilters_ordinary, Hord|].
  apply filterTitles_sound.
Qed.

Lemma shown_filtered (selectedPriorities : gset jsstring)
    (selectedAcceptanceStatus : jsstring) (groups : list TitleGroup) :
  shown (filterTitles selectedPriorities selectedAcceptanceStatus groups) =
    countIf (matchesFilters selectedPriorities selectedAcceptanceStatus)
            (occurrencesIn groups).
Proof.
  unfold filterTitles, shown, countIf, occurrencesIn.
  induction groups as [|g groups IH]; [reflexivity|].
  change ((g :: groups) ≫= allOccurrences)
    with (allOccurrences g ++ (groups ≫= allOccurrences)).
  rewrite List.filter_app, length_app, <- IH. cbn [omap list_omap].
  unfold filterGroup at 1.
  destruct (List.filter _ (allOccurrences g)) as [|o occs]; reflexivity.
Qed.

Lemma countIf_split {A} (f g h : A -> bool) (l : list A) :
  (forall x, h x = xorb (f x) (g x)) ->
  (forall x, f x && g x = false) ->
  (countIf f l + countIf g l = countIf h l)%nat.
Proof.
  intros Hh Hfg. unfold countIf.
  induction l as [|x l IH]; [reflexivity|]. cbn [List.filter].
  specialize (Hh x). specialize (Hfg x).
  destruct (f x), (g x), (h x); cbn in *; try discriminate; lia.
Qed.

Lemma filterTitles_split (selectedPriorities : gset jsstring)
    (titles : list TitleGroup) :
  (shown (filterTitles selectedPriorities ACCEPTED titles)
   + shown (filterTitles selectedPriorities NOT_ACCEPTED titles)
   = shown (filterTitles selectedPriorities ALL titles))%nat.
Proof.
  rewrite !shown_filtered.
  apply countIf_split; intros o; unfold matchesFilters;
    change (str_eqb ACCEPTED ACCEPTED) with true;
    change (str_eqb NOT_ACCEPTED ACCEPTED) with false;
    change (str_eqb NOT_ACCEPTED NOT_ACCEPTED) with true;
    change (str_eqb ALL ACCEPTED) with false;
    change (str_eqb ALL NOT_ACCEPTED) with false;
    cbn iota;
    destruct (bool_decide (ALL ∈ selectedPriorities)
              || bool_decide (occ_priority o ∈ selectedPriorities)),
             (occ_accepted o); reflexivity.
Qed.

(** X14. On data whose titles name no inherited property, and for any
    selection of priorities, the two acceptance filters split what the
    filter "all" shows: the number of occurrences shown with "accepted"
    plus the number shown with "not-accepted" is the number shown with
    "all". *)
Theorem applyCombinedFilters_acceptance_split (pullRequests : list PullRequest)
    (selectedPriorities : gset jsstring) :
  ordinary_titles pullRequests ->
  exists all accepted notAccepted : list TitleGroup,
    applyCombinedFilters pullRequests selectedPriorities ALL = inr all
    /\ applyCombinedFilters pullRequests selectedPriorities ACCEPTED = inr accepted
    /\ applyCombinedFilters pullRequests selectedPriorities NOT_ACCEPTED = inr notAccepted
    /\ (shown accepted + shown notAccepted = shown all)%nat.
Proof.
  intros Hord. eexists. eexists. eexists.
  split; [apply applyCombinedFilters_ordinary, Hord|].
  split; [apply applyCombinedFilters_ordinary, Hord|].
  split; [apply applyCombinedFilters_ordinary, Hord|].
  apply filterTitles_split.
Qed.

(** ** The counters on the buttons *)

Lemma fold_groups {S} (f : S -> Occurrence -> S) (groups : list TitleGroup) :
  forall st : S,
    fold_left (fun st group => fold_left f (allOccurrences group) st) groups st =
      fold_left f (occurrencesIn groups) st.
Proof.
  unfold occurrencesIn. induction groups as [|g groups IH]; intros st; [reflexivity|].
  change ((g :: groups) ≫= allOccurrences)
    with (allOccurrences g ++ (groups ≫= allOccurrences)).
  rewrite fold_left_app. cbn [fold_left]. apply IH.
Qed.

Lemma countIf_ext {A} (f g : A -> bool) (l : list A) :
  (forall x, f x = g x) -> countIf f l = countIf g l.
Proof. intros H. unfold countIf. rewrite (List.filter_ext f g H). reflexivity. Qed.

Lemma countIf_false {A} (l : list A) : countIf (fun _ => false) l = 0%nat.
Proof. unfold countIf. induction l; auto. Qed.

Lemma countIf_cons {A} (f : A -> bool) (x : A) (l : list A) :
  countIf f (x :: l) = ((if f x then 1 else 0) + countIf f l)%nat.
Proof. unfold countIf. cbn [List.filter]. destruct (f x); reflexivity. Qed.

Lemma matchesFilters_split (selectedPriorities : gset jsstring)
    (selectedAcceptanceStatus : jsstring) (o : Occurrence) :
  matchesFilters selectedPriorities selectedAcceptanceStatus o =
    (bool_decide (ALL ∈ selectedPriorities)
     || bool_decide (occ_priority o ∈ selectedPriorities))
    && matchesAcceptance selectedAcceptanceStatus o.
Proof. reflexivity. Qed.

Lemma countAcceptance_fold (selectedPriorities : gset jsstring) (l : list Occurrence) :
  forall all accepted notAccepted : nat,
    fold_left (countAcceptance selectedPriorities) l (all, accepted, notAccepted) =
      ((all + countIf (matchesFilters selectedPriorities ALL) l)%nat,
       (accepted + countIf (matchesFilters selectedPriorities ACCEPTED) l)%nat,
       (notAccepted + countIf (matchesFilters selectedPriorities NOT_ACCEPTED) l)%nat).
Proof.
  induction l as [|o l IH]; intros a b c; cbn [fold_left].
  - unfold countIf. simpl. rewrite !Nat.add_0_r. reflexivity.
  - rewrite !countIf_cons, !matchesFilters_split.
    unfold countAcceptance at 2. unfold matchesAcceptance.
    change (str_eqb ACCEPTED ACCEPTED) with true;
    change (str_eqb NOT_ACCEPTED ACCEPTED) with false;
    change (str_eqb NOT_ACCEPTED NOT_ACCEPTED) with true;
    change (str_eqb ALL ACCEPTED) with false;
    change (str_eqb ALL NOT_ACCEPTED) with false; cbn iota.
    destruct (bool_decide (ALL ∈ selectedPriorities)
              || bool_decide (occ_priority o ∈ selectedPriorities)),
             (occ_accepted o); cbn [andb negb]; rewrite IH;
      (apply pair_equal_spec; split; [apply pair_equal_spec; split|]); lia.
Qed.

Lemma hasPriority_true (p : jsstring) (o : Occurrence) :
  hasPriority p o = true <-> occ_priority o = p.
Proof. unfold hasPriority, str_eqb. apply bool_decide_eq_true. Qed.

Lemma hasPriority_false (p : jsstring) (o : Occurrence) :
  hasPriority p o = false <-> occ_priority o <> p.
Proof. unfold hasPriority, str_eqb. apply bool_decide_eq_false. Qed.

Lemma not_inherited_proto (key : jsstring) :
  inherited key = false -> key <> PROTO.
Proof. intros H ->. vm_compute in H. discriminate. Qed.

Lemma store_lookup_ne (key p : jsstring) (v : counter) (counts : gmap jsstring counter) :
  key <> p -> store key v counts !! p = counts !! p.
Proof.
  intros H. unfold store. destruct (str_eqb key PROTO); [reflexivity|].
  apply lookup_insert_ne, H.
Qed.

Lemma store_lookup_eq (key : jsstring) (v : counter) (counts : gmap jsstring counter) :
  key <> PROTO -> store key v counts !! key = Some v.
Proof.
  intros H. unfold store, str_eqb. rewrite (bool_decide_eq_false_2 _ H).
  apply lookup_insert_eq.
Qed.

Lemma get_own (key : jsstring) (own : option counter) :
  inherited key = false -> get own key = own.
Proof. intros H. unfold get. rewrite H. destruct own; reflexivity. Qed.

(** One turn of the first loop, read at a key that names no inherited
    property: the cell stays a number, and counts the occurrence as
    "all" and under its priority. *)
Lemma countPriority_lookup (status : jsstring) (counts : gmap jsstring counter)
    (seen : gset jsstring) (o : Occurrence) (p : jsstring) :
  counts_ok counts -> inherited p = false ->
  let counts' := fst (countPriority status (counts, seen) o) in
  (counts' !! p = None \/ exists n, counts' !! p = Some (Num n))
  /\ (p = ALL -> exists n, counts' !! p = Some (Num n))
  /\ number (or0 (counts' !! p)) =
       (number (or0 (counts !! p))
        + (if matchesAcceptance status o && str_eqb p ALL then 1 else 0)
        + (if matchesAcceptance status o && hasPriority p o then 1 else 0))%nat.
Proof.
  intros [[a Hall] Hcells] Hp. cbn zeta.
  assert (Hproto : p <> PROTO) by (apply not_inherited_proto, Hp).
  assert (HallP : ALL <> PROTO) by (vm_compute; discriminate).
  unfold countPriority. destruct (matchesAcceptance status o); cbn [fst andb].
  - rewrite Hall. rewrite (get_own ALL) by reflexivity. cbn [plus_plus].
    set (c1 := store ALL (Num (S a)) counts).
    assert (H1 : c1 !! ALL = Some (Num (S a))) by (apply store_lookup_eq, HallP).
    assert (H1' : forall q, q <> ALL -> c1 !! q = counts !! q)
      by (intros q Hq; apply store_lookup_ne; congruence).
    destruct (hasPriority p o) eqn:Hprio.
    + apply hasPriority_true in Hprio. rewrite Hprio.
      rewrite (store_lookup_eq p _ _ Hproto), (get_own p _ Hp).
      unfold str_eqb. destruct (bool_decide (p = ALL)) eqn:Ha.
      * apply bool_decide_eq_true in Ha. rewrite Ha. rewrite H1, Hall. cbn.
        split; [right; eauto|]. split; [eauto|lia].
      * apply bool_decide_eq_false in Ha. rewrite (H1' p Ha).
        destruct (Hcells p Hp) as [Hnone|[n Hn]].
        -- rewrite Hnone. cbn. split; [right; eauto|]. split; [congruence|lia].
        -- rewrite Hn. cbn. split; [right; eauto|]. split; [congruence|lia].
    + apply hasPriority_false in Hprio.
      rewrite (store_lookup_ne _ p _ _ Hprio).
      unfold str_eqb. destruct (bool_decide (p = ALL)) eqn:Ha.
      * apply bool_decide_eq_true in Ha. rewrite Ha. rewrite H1, Hall. cbn.
        split; [right; eauto|]. split; [eauto|lia].
      * apply bool_decide_eq_false in Ha. rewrite (H1' p Ha).
        split; [apply Hcells, Hp|]. split; [congruence|lia].
  - split; [apply Hcells, Hp|]. split; [intros ->; eauto|lia].
Qed.

Lemma countPriority_ok (status : jsstring) (counts : gmap jsstring counter)
    (seen : gset jsstring) (o : Occurrence) :
  counts_ok counts -> counts_ok (fst (countPriority status (counts, seen) o)).
Proof.
  intros Hok. split.
  - destruct (countPriority_lookup status counts seen o ALL Hok eq_refl) as (_ & H & _).
    apply H. reflexivity.
  - intros p Hp.
    destruct (countPriority_lookup status counts seen o p Hok Hp) as (H & _ & _).
    exact H.
Qed.

Lemma countPriority_fold (status : jsstring) (p : jsstring) (l : list Occurrence) :
  inherited p = false ->
  forall (counts : gmap jsstring counter) (seen : gset jsstring),
    counts_ok counts ->
    let counts' := fst (fold_left (countPriority status) l (counts, seen)) in
    (counts' !! p = None \/ exists n, counts' !! p = Some (Num n))
    /\ number (or0 (counts' !! p)) =
         (number (or0 (counts !! p))
          + countIf (fun o => matchesAcceptance status o && str_eqb p ALL) l
          + countIf (fun o => matchesAcceptance status o && hasPriority p o) l)%nat.
Proof.
  intros Hp. induction l as [|o l IH]; intros counts seen Hok; cbn zeta; cbn [fold_left].
  - split; [apply Hok, Hp|]. unfold countIf. simpl. lia.
  - pose proof (countPriority_ok status counts seen o Hok) as Hok'.
    destruct (countPriority_lookup status counts seen o p Hok Hp) as (_ & _ & Hstep).
    destruct (countPriority status (counts, seen) o) as [counts1 seen1].
    cbn [fst] in *. destruct (IH counts1 seen1 Hok') as [Hcell Hsum].
    split; [exact Hcell|]. rewrite Hsum, Hstep, !countIf_cons. lia.
Qed.

(** What is written for a priority that names no inherited property is
    the number its cell holds. *)
Lemma or0_get (p : jsstring) (own : option counter) :
  inherited p = false ->
  (own = None \/ exists n, own = Some (Num n)) ->
  or0 (get own p) = Num (number (or0 own)).
Proof.
  intros Hp H. rewrite (get_own p own Hp).
  destruct H as [->|[n ->]]; reflexivity.
Qed.

Lemma initial_counts_ok : counts_ok {[ ALL := Num 0 ]}.
Proof.
  split.
  - exists 0%nat. apply lookup_singleton_eq.
  - intros p _. destruct (decide (p = ALL)) as [->|Hne].
    + right. exists 0%nat. apply lookup_singleton_eq.
    + left. apply lookup_singleton_ne. congruence.
Qed.

(** The counters of any list of groups. *)
Lemma countOccurrences_agree (titles : list TitleGroup)
    (selectedPriorities : gset jsstring) (selectedAcceptanceStatus : jsstring) :
  let c := countOccurrences titles selectedPriorities selectedAcceptanceStatus in
  countAll c = shown (filterTitles selectedPriorities ALL titles)
  /\ countAccepted c = shown (filterTitles selectedPriorities ACCEPTED titles)
  /\ countNotAccepted c = shown (filterTitles selectedPriorities NOT_ACCEPTED titles)
  /\ (forall p : jsstring, p <> ALL -> inherited p = false ->
        shownCount c p =
          Num (shown (filterTitles {[ p ]} selectedAcceptanceStatus titles)))
  /\ shownCount c ALL =
       Num (shown (filterTitles {[ ALL ]} selectedAcceptanceStatus titles)
            + countIf (fun o => matchesAcceptance selectedAcceptanceStatus o
                                && hasPriority ALL o)
                      (occurrencesIn titles)).
Proof.
  cbn zeta. unfold countOccurrences, shownCount.
  rewrite !shown_filtered, !fold_groups, countAcceptance_fold.
  set (occs := occurrencesIn titles).
  assert (Hfold := fun p Hp =>
            countPriority_fold selectedAcceptanceStatus p occs Hp
              {[ ALL := Num 0 ]} ∅ initial_counts_ok).
  cbn zeta in Hfold.
  destruct (fold_left (countPriority selectedAcceptanceStatus) occs
              ({[ ALL := Num 0 ]}, ∅)) as [counts seen].
  cbn [countAll countAccepted countNotAccepted priorityCounts fst] in *.
  split; [reflexivity|]. split; [reflexivity|]. split; [reflexivity|].
  split.
  - intros p Hp Hinh. rewrite shown_filtered. fold occs.
    destruct (Hfold p Hinh) as [Hcell Hsum].
    rewrite (or0_get p _ Hinh Hcell), Hsum. f_equal.
    rewrite lookup_singleton_ne by congruence. cbn [or0 number].
    rewrite (countIf_ext (fun o => matchesAcceptance selectedAcceptanceStatus o
                                   && str_eqb p ALL) (fun _ => false)).
    + rewrite countIf_false, Nat.add_0_r. cbn [Nat.add]. apply countIf_ext. intros o.
      rewrite matchesFilters_split.
      rewrite (bool_decide_eq_false_2 (ALL ∈ ({[ p ]} : gset jsstring)))
        by (rewrite elem_of_singleton; congruence).
      cbn [orb]. rewrite andb_comm. f_equal.
      unfold hasPriority, str_eqb. apply bool_decide_ext. rewrite elem_of_singleton.
      reflexivity.
    + intros o. unfold str_eqb. rewrite (bool_decide_eq_false_2 _ Hp).
      apply andb_false_r.
  - destruct (Hfold ALL eq_refl) as [Hcell Hsum].
    rewrite (or0_get ALL _ eq_refl Hcell), Hsum. f_equal.
    rewrite lookup_singleton_eq. cbn [or0 number Nat.add]. f_equal.
    apply countIf_ext. intros o. rewrite matchesFilters_split.
    rewrite (bool_decide_eq_true_2 (ALL ∈ ({[ ALL ]} : gset jsstring)))
      by (apply elem_of_singleton; reflexivity).
    cbn [orb andb]. unfold str_eqb. rewrite (bool_decide_eq_true_2 _ eq_refl).
    apply andb_true_r.
Qed.

(** X15. On data whose titles name no inherited property, the counters
    [updateFilterCounts] computes are the numbers of occurrences the
    combined filter shows: for the selected priorities, the three
    acceptance counters are what "all", "accepted" and "not-accepted"
    show; for the selected acceptance status, the counter of a priority
    other than "all" that names no inherited property is what that
    priority alone shows; and the counter "all" is what "all" shows, plus
    one more for every shown occurrence whose priority is itself the
    string "all" (the two increments then fall on the same key). *)
Theorem updateFilterCounts_agree (pullRequests : list PullRequest)
    (selectedPriorities : gset jsstring) (selectedAcceptanceStatus : jsstring) :
  ordinary_titles pullRequests ->
  exists (c : FilterCounts) (titles : list TitleGroup),
    updateFilterCounts pullRequests selectedPriorities selectedAcceptanceStatus = inr c
    /\ extractTitles pullRequests = inr titles
    /\ shows pullRequests selectedPriorities ALL (countAll c)
    /\ shows pullRequests selectedPriorities ACCEPTED (countAccepted c)
    /\ shows pullRequests selectedPriorities NOT_ACCEPTED (countNotAccepted c)
    /\ (forall p : jsstring, p <> ALL -> inherited p = false ->
          exists n : nat,
            shownCount c p = Num n
            /\ shows pullRequests {[ p ]} selectedAcceptanceStatus n)
    /\ (exists n : nat,
          shownCount c ALL =
            Num (n + countIf (fun o => matchesAcceptance selectedAcceptanceStatus o
                                       && hasPriority ALL o)
                             (occurrencesIn titles))
          /\ shows pullRequests {[ ALL ]} selectedAcceptanceStatus n).
Proof.
  intros Hord. eexists. eexists.
  split; [apply updateFilterCounts_ordinary, Hord|].
  split; [apply extractTitles_ordinary, Hord|].
  assert (Hshows : forall sel st,
            shows pullRequests sel st
              (shown (filterTitles sel st (titlesOf (gathered pullRequests))))).
  { intros sel st. eexists. split; [apply applyCombinedFilters_ordinary, Hord|].
    reflexivity. }
  destruct (countOccurrences_agree (titlesOf (gathered pullRequests))
              selectedPriorities selectedAcceptanceStatus)
    as (H1 & H2 & H3 & H4 & H5).
  split; [rewrite H1; apply Hshows|].
  split; [rewrite H2; apply Hshows|].
  split; [rewrite H3; apply Hshows|].
  split.
  - intros p Hp Hinh. eexists. split; [apply H4; assumption|apply Hshows].
  - eexists. split; [exact H5|apply Hshows].
Qed.

(** ** The priority filter that keeps whole groups *)

Lemma existsb_filter {A} (f : A -> bool) (l : list A) :
  existsb f l = negb (length (List.filter f l) =? 0)%nat.
Proof.
  induction l as [|x l IH]; [reflexivity|]. cbn [existsb List.filter].
  destruct (f x); [reflexivity|exact IH].
Qed.

Lemma filterGroup_title (selectedPriorities : gset jsstring) (status : jsstring)
    (g : TitleGroup) :
  option_map mainTitle (filterGroup selectedPriorities status g) =
    if (length (List.filter (matchesFilters selectedPriorities status)
                            (allOccurrences g)) =? 0)%nat
    then None else Some (mainTitle g).
Proof.
  unfold filterGroup. destruct (length _ =? 0)%nat; reflexivity.
Qed.

(** The groups kept whole and the groups filtered, for any list of
    groups that have occurrences. *)
Lemma wholeGroups_titles (selectedPriorities : gset jsstring)
    (titles : list TitleGroup) :
  Forall group_ok titles ->
  map mainTitle (wholeGroups selectedPriorities titles) =
    map mainTitle (filterTitles selectedPriorities ALL titles)
  /\ wholeGroups selectedPriorities titles `sublist_of` titles.
Proof.
  intros Hok. unfold wholeGroups, filterTitles.
  destruct (bool_decide (ALL ∈ selectedPriorities)) eqn:Hall.
  - apply bool_decide_eq_true in Hall. split; [|reflexivity].
    rewrite (omap_all_Some (filterGroup selectedPriorities ALL)); [reflexivity|].
    eapply Forall_impl; [exact Hok|]. intros g Hg.
    apply filterGroup_all; assumption.
  - split.
    + clear Hok. induction titles as [|g groups IH]; [reflexivity|].
      cbn [List.filter omap list_omap].
      pose proof (filterGroup_title selectedPriorities ALL g) as Ht.
      rewrite (List.filter_ext (matchesFilters selectedPriorities ALL)
                 (fun o => bool_decide (occ_priority o ∈ selectedPriorities))) in Ht.
      * rewrite existsb_filter.
        destruct (filterGroup selectedPriorities ALL g) as [g'|];
          destruct (length _ =? 0)%nat; cbn in Ht |- *; try discriminate.
        -- injection Ht as ->. f_equal. exact IH.
        -- exact IH.
      * intros o. rewrite matchesFilters_split, Hall.
        cbn [orb]. apply andb_true_r.
    + clear Hok. induction titles as [|g groups IH]; [constructor|].
      cbn [List.filter]. destruct (existsb _ _).
      * apply sublist_skip. exact IH.
      * apply sublist_cons. exact IH.
Qed.

(** X16. On data whose titles name no inherited property,
    [applyPriorityFilter] shows the same groups as the combined filter
    with the acceptance "all" (the same titles in the same order), but
    whole: each group it shows is a group of [extractTitles] with all its
    occurrences, also those of other priorities. *)
Theorem applyPriorityFilter_groups (pullRequests : list PullRequest)
    (selectedPriorities : gset jsstring) :
  ordinary_titles pullRequests ->
  exists titles whole filteredTitles : list TitleGroup,
    extractTitles pullRequests = inr titles
    /\ applyPriorityFilter pullRequests selectedPriorities = inr whole
    /\ applyCombinedFilters pullRequests selectedPriorities ALL = inr filteredTitles
    /\ map mainTitle whole = map mainTitle filteredTitles
    /\ whole `sublist_of` titles.
Proof.
  intros Hord. eexists. eexists. eexists.
  split; [apply extractTitles_ordinary, Hord|].
  split; [apply applyPriorityFilter_ordinary, Hord|].
  split; [apply applyCombinedFilters_ordinary, Hord|].
  apply wholeGroups_titles, titlesOf_ok, gathered_nonempty.
Qed.

(** ** The selection of priorities *)

Lemma size_zero_empty (s : gset jsstring) : (size s =? 0)%nat = true -> s = ∅.
Proof.
  intros H. apply Nat.eqb_eq in H. apply leibniz_equiv, size_empty_iff, H.
Qed.

Lemma size_nonzero (s : gset jsstring) : (size s =? 0)%nat = false -> s <> ∅.
Proof.
  intros H Hs. apply Nat.eqb_neq in H. apply H. rewrite Hs. apply size_empty.
Qed.

Lemma only_all_ok : selection_ok {[ ALL ]}.
Proof.
  split; [|reflexivity]. intros H.
  assert (Hin : ALL ∈ ({[ ALL ]} : gset jsstring)) by (apply elem_of_singleton; reflexivity).
  rewrite H in Hin. exact (not_elem_of_empty _ Hin).
Qed.

(** X17. After a click on a priority button the selection is never
    empty, and when it holds "all" it holds nothing else, whatever the
    selection was before; the priority handler of the combined filter
    leaves the same selection, and its acceptance handler keeps a
    selection of that form. *)
Theorem selection_stays_ok :
  (forall (priority : jsstring) (selectedPriorities : gset jsstring),
      selection_ok (priorityClick priority selectedPriorities))
  /\ (forall (priority : jsstring) (ui : FilterUI),
      ui_priorities (fst (combinedPriorityClick priority ui)) =
        priorityClick priority (ui_priorities ui))
  /\ (forall (status : jsstring) (ui : FilterUI),
      selection_ok (ui_priorities ui) ->
      selection_ok (ui_priorities (fst (combinedAcceptanceClick status ui)))).
Proof.
  split; [|split].
  - intros p s. unfold priorityClick.
    destruct (str_eqb p ALL) eqn:Hp; [apply only_all_ok|].
    unfold str_eqb in Hp. apply bool_decide_eq_false in Hp.
    set (s1 := if bool_decide (ALL ∈ s) then ∅ else s).
    assert (H1 : ALL ∉ s1).
    { subst s1. destruct (bool_decide (ALL ∈ s)) eqn:E.
      - apply not_elem_of_empty.
      - apply bool_decide_eq_false in E. exact E. }
    set (s2 := if bool_decide (p ∈ s1) then s1 ∖ {[ p ]} else s1 ∪ {[ p ]}).
    assert (H2 : ALL ∉ s2).
    { subst s2. destruct (bool_decide (p ∈ s1)).
      - rewrite elem_of_difference. tauto.
      - rewrite elem_of_union, elem_of_singleton. intros [H|H]; [tauto|congruence]. }
    destruct (size s2 =? 0)%nat eqn:Hs; [apply only_all_ok|].
    split; [apply size_nonzero, Hs|tauto].
  - intros p ui. unfold combinedPriorityClick, priorityClick.
    destruct (str_eqb p ALL); [reflexivity|].
    destruct (size _ =? 0)%nat; reflexivity.
  - intros status ui Hok. unfold combinedAcceptanceClick.
    destruct (bool_decide (status ∈ ui_active ui)); cbn; [apply only_all_ok|exact Hok].
Qed.

Lemma selection_stays_ok_witness :
  selection_ok (ui_priorities (fst (combinedAcceptanceClick ACCEPTED
                  {| ui_priorities := {[ ALL ]}; ui_active := ∅ |}))).
Proof.
  destruct selection_stays_ok as (_ & _ & H).
  apply (H ACCEPTED {| ui_priorities := {[ ALL ]}; ui_active := ∅ |}).
  cbn [ui_priorities]. split.
  - intros H0. assert (Hin : ALL ∈ ({[ ALL ]} : gset jsstring))
      by (apply elem_of_singleton; reflexivity).
    rewrite H0 in Hin. exact (not_elem_of_empty _ Hin).
  - reflexivity.
Defined.

Lemma in_sync_all (ui : FilterUI) : ui_active ui = ∅ -> in_sync ui ALL.
Proof. intros H. unfold in_sync. exact H. Qed.

(** A click on a priority other than "all" leaves no priority selected
    exactly when that priority was the only one selected. *)
Lemma last_priority (p : jsstring) (sel : gset jsstring) :
  p <> ALL ->
  let s1 : gset jsstring := if bool_decide (ALL ∈ sel) then ∅ else sel in
  let s2 : gset jsstring :=
    if bool_decide (p ∈ s1) then s1 ∖ {[ p ]} else s1 ∪ {[ p ]} in
  (size s2 =? 0)%nat = true <-> sel = {[ p ]}.
Proof.
  intros Hp. cbn zeta. rewrite Nat.eqb_eq, size_empty_iff.
  destruct (bool_decide (ALL ∈ sel)) eqn:E1;
    [apply bool_decide_eq_true in E1|apply bool_decide_eq_false in E1].
  - rewrite (bool_decide_eq_false_2 (p ∈ (∅ : gset jsstring)))
      by apply not_elem_of_empty.
    split.
    + intros H. exfalso. apply (not_elem_of_empty (C := gset jsstring) p).
      rewrite <- H. apply elem_of_union_r, elem_of_singleton. reflexivity.
    + intros H. exfalso. rewrite H in E1. apply elem_of_singleton in E1. congruence.
  - destruct (bool_decide (p ∈ sel)) eqn:E2;
      [apply bool_decide_eq_true in E2|apply bool_decide_eq_false in E2].
    + split.
      * intros H. apply set_eq. intros w. rewrite elem_of_singleton. split.
        -- intros Hw. destruct (decide (w = p)) as [Heq|Hne]; [exact Heq|].
           exfalso. apply (not_elem_of_empty (C := gset jsstring) w).
           rewrite <- H. apply elem_of_difference. split; [exact Hw|].
           rewrite elem_of_singleton. exact Hne.
        -- intros ->. exact E2.
      * intros H. rewrite H. intros w.
        rewrite elem_of_difference, elem_of_singleton, elem_of_empty. tauto.
    + split.
      * intros H. exfalso. apply (not_elem_of_empty (C := gset jsstring) p).
        rewrite <- H. apply elem_of_union_r, elem_of_singleton. reflexivity.
      * intros H. exfalso. apply E2. rewrite H. apply elem_of_singleton. reflexivity.
Qed.

(** X18. The handlers of the combined filter keep the acceptance
    buttons and the caller's status together: if the active button was
    the one of the status (none for "all"), it still is after a click on
    a priority button or on an acceptance button other than "all", once
    the caller has stored what [onAcceptanceChange] gave it.  A click on
    "All", on the only selected priority, or on the active acceptance
    button puts both the selection and the status back to "all"; any
    other click on a priority leaves the status and the active button as
    they were, and a click on an inactive acceptance button leaves the
    selection as it was and makes that button the status. *)
Theorem filters_stay_in_sync (ui : FilterUI) (status : jsstring) :
  in_sync ui status ->
  (forall priority : jsstring,
      in_sync (fst (combinedPriorityClick priority ui))
              (statusAfter status (snd (combinedPriorityClick priority ui)))
      /\ (priority = ALL \/ ui_priorities ui = {[ priority ]} ->
          ui_priorities (fst (combinedPriorityClick priority ui)) = {[ ALL ]}
          /\ statusAfter status (snd (combinedPriorityClick priority ui)) = ALL)
      /\ (priority <> ALL -> ui_priorities ui <> {[ priority ]} ->
          ui_priorities (fst (combinedPriorityClick priority ui)) <> {[ ALL ]}
          /\ statusAfter status (snd (combinedPriorityClick priority ui)) = status
          /\ ui_active (fst (combinedPriorityClick priority ui)) = ui_active ui))
  /\ (forall clicked : jsstring,
      clicked <> ALL ->
      in_sync (fst (combinedAcceptanceClick clicked ui))
              (statusAfter status (snd (combinedAcceptanceClick clicked ui)))
      /\ (clicked ∈ ui_active ui ->
          ui_priorities (fst (combinedAcceptanceClick clicked ui)) = {[ ALL ]}
          /\ statusAfter status (snd (combinedAcceptanceClick clicked ui)) = ALL)
      /\ (clicked ∉ ui_active ui ->
          ui_priorities (fst (combinedAcceptanceClick clicked ui)) = ui_priorities ui
          /\ statusAfter status (snd (combinedAcceptanceClick clicked ui)) = clicked)).
Proof.
  intros Hsync. split.
  - intros p. unfold combinedPriorityClick.
    destruct (str_eqb p ALL) eqn:Hp.
    + unfold str_eqb in Hp. apply bool_decide_eq_true in Hp.
      cbn. split; [reflexivity|]. split; [intros _; split; reflexivity|].
      intros Hne. contradiction.
    + unfold str_eqb in Hp. apply bool_decide_eq_false in Hp.
      pose proof (last_priority p (ui_priorities ui) Hp) as Hlast. cbn zeta in Hlast.
      set (s1 := if bool_decide (ALL ∈ ui_priorities ui) then ∅ else ui_priorities ui)
        in *.
      set (s2 := if bool_decide (p ∈ s1) then s1 ∖ {[ p ]} else s1 ∪ {[ p ]}) in *.
      destruct (size s2 =? 0)%nat eqn:Hs.
      * cbn. split; [reflexivity|]. split; [intros _; split; reflexivity|].
        intros _ Hne. exfalso. apply Hne, Hlast. reflexivity.
      * cbn [fst snd ui_active ui_priorities statusAfter fold_left].
        split; [exact Hsync|]. split.
        -- intros [Heq|Heq]; [contradiction|].
           apply Hlast in Heq. discriminate.
        -- intros _ _. split; [|split; reflexivity].
           intros Hall.
           assert (H1 : ALL ∉ s1).
           { subst s1. destruct (bool_decide (ALL ∈ ui_priorities ui)) eqn:E.
             - apply not_elem_of_empty.
             - apply bool_decide_eq_false in E. exact E. }
           assert (H2 : ALL ∉ s2).
           { subst s2. destruct (bool_decide (p ∈ s1)).
             - rewrite elem_of_difference. tauto.
             - rewrite elem_of_union, elem_of_singleton.
               intros [H|H]; [tauto|congruence]. }
           apply H2. rewrite Hall. apply elem_of_singleton. reflexivity.
  - intros clicked Hclicked. unfold combinedAcceptanceClick.
    destruct (bool_decide (clicked ∈ ui_active ui)) eqn:Hactive.
    + apply bool_decide_eq_true in Hactive.
      cbn [fst snd ui_active ui_priorities statusAfter fold_left].
      split; [|split; [auto|tauto]].
      unfold in_sync in *. cbn [ui_active]. change (str_eqb ALL ALL) with true.
      cbn iota. rewrite Hsync in *.
      destruct (str_eqb status ALL).
      * exfalso. exact (not_elem_of_empty _ Hactive).
      * apply elem_of_singleton in Hactive. subst clicked.
        apply set_eq. intros w. rewrite elem_of_difference, elem_of_empty. tauto.
    + apply bool_decide_eq_false in Hactive.
      cbn [fst snd ui_active ui_priorities statusAfter fold_left].
      split; [|split; [tauto|auto]].
      unfold in_sync. cbn [ui_active]. unfold str_eqb.
      rewrite (bool_decide_eq_false_2 _ Hclicked). reflexivity.
Qed.

Lemma filters_stay_in_sync_witness :
  ui_priorities (fst (combinedPriorityClick (js "Major")
                   {| ui_priorities := {[ js "Major" ]}; ui_active := {[ ACCEPTED ]} |}))
    = {[ ALL ]}
  /\ statusAfter ACCEPTED (snd (combinedPriorityClick (js "Major")
                   {| ui_priorities := {[ js "Major" ]}; ui_active := {[ ACCEPTED ]} |}))
      = ALL.
Proof.
  destruct (filters_stay_in_sync
              {| ui_priorities := {[ js "Major" ]}; ui_active := {[ ACCEPTED ]} |}
              ACCEPTED) as [H _].
  - reflexivity.
  - destruct (H (js "Major")) as (_ & Hreset & _). apply Hreset. right. reflexivity.
Defined.

(** ** Distributions *)

Lemma bump_sum (value : jsstring) (d : list (jsstring * counter)) :
  inherited value = false ->
  Forall (fun e => exists n, snd e = Num n /\ (1 <= n)%nat) d ->
  sum_list_with (fun e => number (snd e)) (bump value d) =
    S (sum_list_with (fun e => number (snd e)) d)
  /\ Forall (fun e => exists n, snd e = Num n /\ (1 <= n)%nat) (bump value d).
Proof.
  intros Hv Hd.
  assert (Hproto : str_eqb value PROTO = false)
    by (apply bool_decide_eq_false, not_inherited_proto, Hv).
  unfold bump, assign. rewrite Hproto, (get_own value _ Hv).
  induction Hd as [|[k v] d (n & Hn & Hge) Hd [IH1 IH2]]; cbn [own_value put].
  - cbn. split; [reflexivity|]. constructor; [|constructor].
    exists 1%nat. split; [reflexivity|lia].
  - cbn [snd] in Hn. subst v. destruct (str_eqb k value); cbn [or0_plus1].
    + split; [cbn; lia|]. constructor; [|exact Hd].
      exists (S n). split; [reflexivity|lia].
    + split; [cbn [sum_list_with snd number]; rewrite IH1; lia|].
      constructor; [|exact IH2]. exists n. split; [reflexivity|exact Hge].
Qed.

Lemma tally_counts (field : Issue -> jsstring) (pullRequests : list PullRequest) :
  Forall (fun issue => inherited (field issue) = false) (allIssues pullRequests) ->
  tally_ok (tally field pullRequests)
  /\ snd (tally field pullRequests) =
       countIf (fun issue => truthy (field issue)) (allIssues pullRequests).
Proof.
  unfold tally.
  assert (Hinner : forall (issues : list Issue) (acc : list (jsstring * counter) * nat),
            Forall (fun issue => inherited (field issue) = false) issues ->
            tally_ok acc ->
            let acc' := fold_left (fun acc issue =>
                          let value := field issue in
                          if truthy value then (bump value (fst acc), S (snd acc)) else acc)
                          issues acc in
            tally_ok acc'
            /\ snd acc' = (snd acc + countIf (fun issue => truthy (field issue)) issues)%nat).
  { induction issues as [|issue issues IH]; intros acc Hord Hacc; cbn zeta;
      cbn [fold_left].
    - split; [exact Hacc|]. unfold countIf. simpl. lia.
    - inversion Hord as [|? ? Hissue Hrest]; subst.
      rewrite countIf_cons. cbn beta zeta.
      destruct (truthy (field issue)); cbn beta iota zeta.
      + destruct (IH (bump (field issue) (fst acc), S (snd acc)) Hrest) as [H1 H2].
        * destruct Hacc as [Hs Hf].
          destruct (bump_sum (field issue) (fst acc) Hissue Hf) as [B1 B2].
          split; cbn [fst snd]; [rewrite B1, Hs; reflexivity|exact B2].
        * split; [exact H1|]. etransitivity; [exact H2|]. cbn [snd]. lia.
      + destruct (IH acc Hrest Hacc) as [H1 H2]. split; [exact H1|].
        etransitivity; [exact H2|]. lia. }
  assert (Houter : forall (prs : list PullRequest) (acc : list (jsstring * counter) * nat),
            Forall (fun issue => inherited (field issue) = false) (allIssues prs) ->
            tally_ok acc ->
            let acc' := fold_left (fun acc pr =>
                          fold_left (fun acc issue =>
                            let value := field issue in
                            if truthy value then (bump value (fst acc), S (snd acc))
                            else acc) (actionableIssues pr) acc) prs acc in
            tally_ok acc'
            /\ snd acc' =
                 (snd acc + countIf (fun issue => truthy (field issue)) (allIssues prs))%nat).
  { induction prs as [|pr prs IH]; intros acc Hord Hacc; cbn zeta; cbn [fold_left].
    - split; [exact Hacc|]. unfold countIf. simpl. lia.
    - change (pr :: prs) with ([pr] ++ prs) in Hord.
      rewrite allIssues_app in Hord. apply Forall_app in Hord as [Hpr Hprs].
      replace (allIssues [pr]) with (actionableIssues pr) in Hpr
        by (unfold allIssues; simpl; rewrite app_nil_r; reflexivity).
      destruct (Hinner (actionableIssues pr) acc Hpr Hacc) as [H1 H2].
      destruct (IH _ Hprs H1) as [H3 H4]. split; [exact H3|].
      etransitivity; [exact H4|]. rewrite H2. change (pr :: prs) with ([pr] ++ prs).
      rewrite allIssues_app. unfold countIf at 3. rewrite List.filter_app, length_app.
      unfold allIssues. simpl. rewrite app_nil_r. unfold countIf. lia. }
  intros Hord. destruct (Houter pullRequests ([], 0%nat) Hord) as [H1 H2].
  - split; [reflexivity|constructor].
  - split; [exact H1|]. etransitivity; [exact H2|]. reflexivity.
Qed.

Lemma sum_counts (f : jsstring * counter -> option Q) (d : list (jsstring * counter)) :
  sum_list_with numberOf
    (map (fun e => {| label := fst e; count := snd e; percentage := f e |}) d) =
    sum_list_with (fun e => number (snd e)) d.
Proof.
  induction d as [|e d IH]; [reflexivity|].
  cbn [map sum_list_with]. rewrite IH. reflexivity.
Qed.

(** X19. When no value of the field names a property inherited from
    [Object.prototype], [calculateDistribution] counts every issue whose
    field is not empty exactly once: every count is a number, the counts
    of the items add up to the number of those issues, every item has a
    count of at least one, the items come in descending order of count,
    and the percentage of an item is its count over that number, times
    100. *)
Theorem calculateDistribution_counts (field : Issue -> jsstring)
    (pullRequests : list PullRequest) :
  Forall (fun issue => inherited (field issue) = false) (allIssues pullRequests) ->
  let total := countIf (fun issue => truthy (field issue)) (allIssues pullRequests) in
  exists items : list DistributionItem,
    calculateDistribution field pullRequests = InOrder items
    /\ sum_list_with numberOf items = total
    /\ descending numberOf items
    /\ Forall (fun item =>
                 exists n : nat,
                   count item = Num n
                   /\ (1 <= n <= total)%nat
                   /\ percentage item = Some (ratio n total * 100)%Q)
              items.
Proof.
  intros Hord. cbn zeta. unfold calculateDistribution.
  destruct (tally_counts field pullRequests Hord) as [[Hsum Hpos] Htotal].
  destruct (tally field pullRequests) as [distribution total]. cbn [fst snd] in *.
  rewrite <- Htotal.
  set (items := map (fun e => {| label := fst e; count := snd e;
                                 percentage := percent (snd e) total |})
                    (entries_of distribution)).
  assert (Hin : Forall (fun e => exists n, snd e = Num n /\ (1 <= n <= total)%nat)
                       (entries_of distribution)).
  { rewrite entries_of_perm. apply Forall_forall. intros e He.
    rewrite Forall_forall in Hpos. destruct (Hpos e He) as (n & Hn & Hge).
    exists n. split; [exact Hn|]. split; [exact Hge|].
    rewrite <- Hsum.
    pose proof (sum_list_with_in _ (fun e => number (snd e)) _ He) as Hle.
    cbn beta in Hle. rewrite Hn in Hle. exact Hle. }
  assert (Hitems : Forall (fun item =>
                      exists n : nat,
                        count item = Num n
                        /\ (1 <= n <= total)%nat
                        /\ percentage item = Some (ratio n total * 100)%Q) items).
  { subst items. apply Forall_fmap. eapply Forall_impl; [exact Hin|].
    intros e (n & Hn & Hge). exists n. cbn. split; [exact Hn|]. split; [exact Hge|].
    rewrite Hn. unfold percent. destruct total as [|t]; [lia|reflexivity]. }
  assert (Hnum : forallb (fun item => is_number (count item)) items = true).
  { apply forallb_forall. intros item Hitem.
    rewrite List.Forall_forall in Hitems. destruct (Hitems item Hitem) as (n & -> & _).
    reflexivity. }
  exists (sort_desc numberOf items). unfold sort_by_count. rewrite Hnum.
  split; [reflexivity|].
  split; [rewrite sort_desc_perm; subst items; rewrite sum_counts, entries_of_perm;
          exact Hsum|].
  split; [apply sort_desc_descending|].
  apply sort_desc_Forall. exact Hitems.
Qed.

(** ** More on the manual overrides *)












(** ** Bodies without a marker *)

Lemma severityRe_head :
  exists r : regex, Patterns.severityRe = Seq (Seq (Chr 95) Eps) r.
Proof. eexists. reflexivity. Qed.

Lemma exec_from_no_head (r : regex) (c : N) (s : jsstring) :
  ~ In c s ->
  forall i : nat, exec_from (Seq (Seq (Chr c) Eps) r) i s = None.
Proof.
  induction s as [|d s IH]; intros Hc i.
  - reflexivity.
  - cbn [exec_from]. unfold match_at. cbn [m rest].
    destruct (N.eqb_spec c d) as [->|Hne]; [exfalso; apply Hc; left; reflexivity|].
    apply IH. intros Hin. apply Hc. right. exact Hin.
Qed.

(** X23. [parseActionableIssue] returns [null] for a missing body, for
    an empty body, and for every body without an underscore: the marker
    starts with one. *)
Theorem parseActionableIssue_null :
  parseActionableIssue None = None
  /\ parseActionableIssue (Some []) = None
  /\ (forall body : jsstring, ~ In 95%N body -> parseActionableIssue (Some body) = None).
Proof.
  split; [reflexivity|]. split; [reflexivity|].
  intros body Hbody. apply parseActionableIssue_no_marker.
  destruct severityRe_head as [r ->]. unfold str_match.
  apply exec_from_no_head, Hbody.
Qed.

Lemma parseActionableIssue_null_witness :
  parseActionableIssue (Some (js "LGTM, thanks!")) = None.
Proof.
  destruct parseActionableIssue_null as (_ & _ & H).
  apply H. vm_compute. intuition discriminate.
Defined.

(** ** Further examples *)

Lemma calculateSimilarity_range_witness :
  (calculateSimilarity (js "Avoid using var") (js "avoid USING var!") == 1)%Q.
Proof.
  destruct (calculateSimilarity_range (js "Avoid using var") (js "avoid USING var!"))
    as (_ & [_ H] & _).
  apply H. vm_compute. reflexivity.
Defined.

Lemma groups_descending_witness :
  exists titles : list TitleGroup,
    extractTitles data1 = inr titles /\ descending totalCount titles.
Proof.
  destruct groups_descending as [_ H]. apply (H data1).
  apply ordinaryb_true. vm_compute. reflexivity.
Defined.

Lemma extractTitles_occurrences_witness :
  exists titles : list TitleGroup,
    extractTitles data1 = inr titles
    /\ occurrencesIn titles ≡ₚ occurrences_of data1
    /\ shown titles = length (allIssues data1).
Proof.
  apply (extractTitles_occurrences data1).
  apply ordinaryb_true. vm_compute. reflexivity.
Defined.

Lemma applyCombinedFilters_all_identity_witness :
  exists titles : list TitleGroup,
    applyCombinedFilters data1 {[ ALL ]} ALL = inr titles
    /\ Forall (fun g => totalCount g = length (allOccurrences g)
                        /\ allOccurrences g <> []) titles
    /\ occurrencesIn titles ≡ₚ occurrences_of data1.
Proof.
  destruct (applyCombinedFilters_all_identity data1) as [_ H]. apply H.
  apply ordinaryb_true. vm_compute. reflexivity.
Defined.

Lemma inherited_title_throws_witness :
  extractTitles data3 = inl TypeError
  /\ applyPriorityFilter data3 {[ ALL ]} = inl TypeError.
Proof.
  destruct (inherited_title_throws data3) as [_ H].
  destruct H as [H1 H2].
  - apply ordinaryb_false. vm_compute. reflexivity.
  - split; [exact H1|]. destruct (H2 {[ ALL ]} ALL) as (_ & _ & H3). exact H3.
Defined.

Lemma applyCombinedFilters_sound_witness :
  exists titles filteredTitles : list TitleGroup,
    extractTitles data1 = inr titles
    /\ applyCombinedFilters data1 {[ js "Major" ]} ACCEPTED = inr filteredTitles
    /\ Forall (fun g =>
                 (exists g0, g0 ∈ titles
                    /\ filtered_from {[ js "Major" ]} ACCEPTED g0 g)
                 /\ Forall (fun o => matchesFilters {[ js "Major" ]} ACCEPTED o = true)
                           (allOccurrences g)
                 /\ allOccurrences g <> []
                 /\ totalCount g = length (allOccurrences g))
              filteredTitles.
Proof.
  apply (applyCombinedFilters_sound data1 {[ js "Major" ]} ACCEPTED).
  apply ordinaryb_true. vm_compute. reflexivity.
Defined.

Lemma applyCombinedFilters_acceptance_split_witness :
  exists all accepted notAccepted : list TitleGroup,
    applyCombinedFilters data1 {[ ALL ]} ALL = inr all
    /\ applyCombinedFilters data1 {[ ALL ]} ACCEPTED = inr accepted
    /\ applyCombinedFilters data1 {[ ALL ]} NOT_ACCEPTED = inr notAccepted
    /\ (shown accepted + shown notAccepted = shown all)%nat.
Proof.
  apply (applyCombinedFilters_acceptance_split data1 {[ ALL ]}).
  apply ordinaryb_true. vm_compute. reflexivity.
Defined.

Lemma updateFilterCounts_agree_witness :
  exists (c : FilterCounts) (n : nat),
    updateFilterCounts data1 {[ ALL ]} ALL = inr c
    /\ shownCount c (js "Major") = Num n
    /\ shows data1 {[ js "Major" ]} ALL n.
Proof.
  destruct (updateFilterCounts_agree data1 {[ ALL ]} ALL)
    as (c & titles & Hc & _ & _ & _ & _ & H & _).
  - apply ordinaryb_true. vm_compute. reflexivity.
  - destruct (H (js "Major")) as (n & Hn & Hshows).
    + vm_compute. discriminate.
    + vm_compute. reflexivity.
    + exists c, n. split; [exact Hc|]. split; assumption.
Defined.

Lemma applyPriorityFilter_groups_witness :
  exists titles whole filteredTitles : list TitleGroup,
    extractTitles data1 = inr titles
    /\ applyPriorityFilter data1 {[ js "Major" ]} = inr whole
    /\ applyCombinedFilters data1 {[ js "Major" ]} ALL = inr filteredTitles
    /\ map mainTitle whole = map mainTitle filteredTitles
    /\ whole `sublist_of` titles.
Proof.
  apply (applyPriorityFilter_groups data1 {[ js "Major" ]}).
  apply ordinaryb_true. vm_compute. reflexivity.
Defined.

Lemma calculateDistribution_counts_witness :
  exists items : list DistributionItem,
    calculateDistribution severity data1 = InOrder items
    /\ sum_list_with numberOf items = 1%nat.
Proof.
  destruct (calculateDistribution_counts severity data1) as (items & H1 & H2 & _).
  - repeat constructor.
  - exists items. split; [exact H1|exact H2].
Defined.

